(** * Filesystem MCP server: a shallow embedding and its verified properties

    The development follows the layout of the repository:
    - [Str], [Num]: the JavaScript string and number operations the code uses;
    - [Js]: values, exceptions and the outcome of an awaited call;
    - [Path]: the POSIX flavour of node:path;
    - [Fs]: an in-memory file tree with the node:fs/promises calls;
    - [RegExp]: the fragment of regular expressions search_files can build;
    - [Tools], [Resources], [Prompts]: tools.ts, resources.ts, prompts.ts;
    - [Registry], [Index]: the capability registry and the startup code of
      index.ts that fills it;
    - [Json], [Framing]: the messages and their encoding on the wire.

    A JavaScript string is represented by its UTF-8 bytes, so lengths and
    case changes are those of JavaScript on ASCII text. File trees have no
    symbolic links, and a call runs to completion before the next begins. *)

From Stdlib Require Import Ascii QArith DecimalString DecimalPos DecimalN.
From stdpp Require Import gmap strings list.

(* ===================================================================== *)
(** * Strings *)
(* ===================================================================== *)

Module Str.

Definition chr (n : nat) : ascii := Ascii.ascii_of_nat n.

Definition LF : ascii := chr 10.
Definition CR : ascii := chr 13.
Definition slash : ascii := chr 47.
Definition dot : ascii := chr 46.
Definition backslash : ascii := chr 92.
Definition dquote : ascii := chr 34.

(** The one-character string; [nl] is the JavaScript literal backslash-n. *)
Definition of_char (c : ascii) : string := String c EmptyString.
Definition nl : string := of_char LF.

Definition eqb (a b : string) : bool := bool_decide (a = b).

(** [s.startsWith(p)] *)
Fixpoint startsWith (s p : string) {struct p} : bool :=
  match p, s with
  | EmptyString, _ => true
  | String a p', String b s' => bool_decide (a = b) && startsWith s' p'
  | String _ _, EmptyString => false
  end.

Fixpoint rev_onto (s acc : string) : string :=
  match s with
  | EmptyString => acc
  | String c s' => rev_onto s' (String c acc)
  end.
Definition rev (s : string) : string := rev_onto s EmptyString.

(** [s.endsWith(p)] *)
Definition endsWith (s p : string) : bool := startsWith (rev s) (rev p).

(** [s.slice(n)] for a non-negative [n] *)
Fixpoint drop (n : nat) (s : string) : string :=
  match n, s with
  | O, _ => s
  | S n', String _ s' => drop n' s'
  | S _, EmptyString => EmptyString
  end.

(** [s.slice(0, n)] for a non-negative [n] *)
Fixpoint take (n : nat) (s : string) : string :=
  match n, s with
  | O, _ => EmptyString
  | S n', String c s' => String c (take n' s')
  | S _, EmptyString => EmptyString
  end.

(** [s.slice(0, -1)] *)
Definition dropLast (s : string) : string := take (String.length s - 1) s.

(** [s.slice(a, b)] for [0 <= a], [0 <= b] *)
Definition slice (a b : nat) (s : string) : string := take (b - a) (drop a s).

(** [s.includes(sub)] *)
Fixpoint includes (s sub : string) : bool :=
  startsWith s sub ||
  match s with
  | EmptyString => false
  | String _ s' => includes s' sub
  end.

(** [sub] occurs in [s] *)
Definition contains (s sub : string) : Prop :=
  exists pre post : string, s = pre +:+ sub +:+ post.

(** [s.split(sep)] for a one-character separator: the current piece is
    accumulated in reverse in [cur]. *)
Fixpoint split_go (sep : ascii) (s cur : string) : list string :=
  match s with
  | EmptyString => [rev cur]
  | String c s' =>
      if bool_decide (c = sep) then rev cur :: split_go sep s' EmptyString
      else split_go sep s' (String c cur)
  end.
Definition split (sep : ascii) (s : string) : list string :=
  split_go sep s EmptyString.

(** [l.join(sep)] *)
Fixpoint join (sep : string) (l : list string) : string :=
  match l with
  | [] => EmptyString
  | [x] => x
  | x :: rest => x +:+ sep +:+ join sep rest
  end.

Fixpoint repeat (s : string) (n : nat) : string :=
  match n with
  | O => EmptyString
  | S n' => s +:+ repeat s n'
  end.

Definition padEnd (n : nat) (s : string) : string :=
  s +:+ repeat " " (n - String.length s).
Definition padStart (n : nat) (s : string) : string :=
  repeat " " (n - String.length s) +:+ s.

(** ASCII letters only: the other bytes are left as they are. *)
Definition lower_char (c : ascii) : ascii :=
  let n := Ascii.nat_of_ascii c in
  if (65 <=? n)%nat && (n <=? 90)%nat then chr (n + 32) else c.
Fixpoint toLowerCase (s : string) : string :=
  match s with
  | EmptyString => EmptyString
  | String c s' => String (lower_char c) (toLowerCase s')
  end.

(** [s.replace(from, to)] with a one-character string [from]: only the
    first occurrence is replaced. *)
Fixpoint replaceFirst (from : ascii) (to : string) (s : string) : string :=
  match s with
  | EmptyString => EmptyString
  | String c s' =>
      if bool_decide (c = from) then to +:+ s'
      else String c (replaceFirst from to s')
  end.

(** [l.includes(x)] on an array of strings *)
Definition mem (x : string) (l : list string) : bool :=
  bool_decide (x ∈ l).

End Str.

(* ===================================================================== *)
(** * Numbers and their renderings *)
(* ===================================================================== *)

Module Num.

Definition digit (d : N) : ascii := Str.chr (48 + N.to_nat d).

(** Digits of [n] in base [radix], most significant first; [fuel] bounds the
    number of digits. *)
Fixpoint digits (fuel : nat) (radix n : N) (acc : string) : string :=
  match fuel with
  | O => acc
  | S f =>
      let acc' := String (digit (n mod radix)) acc in
      if (n / radix =? 0)%N then acc' else digits f radix (n / radix) acc'
  end.

(** [n.toString(radix)] for a non-negative integer and [2 <= radix <= 10] *)
Definition toString (radix n : N) : string :=
  digits (S (N.to_nat (N.log2 n))) radix n EmptyString.

(** [`${n}`] for a non-negative integer *)
Definition show (n : N) : string := toString 10 n.
Definition show_nat (n : nat) : string := show (N.of_nat n).

(** [(size / 1024).toFixed(d)]: the quotient is exact in binary floating
    point for sizes below 2^53, so the result is [size / 1024] rounded to
    [d] decimals, ties going up. *)
Definition toFixed_KB (d : nat) (size : N) : string :=
  let scale := (10 ^ N.of_nat d)%N in
  let n := ((2 * size * scale + 1024) / 2048)%N in
  let frac := show (n mod scale) in
  match d with
  | O => show n
  | _ => show (n / scale) +:+ "." +:+
         Str.repeat "0" (d - String.length frac) +:+ frac
  end.

End Num.

(* ===================================================================== *)
(** * JavaScript values, exceptions and awaited calls *)
(* ===================================================================== *)

Module Js.

(** The values an argument map can hold. A number is a finite double, which
    is a rational; [VObject] stands for any array or object. *)
Inductive value :=
| VUndefined
| VNull
| VBool (b : bool)
| VNumber (q : Q)
| VString (s : string)
| VObject.

(** [args.key]: a missing key reads as [undefined]. *)
Definition prop (args : gmap string value) (key : string) : value :=
  default VUndefined (args !! key).

(** [v ?? d] *)
Definition nullish (v d : value) : value :=
  match v with
  | VUndefined | VNull => d
  | _ => v
  end.

(** Truthiness, as [if (v)] takes it. *)
Definition truthy (v : value) : bool :=
  match v with
  | VUndefined | VNull => false
  | VBool b => b
  | VNumber q => negb (Qeq_bool q 0)
  | VString s => negb (Str.eqb s "")
  | VObject => true
  end.

(** [`${v}`]. The server renders only strings it has already used as
    strings; a number is rendered exactly when it is an integer and by its
    fraction otherwise. *)
Definition show (v : value) : string :=
  match v with
  | VUndefined => "undefined"
  | VNull => "null"
  | VBool true => "true"
  | VBool false => "false"
  | VNumber q =>
      let n := Qnum q in
      let abs := Num.show (Z.to_N (Z.abs n)) in
      let num := if (n <? 0)%Z then "-" +:+ abs else abs in
      if (Qden q =? 1)%positive then num
      else num +:+ "/" +:+ Num.show (Npos (Qden q))
  | VString s => s
  | VObject => "[object Object]"
  end.

(** [len >= v] for an array length [len]. Under the declared schemas [v]
    is a number; [null] and booleans convert to 0 and 1, and the other
    values are compared as NaN, which makes every comparison false. *)
Definition length_ge (len : nat) (v : value) : bool :=
  match v with
  | VNumber q => Qle_bool q (inject_Z (Z.of_nat len))
  | VNull => true
  | VBool b => ((if b then 1 else 0) <=? len)%nat
  | _ => false
  end.

Inductive errno := ENOENT | ENOTDIR | EISDIR | EACCES | EEXIST | EINVAL.

Definition errno_name (c : errno) : string :=
  match c with
  | ENOENT => "ENOENT" | ENOTDIR => "ENOTDIR" | EISDIR => "EISDIR"
  | EACCES => "EACCES" | EEXIST => "EEXIST" | EINVAL => "EINVAL"
  end.

Definition errno_text (c : errno) : string :=
  match c with
  | ENOENT => "no such file or directory"
  | ENOTDIR => "not a directory"
  | EISDIR => "illegal operation on a directory"
  | EACCES => "permission denied"
  | EEXIST => "file already exists"
  | EINVAL => "invalid argument"
  end.

(** What can be thrown. A failed system call is Node's [ErrnoException]
    with the failing call and the path it was given; [ErrnoCall] is the
    same for a call on an open file, which has no path. *)
Inductive exn :=
| ErrnoException (code : errno) (syscall : string) (path : string)
| ErrnoCall (code : errno) (syscall : string)
| TypeError (msg : string)
| SyntaxError (msg : string)
| Error (msg : string).

(** [e.message]; for a system call Node writes
    [CODE: description, syscall 'path']. *)
Definition message (e : exn) : string :=
  match e with
  | ErrnoException c call p =>
      errno_name c +:+ ": " +:+ errno_text c +:+ ", " +:+ call +:+
      " '" +:+ p +:+ "'"
  | ErrnoCall c call =>
      errno_name c +:+ ": " +:+ errno_text c +:+ ", " +:+ call
  | TypeError m | SyntaxError m | Error m => m
  end.

(** The two ways a call ends. *)
Inductive outcome (A : Type) :=
| Returned (a : A)
| Thrown (e : exn).
Arguments Returned {A} a.
Arguments Thrown {A} e.

Definition obind {A B} (m : outcome A) (k : A -> outcome B) : outcome B :=
  match m with
  | Returned a => k a
  | Thrown e => Thrown e
  end.

(** The receiver of a string method such as [v.replace]: anything but a
    string has no such method. *)
Definition receiver (v : value) (method : string) : outcome string :=
  match v with
  | VString s => Returned s
  | VUndefined | VNull =>
      Thrown (TypeError ("Cannot read properties of " +:+ show v +:+
                         " (reading '" +:+ method +:+ "')"))
  | _ => Thrown (TypeError (method +:+ " is not a function"))
  end.

(** [`${v.length}`] *)
Definition show_length (v : value) : outcome string :=
  match v with
  | VString s => Returned (Num.show_nat (String.length s))
  | VUndefined | VNull =>
      Thrown (TypeError ("Cannot read properties of " +:+ show v +:+
                         " (reading 'length')"))
  | _ => Returned "undefined"
  end.

(** [try { m } catch (e) { h e }] *)
Definition otry {A} (m : outcome A) (h : exn -> outcome A) : outcome A :=
  match m with
  | Returned a => Returned a
  | Thrown e => h e
  end.

(** An async function run to completion on a state [S]: the state is
    threaded through the awaited calls, and a rejection keeps the effects
    made before it. *)
Definition Promise (S A : Type) : Type := S -> outcome A * S.

Definition ret {S A} (a : A) : Promise S A := fun s => (Returned a, s).
Definition throw {S A} (e : exn) : Promise S A := fun s => (Thrown e, s).
Definition bind {S A B} (m : Promise S A) (k : A -> Promise S B)
  : Promise S B :=
  fun s =>
    match m s with
    | (Returned a, s') => k a s'
    | (Thrown e, s') => (Thrown e, s')
    end.
Definition tryCatch {S A} (m : Promise S A) (h : exn -> Promise S A)
  : Promise S A :=
  fun s =>
    match m s with
    | (Returned a, s') => (Returned a, s')
    | (Thrown e, s') => h e s'
    end.

(** A call that only reads the state. *)
Definition reading {S A} (f : S -> outcome A) : Promise S A :=
  fun s => (f s, s).
(** A call that fails or replaces the state. *)
Definition writing {S} (f : S -> outcome S) : Promise S unit :=
  fun s =>
    match f s with
    | Returned s' => (Returned tt, s')
    | Thrown e => (Thrown e, s)
    end.
Definition pure {S A} (m : outcome A) : Promise S A := fun s => (m, s).

End Js.

Export Js (value(..), errno(..), exn(..), outcome(..)).

Notation "x <- m ;; k" := (Js.bind m (fun x => k))
  (at level 100, m at next level, right associativity, only parsing).
Notation "m ;;; k" := (Js.bind m (fun _ => k))
  (at level 100, right associativity, only parsing).
Notation "x <~ m ;; k" := (Js.obind m (fun x => k))
  (at level 100, m at next level, right associativity, only parsing).

(* ===================================================================== *)
(** * node:path, POSIX flavour *)
(* ===================================================================== *)

Module Path.

Definition chars (s : string) : list ascii := String.list_ascii_of_string s.

Definition isAbsolute (p : string) : bool := Str.startsWith p "/".

(** [normalizeString]: the segments kept, most recent first in [acc]. *)
Fixpoint normSegs (allowAboveRoot : bool) (comps acc : list string)
  : list string :=
  match comps with
  | [] => reverse acc
  | c :: rest =>
      if Str.eqb c "" || Str.eqb c "." then normSegs allowAboveRoot rest acc
      else if Str.eqb c ".." then
        match acc with
        | last :: acc' =>
            if Str.eqb last ".." then
              normSegs allowAboveRoot rest
                (if allowAboveRoot then ".." :: acc else acc)
            else normSegs allowAboveRoot rest acc'
        | [] =>
            normSegs allowAboveRoot rest
              (if allowAboveRoot then [".."] else [])
        end
      else normSegs allowAboveRoot rest (c :: acc)
  end.

Definition normalizeString (p : string) (allowAboveRoot : bool) : string :=
  Str.join "/" (normSegs allowAboveRoot (Str.split Str.slash p) []).

(** What Node says of an argument that is not a string. *)
Definition invalid_path (index : nat) (v : value) : exn :=
  TypeError
    ("The " +:+ Str.of_char Str.dquote +:+ "paths[" +:+ Num.show_nat index +:+
     "]" +:+ Str.of_char Str.dquote +:+
     " argument must be of type string. Received " +:+
     match v with
     | VUndefined => "undefined"
     | VNull => "null"
     | VBool _ => "type boolean (" +:+ Js.show v +:+ ")"
     | VNumber _ => "type number (" +:+ Js.show v +:+ ")"
     | VString s => "type string ('" +:+ s +:+ "')"
     | VObject => "an instance of Object"
     end).

(** The loop of [path.resolve], from the last argument to the first and
    then the working directory, until an absolute path is met. Each
    argument visited must be a string. [paths] holds the arguments not yet
    visited, last first. *)
Fixpoint resolve_go (paths : list value) (cwd resolved : string)
  : outcome (string * bool) :=
  match paths with
  | [] =>
      Returned (cwd +:+ "/" +:+ resolved, isAbsolute cwd)
  | VString p :: rest =>
      if Str.eqb p "" then resolve_go rest cwd resolved
      else if isAbsolute p then Returned (p +:+ "/" +:+ resolved, true)
      else resolve_go rest cwd (p +:+ "/" +:+ resolved)
  | v :: rest => Thrown (invalid_path (length rest) v)
  end.

(** [path.resolve(...paths)] in a process whose working directory is
    [cwd]. *)
Definition resolve (cwd : string) (paths : list value) : outcome string :=
  ra <~ resolve_go (reverse paths) cwd "" ;;
  let '(r, abs) := ra in
  let n := normalizeString r (negb abs) in
  Returned (if abs then "/" +:+ n
            else if Str.eqb n "" then "." else n).

(** [path.normalize(p)] *)
Definition normalize (p : string) : string :=
  if Str.eqb p "" then "."
  else
    let abs := isAbsolute p in
    let trailing := Str.endsWith p "/" in
    let n := normalizeString p (negb abs) in
    if Str.eqb n "" then
      (if abs then "/" else if trailing then "./" else ".")
    else
      let n' := if trailing then n +:+ "/" else n in
      if abs then "/" +:+ n' else n'.

(** [path.join(...paths)] *)
Definition join (paths : list string) : string :=
  match filter (fun p => p <> "") paths with
  | [] => "."
  | ps => normalize (Str.join "/" ps)
  end.

(** The backward scan of [path.dirname] over the characters at indices
    [i], [i-1], ..., 1: the index of the last separator that follows a
    character which is not one. *)
Fixpoint dirname_scan (cs : list ascii) (i : nat) (matchedSlash : bool)
  : option nat :=
  match cs with
  | [] => None
  | c :: rest =>
      if bool_decide (c = Str.slash) then
        if matchedSlash then dirname_scan rest (i - 1) matchedSlash
        else Some i
      else dirname_scan rest (i - 1) false
  end.

(** [path.dirname(p)] *)
Definition dirname (p : string) : string :=
  if Str.eqb p "" then "."
  else
    let hasRoot := isAbsolute p in
    match dirname_scan (reverse (tail (chars p))) (String.length p - 1) true
    with
    | None => if hasRoot then "/" else "."
    | Some e => if hasRoot && (e =? 1)%nat then "//" else Str.take e p
    end.

(** The state of the backward scan of [path.extname]. *)
Record ext_state := {
  startDot : option nat;
  startPart : nat;
  ext_end : option nat;
  matchedSlash : bool;
  preDotState : Z;
  stopped : bool;
}.

Definition ext_step (st : ext_state) (ic : nat * ascii) : ext_state :=
  let '(i, c) := ic in
  if stopped st then st
  else if bool_decide (c = Str.slash) then
    if matchedSlash st then st
    else {| startDot := startDot st; startPart := i + 1;
            ext_end := ext_end st; matchedSlash := matchedSlash st;
            preDotState := preDotState st; stopped := true |}
  else
    let st1 :=
      match ext_end st with
      | None => {| startDot := startDot st; startPart := startPart st;
                   ext_end := Some (i + 1); matchedSlash := false;
                   preDotState := preDotState st; stopped := false |}
      | Some _ => st
      end in
    if bool_decide (c = Str.dot) then
      match startDot st1 with
      | None => {| startDot := Some i; startPart := startPart st1;
                   ext_end := ext_end st1; matchedSlash := matchedSlash st1;
                   preDotState := preDotState st1; stopped := false |}
      | Some _ => {| startDot := startDot st1; startPart := startPart st1;
                     ext_end := ext_end st1;
                     matchedSlash := matchedSlash st1;
                     preDotState := 1; stopped := false |}
      end
    else
      match startDot st1 with
      | None => st1
      | Some _ => {| startDot := startDot st1; startPart := startPart st1;
                     ext_end := ext_end st1;
                     matchedSlash := matchedSlash st1;
                     preDotState := -1; stopped := false |}
      end.

(** The characters of [p] with their indices, last first. *)
Definition indexed_rev (p : string) : list (nat * ascii) :=
  reverse (imap (fun i c => (i, c)) (chars p)).

(** [path.extname(p)] *)
Definition extname (p : string) : string :=
  let st := foldl ext_step
              {| startDot := None; startPart := 0; ext_end := None;
                 matchedSlash := true; preDotState := 0; stopped := false |}
              (indexed_rev p) in
  match startDot st, ext_end st with
  | Some d, Some e =>
      if (preDotState st =? 0)%Z
         || ((preDotState st =? 1)%Z && (d =? e - 1)%nat
             && (d =? startPart st + 1)%nat)
      then ""
      else Str.slice d e p
  | _, _ => ""
  end.

(** The segments of an absolute normalised path. *)
Definition segments (p : string) : list string :=
  normSegs false (Str.split Str.slash p) [].

Fixpoint strip_common (a b : list string) : list string * list string :=
  match a, b with
  | x :: a', y :: b' =>
      if Str.eqb x y then strip_common a' b' else (a, b)
  | _, _ => (a, b)
  end.

(** [path.relative(from, to)] for two absolute paths: up from what is left
    of [from] after the common segments, then down what is left of [to]. *)
Definition relative (from to : string) : string :=
  let '(up, down) := strip_common (segments from) (segments to) in
  Str.join "/" (map (fun _ => "..") up ++ down).

End Path.

(* ===================================================================== *)
(** * Buffers *)
(* ===================================================================== *)

Module Buffer.

Definition alphabet : string :=
  "ABCDEFGHIJKLMNOPQRSTUVWXYZabcdefghijklmnopqrstuvwxyz0123456789+/".

Definition sextet (n : N) : ascii :=
  default Str.dot (String.get (N.to_nat n) alphabet).

Definition byte (c : ascii) : N := Ascii.N_of_ascii c.

Fixpoint base64 (bs : list ascii) : string :=
  match bs with
  | [] => ""
  | [a] =>
      let a := byte a in
      String (sextet (N.shiftr a 2))
        (String (sextet (N.shiftl (N.land a 3) 4)) "==")
  | [a; b] =>
      let a := byte a in
      let b := byte b in
      String (sextet (N.shiftr a 2))
        (String (sextet (N.lor (N.shiftl (N.land a 3) 4) (N.shiftr b 4)))
          (String (sextet (N.shiftl (N.land b 15) 2)) "="))
  | a :: b :: c :: rest =>
      let a := byte a in
      let b := byte b in
      let c := byte c in
      String (sextet (N.shiftr a 2))
        (String (sextet (N.lor (N.shiftl (N.land a 3) 4) (N.shiftr b 4)))
          (String (sextet (N.lor (N.shiftl (N.land b 15) 2) (N.shiftr c 6)))
            (String (sextet (N.land c 63)) (base64 rest))))
  end.

(** [buffer.toString(encoding)] for the two encodings the server uses. A
    buffer is the string of its bytes, so decoding well-formed UTF-8 gives
    the same representation back. *)
Definition toString (encoding : string) (data : string) : option string :=
  if Str.eqb encoding "utf8" || Str.eqb encoding "utf-8" then Some data
  else if Str.eqb encoding "base64"
  then Some (base64 (String.list_ascii_of_string data))
  else None.

End Buffer.

(* ===================================================================== *)
(** * node:fs/promises over an in-memory tree *)
(* ===================================================================== *)

Module Fs.

(** A [Date], observed through the one method the server calls. *)
Record Date := { toISOString : string }.

Record meta := {
  m_mode : N;
  m_birthtime : Date;
  m_mtime : Date;
  m_atime : Date;
}.

(** The tree. [allowed] says whether the process may read and change the
    node: the content of a file, the entries of a directory. [Special] is a
    device, socket or pipe. The tree has no symbolic links. *)
#[warnings="-register-all"]
Inductive node :=
| File (allowed : bool) (m : meta) (data : string)
| Dir (allowed : bool) (m : meta) (entries : list (string * node))
| Special (m : meta).

(** The process: its working directory, the file tree, and the clock used
    to stamp what is created. *)
Record World := {
  cwd : string;
  root : node;
  now : Date;
}.

Definition with_root (w : World) (r : node) : World :=
  {| cwd := cwd w; root := r; now := now w |}.

Definition fresh_meta (w : World) (mode : N) : meta :=
  {| m_mode := mode; m_birthtime := now w; m_mtime := now w;
     m_atime := now w |}.

Definition node_meta (n : node) : meta :=
  match n with
  | File _ m _ | Dir _ m _ | Special m => m
  end.

Fixpoint assoc (name : string) (es : list (string * node)) : option node :=
  match es with
  | [] => None
  | (k, v) :: rest => if Str.eqb k name then Some v else assoc name rest
  end.

(** Replace the entry [name], or add it at the end. *)
Fixpoint set_entry (name : string) (c : node) (es : list (string * node))
  : list (string * node) :=
  match es with
  | [] => [(name, c)]
  | (k, v) :: rest =>
      if Str.eqb k name then (k, c) :: rest
      else (k, v) :: set_entry name c rest
  end.

Fixpoint del_entry (name : string) (es : list (string * node))
  : list (string * node) :=
  match es with
  | [] => []
  | (k, v) :: rest =>
      if Str.eqb k name then rest else (k, v) :: del_entry name rest
  end.

(** The node reached from [n] by the names [segs]. *)
Fixpoint get (n : node) (segs : list string) : option node :=
  match segs with
  | [] => Some n
  | s :: rest =>
      match n with
      | Dir _ _ es =>
          match assoc s es with
          | Some c => get c rest
          | None => None
          end
      | _ => None
      end
  end.

(** Path lookup as the kernel does it, one component at a time from the
    position [cur]: every component, the empty one a trailing separator
    leaves included, is looked up in a directory. *)
Fixpoint walk (r : node) (cur comps : list string) : errno + list string :=
  match comps with
  | [] => inr cur
  | c :: rest =>
      match get r cur with
      | Some (Dir _ _ _) =>
          if Str.eqb c "" || Str.eqb c "." then walk r cur rest
          else if Str.eqb c ".." then walk r (removelast cur) rest
          else
            match get r (cur ++ [c]) with
            | Some _ => walk r (cur ++ [c]) rest
            | None => inl ENOENT
            end
      | Some _ => inl ENOTDIR
      | None => inl ENOENT
      end
  end.

Definition start (w : World) (p : string) : list string :=
  if Path.isAbsolute p then [] else Path.segments (cwd w).

(** Where an existing path leads. *)
Definition namei (w : World) (p : string) : errno + list string :=
  if Str.eqb p "" then inl ENOENT
  else walk (root w) (start w p) (Str.split Str.slash p).

Definition locate (w : World) (p : string) : errno + node :=
  match namei w p with
  | inr segs =>
      match get (root w) segs with
      | Some n => inr n
      | None => inl ENOENT
      end
  | inl e => inl e
  end.

(** Where a path that may not exist yet would be: its parent is looked up,
    its last name is appended. *)
Definition target (w : World) (p : string) : errno + list string :=
  let comps := filter (fun c => c <> "") (Str.split Str.slash p) in
  match last comps with
  | None => if Str.eqb p "" then inl ENOENT else inr []
  | Some name =>
      match walk (root w) (start w p) (removelast comps) with
      | inr parent => inr (parent ++ [name])
      | inl e => inl e
      end
  end.

(** Change the entry at [segs] below [n]: [f] gets whether the parent may
    be changed and the current entry, and gives the new entry or none. *)
Fixpoint alter_at (n : node) (segs : list string)
    (f : bool -> option node -> errno + option node) : errno + node :=
  match segs with
  | [] => inl EINVAL
  | s :: rest =>
      match n with
      | Dir a m es =>
          match rest with
          | [] =>
              match f a (assoc s es) with
              | inl e => inl e
              | inr (Some c) => inr (Dir a m (set_entry s c es))
              | inr None => inr (Dir a m (del_entry s es))
              end
          | _ :: _ =>
              match assoc s es with
              | Some c =>
                  match alter_at c rest f with
                  | inr c' => inr (Dir a m (set_entry s c' es))
                  | inl e => inl e
                  end
              | None => inl ENOENT
              end
          end
      | _ => inl ENOTDIR
      end
  end.

(** [mkdir -p] below [n]. *)
Fixpoint mkdirp (n : node) (segs : list string) (fresh : meta)
  : errno + node :=
  match segs with
  | [] =>
      match n with
      | Dir _ _ _ => inr n
      | _ => inl EEXIST
      end
  | s :: rest =>
      match n with
      | Dir a m es =>
          match assoc s es with
          | Some c =>
              match mkdirp c rest fresh with
              | inr c' => inr (Dir a m (set_entry s c' es))
              | inl e => inl e
              end
          | None =>
              if a then
                match mkdirp (Dir true fresh []) rest fresh with
                | inr c' => inr (Dir a m (set_entry s c' es))
                | inl e => inl e
                end
              else inl EACCES
          end
      | _ => inl ENOTDIR
      end
  end.

(** ** What the calls return *)

Inductive kind := KFile | KDir | KSymlink | KOther.

Record Stats := {
  st_kind : kind;
  size : N;
  mode : N;
  birthtime : Date;
  mtime : Date;
  atime : Date;
}.

Definition isDirectory (st : Stats) : bool :=
  match st_kind st with KDir => true | _ => false end.
Definition isFile (st : Stats) : bool :=
  match st_kind st with KFile => true | _ => false end.
Definition isSymbolicLink (st : Stats) : bool :=
  match st_kind st with KSymlink => true | _ => false end.

Definition node_kind (n : node) : kind :=
  match n with
  | File _ _ _ => KFile
  | Dir _ _ _ => KDir
  | Special _ => KOther
  end.

(** The size of a directory is the block the file system reports for it. *)
Definition node_size (n : node) : N :=
  match n with
  | File _ _ data => N.of_nat (String.length data)
  | Dir _ _ _ => 4096
  | Special _ => 0
  end.

Definition stats_of (n : node) : Stats :=
  let m := node_meta n in
  {| st_kind := node_kind n; size := node_size n; mode := m_mode m;
     birthtime := m_birthtime m; mtime := m_mtime m; atime := m_atime m |}.

(** A [Dirent], as [readdir] gives with [withFileTypes]. *)
Record Dirent := { name : string; d_kind : kind }.
Definition dirent_isDirectory (d : Dirent) : bool :=
  match d_kind d with KDir => true | _ => false end.
Definition dirent_isFile (d : Dirent) : bool :=
  match d_kind d with KFile => true | _ => false end.

Definition fail {A} (c : errno) (call p : string) : outcome A :=
  Thrown (ErrnoException c call p).

(** ** The calls *)

(** [fs.stat(p)] *)
Definition stat (w : World) (p : string) : outcome Stats :=
  match locate w p with
  | inr n => Returned (stats_of n)
  | inl e => fail e "stat" p
  end.

(** [fs.access(p)] *)
Definition access (w : World) (p : string) : outcome unit :=
  match locate w p with
  | inr _ => Returned tt
  | inl e => fail e "access" p
  end.

(** The bytes [fs.readFile(p)] reads: the file is opened, then read. A
    directory can be opened and not read. *)
Definition read_node (n : errno + node) (p : string) : outcome string :=
  match n with
  | inr (File true _ data) => Returned data
  | inr (File false _ _) => fail EACCES "open" p
  | inr (Dir _ _ _) => Thrown (ErrnoCall EISDIR "read")
  | inr (Special _) => Thrown (ErrnoCall EINVAL "read")
  | inl e => fail e "open" p
  end.

Definition readBuffer (w : World) (p : string) : outcome string :=
  read_node (locate w p) p.

(** [fs.readFile(p, encoding)]: the encoding is checked before the file is
    opened. Only the encodings the server declares are modelled. *)
Definition readFile (w : World) (p : string) (encoding : value)
  : outcome string :=
  match encoding with
  | VString enc =>
      match Buffer.toString enc "" with
      | Some _ =>
          data <~ readBuffer w p ;;
          Returned (default "" (Buffer.toString enc data))
      | None =>
          Thrown (TypeError
            ("The argument 'encoding' is invalid. Received '" +:+ enc +:+ "'"))
      end
  | _ => Thrown (TypeError "The argument 'encoding' is invalid.")
  end.

(** The entries of the node a path leads to, in directory order. *)
Definition entries_of (n : errno + node) (p : string)
  : outcome (list (string * node)) :=
  match n with
  | inr (Dir true _ es) => Returned es
  | inr (Dir false _ _) => fail EACCES "scandir" p
  | inr _ => fail ENOTDIR "scandir" p
  | inl e => fail e "scandir" p
  end.

Definition dirent (e : string * node) : Dirent :=
  {| name := fst e; d_kind := node_kind (snd e) |}.

(** [fs.readdir(p, { withFileTypes: true })] *)
Definition readdir (w : World) (p : string) : outcome (list Dirent) :=
  es <~ entries_of (locate w p) p ;;
  Returned (map dirent es).

(** The names from the root of the directory [p] is, lexically. *)
Definition lexical (w : World) (p : string) : list string :=
  Path.segments (if Path.isAbsolute p then p else cwd w +:+ "/" +:+ p).

(** [fs.mkdir(p, { recursive: true })] *)
Definition mkdir_recursive (w : World) (p : string) : outcome World :=
  match mkdirp (root w) (lexical w p) (fresh_meta w 493) with
  | inr r => Returned (with_root w r)
  | inl e => fail e "mkdir" p
  end.

(** What [open] for writing does to the entry: an existing file must be
    writable, a new one needs a writable parent. [put] gives the new
    content from the old one. *)
Definition write_entry (w : World) (put : string -> string)
    (parent_ok : bool) (old : option node) : errno + option node :=
  match old with
  | Some (File true m data) => inr (Some (File true m (put data)))
  | Some (File false _ _) => inl EACCES
  | Some (Dir _ _ _) => inl EISDIR
  | Some (Special _) => inl EINVAL
  | None =>
      if parent_ok then inr (Some (File true (fresh_meta w 420) (put "")))
      else inl EACCES
  end.

Definition write_with (w : World) (p : string) (content : value)
    (put : string -> string -> string) : outcome World :=
  match content with
  | VString text =>
      match target w p with
      | inr segs =>
          match alter_at (root w) segs (write_entry w (put text)) with
          | inr r => Returned (with_root w r)
          | inl e => fail e "open" p
          end
      | inl e => fail e "open" p
      end
  | _ =>
      Thrown (TypeError
        "The 'data' argument must be of type string or a Buffer.")
  end.

(** [fs.writeFile(p, content, 'utf8')] *)
Definition writeFile (w : World) (p : string) (content : value)
  : outcome World :=
  write_with w p content (fun text _ => text).

(** [fs.appendFile(p, content, 'utf8')] *)
Definition appendFile (w : World) (p : string) (content : value)
  : outcome World :=
  write_with w p content (fun text old => old +:+ text).

Definition unlink_entry (parent_ok : bool) (old : option node)
  : errno + option node :=
  match old with
  | None => inl ENOENT
  | Some (Dir _ _ _) => inl EISDIR
  | Some _ => if parent_ok then inr None else inl EACCES
  end.

(** [fs.unlink(p)] *)
Definition unlink (w : World) (p : string) : outcome World :=
  match target w p with
  | inr segs =>
      match alter_at (root w) segs unlink_entry with
      | inr r => Returned (with_root w r)
      | inl e => fail e "unlink" p
      end
  | inl e => fail e "unlink" p
  end.

End Fs.

(** The server's functions are promises over the process. *)
Abbreviation IO := (Js.Promise Fs.World).

(* ===================================================================== *)
(** * Regular expressions *)
(* ===================================================================== *)

(** The expressions search_files builds are made of literal characters,
    escaped characters, [.*] and the quantifier [?]; this is the engine for
    that fragment. *)
Module RegExp.

Inductive atom :=
| Lit (c : ascii)
| AnyChar.

Inductive quant := One | Opt | Star.

Record t := {
  items : list (atom * quant);
  ignoreCase : bool;
}.

Definition nothing_to_repeat (source : string) : exn :=
  SyntaxError ("Invalid regular expression: /" +:+ source +:+
               "/: Nothing to repeat").

(** [pending] is 2 after an atom (a quantifier may follow), 1 after a
    quantifier (the lazy mark [?] may follow) and 0 otherwise. *)
Fixpoint parse (source s : string) (pending : nat)
    (acc : list (atom * quant)) : outcome (list (atom * quant)) :=
  match s with
  | EmptyString => Returned (reverse acc)
  | String c s' =>
      if bool_decide (c = Str.backslash) then
        match s' with
        | String d s'' => parse source s'' 2 ((Lit d, One) :: acc)
        | EmptyString =>
            Thrown (SyntaxError ("Invalid regular expression: /" +:+
                                 source +:+ "/: \ at end of pattern"))
        end
      else if bool_decide (c = "*"%char) then
        match pending, acc with
        | 2, (a, _) :: acc' => parse source s' 1 ((a, Star) :: acc')
        | _, _ => Thrown (nothing_to_repeat source)
        end
      else if bool_decide (c = "?"%char) then
        match pending, acc with
        | 2, (a, _) :: acc' => parse source s' 1 ((a, Opt) :: acc')
        | 1, _ => parse source s' 0 acc
        | _, _ => Thrown (nothing_to_repeat source)
        end
      else if bool_decide (c = Str.dot) then
        parse source s' 2 ((AnyChar, One) :: acc)
      else parse source s' 2 ((Lit c, One) :: acc)
  end.

(** [new RegExp(source, flags)] *)
Definition create (source flags : string) : outcome t :=
  its <~ parse source source 0 [] ;;
  Returned {| items := its; ignoreCase := Str.includes flags "i" |}.

Definition accepts (ic : bool) (a : atom) (c : ascii) : bool :=
  match a with
  | Lit d =>
      if ic then bool_decide (Str.lower_char c = Str.lower_char d)
      else bool_decide (c = d)
  | AnyChar => negb (bool_decide (c = Str.LF) || bool_decide (c = Str.CR))
  end.

(** Does a prefix of [s] match [its]? *)
Fixpoint match_here (ic : bool) (its : list (atom * quant))
    (s : list ascii) : bool :=
  match its with
  | [] => true
  | (a, One) :: r =>
      match s with
      | c :: s' => accepts ic a c && match_here ic r s'
      | [] => false
      end
  | (a, Opt) :: r =>
      match_here ic r s ||
      match s with
      | c :: s' => accepts ic a c && match_here ic r s'
      | [] => false
      end
  | (a, Star) :: r =>
      (fix star (s : list ascii) : bool :=
         match_here ic r s ||
         match s with
         | c :: s' => accepts ic a c && star s'
         | [] => false
         end) s
  end.

Fixpoint search (ic : bool) (its : list (atom * quant)) (s : list ascii)
  : bool :=
  match_here ic its s ||
  match s with
  | _ :: s' => search ic its s'
  | [] => false
  end.

(** [regex.test(s)] *)
Definition test (re : t) (s : string) : bool :=
  search (ignoreCase re) (items re) (String.list_ascii_of_string s).

End RegExp.

(* ===================================================================== *)
(** * tools.ts *)
(* ===================================================================== *)

Module Tools.
Import Fs.

Inductive jtype := TString | TNumber | TBoolean.

Record property := {
  p_type : jtype;
  p_enum : option (list string);
  p_description : string;
}.

Record InputSchema := {
  properties : list (string * property);
  required : list string;
}.

Record TextContent := { type : string; text : string }.

Record ToolResult := {
  content : list TextContent;
  isError : option bool;
}.

Record ToolDefinition := {
  name : string;
  description : string;
  inputSchema : InputSchema;
  handler : gmap string value -> IO ToolResult;
}.

(** ** Schema conformance *)

Definition has_type (p : property) (v : value) : bool :=
  match p_type p, v with
  | TString, VString s =>
      match p_enum p with
      | Some allowed => Str.mem s allowed
      | None => true
      end
  | TNumber, VNumber _ => true
  | TBoolean, VBool _ => true
  | _, _ => false
  end.

(** Every required key is present and every declared key that is present
    holds a value of its declared type. *)
Definition conforms (schema : InputSchema) (args : gmap string value)
  : bool :=
  forallb (fun k => bool_decide (is_Some (args !! k))) (required schema)
  && forallb (fun kp =>
                match args !! (fst kp) with
                | Some v => has_type (snd kp) v
                | None => true
                end) (properties schema).

(** ** Helpers *)

Definition ok (text : string) : ToolResult :=
  {| content := [{| type := "text"; text := text |}]; isError := None |}.

Definition err (message : string) : ToolResult :=
  {| content := [{| type := "text"; text := "ERROR: " +:+ message |}];
     isError := Some true |}.

Definition safePath (inputPath : value) : IO string :=
  Js.reading (fun w => Path.resolve (cwd w) [VString (cwd w); inputPath]).

Definition str (p : jtype) (d : string) : property :=
  {| p_type := p; p_enum := None; p_description := d |}.

(** ** read_file *)

Definition readFileTool : ToolDefinition := {|
  name := "read_file";
  description :=
    "Read the complete text content of a file at the given path. " +:+
    "Returns the raw text. Fails if the path does not exist or is a directory.";
  inputSchema := {|
    properties := [
      ("path", str TString "Absolute or relative path to the file.");
      ("encoding", {| p_type := TString;
                      p_enum := Some ["utf8"; "base64"];
                      p_description := "Encoding. Defaults to 'utf8'." |})];
    required := ["path"] |};
  handler := fun args =>
    filePath <- safePath (Js.prop args "path") ;;
    let encoding := Js.nullish (Js.prop args "encoding") (VString "utf8") in
    Js.tryCatch
      (stats <- Js.reading (fun w => stat w filePath) ;;
       if isDirectory stats then
         Js.ret (err ("'" +:+ filePath +:+
                      "' is a directory. Use list_directory instead."))
       else
         content <- Js.reading (fun w => readFile w filePath encoding) ;;
         let sizeKB := Num.toFixed_KB 2 (size stats) in
         Js.ret (ok ("File: " +:+ filePath +:+ Str.nl +:+
                     "Size: " +:+ sizeKB +:+ " KB" +:+ Str.nl +:+
                     "Encoding: " +:+ Js.show encoding +:+ Str.nl +:+
                     Str.nl +:+ "--- Content ---" +:+ Str.nl +:+ content)))
      (fun e => Js.ret (err ("Could not read file: " +:+ Js.message e)))
|}.

(** ** write_file *)

Definition writeFileTool : ToolDefinition := {|
  name := "write_file";
  description :=
    "Write (or overwrite) a file at the given path with the provided text content. " +:+
    "Creates parent directories if they do not exist. " +:+
    "Use with caution — existing content is replaced.";
  inputSchema := {|
    properties := [
      ("path", str TString "Absolute or relative path to the file to write.");
      ("content", str TString "Text content to write.");
      ("append", str TBoolean
         "If true, append instead of overwriting. Default false.")];
    required := ["path"; "content"] |};
  handler := fun args =>
    filePath <- safePath (Js.prop args "path") ;;
    let content := Js.prop args "content" in
    let append := Js.nullish (Js.prop args "append") (VBool false) in
    Js.tryCatch
      (Js.writing (fun w => mkdir_recursive w (Path.dirname filePath)) ;;;
       if Js.truthy append then
         Js.writing (fun w => appendFile w filePath content) ;;;
         len <- Js.pure (Js.show_length content) ;;
         Js.ret (ok ("Appended " +:+ len +:+ " characters to '" +:+
                     filePath +:+ "'."))
       else
         Js.writing (fun w => writeFile w filePath content) ;;;
         len <- Js.pure (Js.show_length content) ;;
         Js.ret (ok ("Wrote " +:+ len +:+ " characters to '" +:+
                     filePath +:+ "'.")))
      (fun e => Js.ret (err ("Could not write file: " +:+ Js.message e)))
|}.

(** ** list_directory *)

Definition scandir_error (n : node) (p : string) : exn :=
  match n with
  | Dir _ _ _ => ErrnoException EACCES "scandir" p
  | _ => ErrnoException ENOTDIR "scandir" p
  end.

(** [collectEntries] below a node: [readdir(currentDir)] gives the entries
    of the node at [currentDir], and [stat] of an entry just listed gives
    its own metadata. [lines] is the array the caller shares. *)
Fixpoint collect_node (baseDir currentDir : string) (n : node)
    (recursive : bool) (lines : list string) {struct n}
  : outcome (list string) :=
  match n with
  | Dir true _ es =>
      (fix loop (es : list (string * node)) (lines : list string)
         : outcome (list string) :=
         match es with
         | [] => Returned lines
         | (entry, child) :: rest =>
             let fullPath := Path.join [currentDir; entry] in
             let relativePath := Path.relative baseDir fullPath in
             match child with
             | Dir _ _ _ =>
                 let lines1 :=
                   lines ++ ["[DIR]  " +:+ relativePath +:+ "/"] in
                 if recursive then
                   lines2 <~ collect_node baseDir fullPath child recursive
                               lines1 ;;
                   loop rest lines2
                 else loop rest lines1
             | File _ _ _ =>
                 let st := stats_of child in
                 let sizeKB := Num.toFixed_KB 1 (size st) in
                 let modified :=
                   Str.slice 0 19
                     (Str.replaceFirst "T" " " (toISOString (mtime st))) in
                 loop rest
                   (lines ++ ["[FILE] " +:+ Str.padEnd 50 relativePath +:+
                              " " +:+ Str.padStart 8 sizeKB +:+ " KB  " +:+
                              modified])
             | Special _ => loop rest lines
             end
         end) es lines
  | _ => Thrown (scandir_error n currentDir)
  end.

Definition collectEntries (baseDir currentDir : string) (recursive : bool)
    (lines : list string) : IO (list string) :=
  Js.reading (fun w =>
    match locate w currentDir with
    | inr n => collect_node baseDir currentDir n recursive lines
    | inl e => fail e "scandir" currentDir
    end).

Definition listDirectoryTool : ToolDefinition := {|
  name := "list_directory";
  description :=
    "List the contents of a directory. Returns each entry with its type, size, " +:+
    "and last-modified date. Use recursive=true to list all nested files.";
  inputSchema := {|
    properties := [
      ("path", str TString "Absolute or relative path to the directory.");
      ("recursive", str TBoolean
         "If true, list all files recursively. Default false.")];
    required := ["path"] |};
  handler := fun args =>
    dirPath <- safePath (Js.prop args "path") ;;
    let recursive := Js.nullish (Js.prop args "recursive") (VBool false) in
    Js.tryCatch
      (stats <- Js.reading (fun w => stat w dirPath) ;;
       if negb (isDirectory stats) then
         Js.ret (err ("'" +:+ dirPath +:+
                      "' is not a directory. Use read_file to read files."))
       else
         lines <- collectEntries dirPath dirPath (Js.truthy recursive)
                    ["Directory: " +:+ dirPath +:+ Str.nl] ;;
         let lines' :=
           lines ++ [Str.nl +:+ "Total entries: " +:+
                     Num.show_nat (length lines - 1)] in
         Js.ret (ok (Str.join Str.nl lines')))
      (fun e =>
         Js.ret (err ("Could not list directory: " +:+ Js.message e)))
|}.

(** ** search_files *)

(** [pattern.replace(/[.+^${}()|[\]\\]/g, "\\$&")] *)
Definition special : list ascii :=
  String.list_ascii_of_string ".+^${}()|[]\".

Fixpoint escapeSpecials (s : string) : string :=
  match s with
  | EmptyString => EmptyString
  | String c s' =>
      if bool_decide (c ∈ special)
      then String Str.backslash (String c (escapeSpecials s'))
      else String c (escapeSpecials s')
  end.

(** [.replace(/\*/g, ".*")] *)
Fixpoint starToAny (s : string) : string :=
  match s with
  | EmptyString => EmptyString
  | String c s' =>
      if bool_decide (c = "*"%char) then ".*" +:+ starToAny s'
      else String c (starToAny s')
  end.

Definition ignoredDirs : list string :=
  ["node_modules"; ".git"; "dist"; ".cache"].

(** [walkAndMatch] below a node. [results] is the array shared with the
    callers: what has been pushed stays pushed. Only [readdir] can throw
    inside the [try], and it does so before anything is pushed. *)
Fixpoint walk_node (n : node) (dir : string) (regex : RegExp.t)
    (results : list string) (maxResults : value) {struct n}
  : outcome (list string) :=
  if Js.length_ge (length results) maxResults then Returned results
  else
    Js.otry
      (match n with
       | Dir true _ es =>
           (fix loop (es : list (string * node)) (results : list string)
              : outcome (list string) :=
              match es with
              | [] => Returned results
              | (entry, child) :: rest =>
                  if Js.length_ge (length results) maxResults
                  then Returned results
                  else
                    let fullPath := Path.join [dir; entry] in
                    match child with
                    | Dir _ _ _ =>
                        if Str.mem entry ignoredDirs then loop rest results
                        else
                          results' <~ walk_node child fullPath regex results
                                        maxResults ;;
                          loop rest results'
                    | File _ _ _ =>
                        if RegExp.test regex entry
                        then loop rest (results ++ [fullPath])
                        else loop rest results
                    | Special _ => loop rest results
                    end
              end) es results
       | _ => Thrown (scandir_error n dir)
       end)
      (fun _ => Returned results).

(** [walkAndMatch(dir, regex, results, maxResults)] *)
Definition walkAndMatch (dir : string) (regex : RegExp.t)
    (results : list string) (maxResults : value) : IO (list string) :=
  Js.reading (fun w =>
    match locate w dir with
    | inr n => walk_node n dir regex results maxResults
    | inl e =>
        if Js.length_ge (length results) maxResults then Returned results
        else Js.otry (fail e "scandir" dir) (fun _ => Returned results)
    end).

(** The [results] array of the handler once the walk is over. *)
Definition searchResults (searchDir : string) (pattern maxResults : value)
  : IO (list string) :=
  pat <- Js.pure (Js.receiver pattern "replace") ;;
  let regexStr := starToAny (escapeSpecials pat) in
  regex <- Js.pure (RegExp.create regexStr "i") ;;
  walkAndMatch searchDir regex [] maxResults.

Definition searchFilesTool : ToolDefinition := {|
  name := "search_files";
  description :=
    "Search for files whose names match a pattern (case-insensitive substring or glob-style " +:+
    "wildcard *). Walks a directory tree and returns all matching file paths.";
  inputSchema := {|
    properties := [
      ("directory", str TString "Root directory to search within.");
      ("pattern", str TString
         "Search pattern. Use * as a wildcard. E.g. '*.ts'.");
      ("maxResults", str TNumber "Maximum number of results. Default 50.")];
    required := ["directory"; "pattern"] |};
  handler := fun args =>
    searchDir <- safePath (Js.prop args "directory") ;;
    let pattern := Js.prop args "pattern" in
    let maxResults :=
      Js.nullish (Js.prop args "maxResults") (VNumber 50) in
    Js.tryCatch
      (results <- searchResults searchDir pattern maxResults ;;
       if (length results =? 0)%nat then
         Js.ret (ok ("No files matching '" +:+ Js.show pattern +:+
                     "' found in '" +:+ searchDir +:+ "'."))
       else
         let header :=
           "Found " +:+ Num.show_nat (length results) +:+
           " match(es) for '" +:+ Js.show pattern +:+ "' in '" +:+
           searchDir +:+ "':" +:+ Str.nl in
         Js.ret (ok (header +:+
                     Str.join Str.nl (map (fun r => "  " +:+ r) results))))
      (fun e => Js.ret (err ("Search failed: " +:+ Js.message e)))
|}.

(** ** get_file_info *)

Definition mimeMap : list (string * string) := [
  (".ts", "text/typescript"); (".tsx", "text/typescript");
  (".js", "text/javascript"); (".mjs", "text/javascript");
  (".json", "application/json"); (".md", "text/markdown");
  (".txt", "text/plain"); (".html", "text/html"); (".css", "text/css");
  (".png", "image/png"); (".jpg", "image/jpeg"); (".jpeg", "image/jpeg");
  (".gif", "image/gif"); (".svg", "image/svg+xml");
  (".pdf", "application/pdf"); (".zip", "application/zip");
  (".py", "text/x-python"); (".rs", "text/x-rust"); (".go", "text/x-go");
  (".sh", "text/x-shellscript"); (".yaml", "text/yaml");
  (".yml", "text/yaml"); (".toml", "text/toml"); (".csv", "text/csv")].

Fixpoint lookupMime (ext : string) (m : list (string * string))
  : option string :=
  match m with
  | [] => None
  | (k, v) :: rest => if Str.eqb k ext then Some v else lookupMime ext rest
  end.

Definition guessMime (filePath : string) : string :=
  let ext := Str.toLowerCase (Path.extname filePath) in
  default "application/octet-stream" (lookupMime ext mimeMap).

Definition getFileInfoTool : ToolDefinition := {|
  name := "get_file_info";
  description :=
    "Get detailed metadata about a file or directory: size, type, permissions, " +:+
    "creation time, last modified time, and MIME type guess.";
  inputSchema := {|
    properties := [
      ("path", str TString
         "Absolute or relative path to the file or directory.")];
    required := ["path"] |};
  handler := fun args =>
    filePath <- safePath (Js.prop args "path") ;;
    Js.tryCatch
      (stats <- Js.reading (fun w => stat w filePath) ;;
       let type :=
         if isDirectory stats then "directory"
         else if isSymbolicLink stats then "symlink"
         else "file" in
       let mime := guessMime filePath in
       let sizeBytes := size stats in
       let info := Str.join Str.nl [
         "Path:           " +:+ filePath;
         "Type:           " +:+ type;
         "MIME (guessed): " +:+ mime;
         "Size:           " +:+ Num.show sizeBytes +:+ " bytes  (" +:+
           Num.toFixed_KB 2 sizeBytes +:+ " KB)";
         "Created:        " +:+ toISOString (birthtime stats);
         "Modified:       " +:+ toISOString (mtime stats);
         "Accessed:       " +:+ toISOString (atime stats);
         "Permissions:    " +:+ Num.toString 8 (N.land (mode stats) 511) +:+
           " (octal)"] in
       Js.ret (ok info))
      (fun e => Js.ret (err ("Could not stat path: " +:+ Js.message e)))
|}.

(** ** delete_file *)

Definition deleteFileTool : ToolDefinition := {|
  name := "delete_file";
  description :=
    "Delete a file at the given path. This operation is IRREVERSIBLE. " +:+
    "Does not delete directories.";
  inputSchema := {|
    properties := [
      ("path", str TString
         "Absolute or relative path to the file to delete.")];
    required := ["path"] |};
  handler := fun args =>
    filePath <- safePath (Js.prop args "path") ;;
    Js.tryCatch
      (stats <- Js.reading (fun w => stat w filePath) ;;
       if isDirectory stats then
         Js.ret (err ("'" +:+ filePath +:+
                      "' is a directory. This tool only deletes files."))
       else
         Js.writing (fun w => unlink w filePath) ;;;
         Js.ret (ok ("Deleted file: '" +:+ filePath +:+ "'.")))
      (fun e => Js.ret (err ("Could not delete file: " +:+ Js.message e)))
|}.

Definition ALL_TOOLS : list ToolDefinition := [
  readFileTool;
  writeFileTool;
  listDirectoryTool;
  searchFilesTool;
  getFileInfoTool;
  deleteFileTool
].

End Tools.

(* ===================================================================== *)
(** * resources.ts *)
(* ===================================================================== *)

Module Resources.
Import Fs.

Record ResourceInfo := {
  uri : string;
  name : string;
  description : string;
  mimeType : string;
}.

Record ResourceContent := {
  c_uri : string;
  c_mimeType : string;
  text : option string;
  blob : option string;
}.

(** ** Static resource discovery *)

Record candidate := { file : string; mime : string; desc : string }.

Definition candidates : list candidate := [
  {| file := "README.md"; mime := "text/markdown";
     desc := "Project README" |};
  {| file := "package.json"; mime := "application/json";
     desc := "Node.js package manifest" |};
  {| file := "tsconfig.json"; mime := "application/json";
     desc := "TypeScript configuration" |};
  {| file := ".env"; mime := "text/plain";
     desc := "Environment variables" |}
].

(** The [for] loop over the candidates; [resources] is the array being
    filled. *)
Fixpoint probe (cwd : string) (cs : list candidate)
    (resources : list ResourceInfo) : IO (list ResourceInfo) :=
  match cs with
  | [] => Js.ret resources
  | c :: rest =>
      let fullPath := Path.join [cwd; file c] in
      resources' <-
        Js.tryCatch
          (Js.reading (fun w => access w fullPath) ;;;
           Js.ret (resources ++ [
             {| uri := "file://" +:+ fullPath;
                name := file c;
                description := desc c +:+ " — " +:+ fullPath;
                mimeType := mime c |}]))
          (fun _ => Js.ret resources) ;;
      probe cwd rest resources'
  end.

Definition workingDirectory (cwd : string) : ResourceInfo :=
  {| uri := "file://" +:+ cwd +:+ "/";
     name := "Working Directory";
     description := "Current working directory: " +:+ cwd;
     mimeType := "text/plain" |}.

Definition buildStaticResources : IO (list ResourceInfo) :=
  cwd <- Js.reading (fun w => Returned (Fs.cwd w)) ;;
  resources <- probe cwd candidates [] ;;
  Js.ret (resources ++ [workingDirectory cwd]).

(** ** Dynamic resource reader *)

Definition listingLine (entry : Dirent) : string :=
  let prefix := if dirent_isDirectory entry then "[DIR] " else "[FILE]" in
  prefix +:+ "  " +:+ Fs.name entry.

Definition listing (dirPath : string) (entries : list Dirent) : string :=
  Str.join Str.nl
    (("Directory listing: " +:+ dirPath +:+ Str.nl)
       :: map listingLine entries).

Definition buildDirectoryListing (dirPath : string) : IO string :=
  entries <- Js.reading (fun w => readdir w dirPath) ;;
  Js.ret (listing dirPath entries).

Definition textMimes : list string := [
  ".ts"; ".tsx"; ".js"; ".mjs"; ".json"; ".md"; ".txt";
  ".html"; ".css"; ".yaml"; ".yml"; ".toml"; ".csv";
  ".sh"; ".py"; ".rs"; ".go"; ".xml"; ".env"
].

Definition asText (uri text : string) : ResourceContent :=
  {| c_uri := uri; c_mimeType := "text/plain"; text := Some text;
     blob := None |}.

Definition asBlob (uri data : string) : ResourceContent :=
  {| c_uri := uri; c_mimeType := "application/octet-stream"; text := None;
     blob := Some data |}.

Definition readResource (uri : string) : IO ResourceContent :=
  if negb (Str.startsWith uri "file://") then
    Js.throw
      (Error "Unsupported URI scheme. Only 'file://' URIs are supported.")
  else
    let rawPath := Str.drop (String.length "file://") uri in
    if Str.endsWith rawPath "/" then
      let dirPath :=
        let d := Str.dropLast rawPath in
        if Str.eqb d "" then "/" else d in
      text <- buildDirectoryListing dirPath ;;
      Js.ret (asText uri text)
    else
      Js.tryCatch
        (stats <- Js.reading (fun w => stat w rawPath) ;;
         if isDirectory stats then
           text <- buildDirectoryListing rawPath ;;
           Js.ret (asText uri text)
         else
           let ext := Str.toLowerCase (Path.extname rawPath) in
           if Str.mem ext textMimes || (size stats <? 512 * 1024)%N then
             text <- Js.reading
                       (fun w => readFile w rawPath (VString "utf8")) ;;
             Js.ret (asText uri text)
           else
             buffer <- Js.reading (fun w => readBuffer w rawPath) ;;
             Js.ret (asBlob uri
                       (default "" (Buffer.toString "base64" buffer))))
        (fun e =>
           Js.throw (Error ("Cannot read resource '" +:+ uri +:+ "': " +:+
                            Js.message e))).

End Resources.

(* ===================================================================== *)
(** * prompts.ts *)
(* ===================================================================== *)

Module Prompts.
Import Fs.

Record PromptArgument := {
  a_name : string;
  a_description : string;
  required : bool;
}.

Inductive role := user | assistant.

Record PromptMessage := {
  m_role : role;
  content : Tools.TextContent;
}.

Record PromptDefinition := {
  name : string;
  description : string;
  arguments : list PromptArgument;
  generate : gmap string string -> IO (list PromptMessage);
}.

Definition userText (text : string) : list PromptMessage :=
  [{| m_role := user;
      content := {| Tools.type := "text"; Tools.text := text |} |}].

(** [path.resolve(process.cwd(), p)] *)
Definition resolveCwd (p : string) : IO string :=
  Js.reading (fun w => Path.resolve (cwd w) [VString (cwd w); VString p]).

Definition fence : string := "```".

(** ** review-file *)

Definition reviewFilePrompt : PromptDefinition := {|
  name := "review-file";
  description :=
    "Perform a detailed code review of a file. The model will analyse code quality, " +:+
    "structure, potential bugs, and suggest improvements.";
  arguments := [
    {| a_name := "path";
       a_description := "Path to the file you want reviewed.";
       required := true |};
    {| a_name := "focus";
       a_description :=
         "Optional focus: 'security', 'performance', 'readability', or 'all' (default).";
       required := false |}];
  generate := fun args =>
    filePath <- resolveCwd (default "" (args !! "path")) ;;
    let focus := default "all" (args !! "focus") in
    fileContent <-
      Js.tryCatch
        (Js.reading (fun w => readFile w filePath (VString "utf8")))
        (fun _ =>
           Js.ret "(Could not read file — it may not exist or is binary)") ;;
    let focusInstruction :=
      if Str.eqb focus "all"
      then "Cover: code quality, correctness, security, performance, and readability."
      else "Focus especially on **" +:+ focus +:+
           "** concerns, but note any critical issues in other areas too." in
    Js.ret (userText (
      "Please perform a thorough code review of the following file." +:+
      Str.nl +:+ Str.nl +:+
      "**File:** `" +:+ filePath +:+ "`" +:+ Str.nl +:+
      "**Review focus:** " +:+ focus +:+ Str.nl +:+ Str.nl +:+
      focusInstruction +:+ Str.nl +:+ Str.nl +:+
      "--- File Content ---" +:+ Str.nl +:+ fence +:+ Str.nl +:+
      fileContent +:+ Str.nl +:+ fence))
|}.

(** ** summarize-directory *)

Definition treeIgnored : list string :=
  ["node_modules"; ".git"; "dist"; ".cache"; "__pycache__"].

(** [buildTree] below a node. *)
Fixpoint tree_node (base dir : string) (n : node) (depth maxDepth : nat)
    {struct n} : outcome string :=
  if (maxDepth <? depth)%nat then Returned ""
  else
    let indent := Str.repeat "  " depth in
    match n with
    | Dir true _ es =>
        lines <~
          (fix loop (es : list (string * node)) (lines : list string)
             : outcome (list string) :=
             match es with
             | [] => Returned lines
             | (entry, child) :: rest =>
                 if Str.mem entry treeIgnored then loop rest lines
                 else
                   match child with
                   | Dir _ _ _ =>
                       let lines1 := lines ++ [indent +:+ entry +:+ "/"] in
                       sub <~ tree_node base (Path.join [dir; entry]) child
                                (depth + 1) maxDepth ;;
                       loop rest
                         (if Str.eqb sub "" then lines1
                          else lines1 ++ [sub])
                   | _ => loop rest (lines ++ [indent +:+ entry])
                   end
             end) es [] ;;
        Returned (Str.join Str.nl lines)
    | _ => Thrown (Tools.scandir_error n dir)
    end.

Definition buildTree (base dir : string) (depth maxDepth : nat)
  : IO string :=
  Js.reading (fun w =>
    if (maxDepth <? depth)%nat then Returned ""
    else
      match locate w dir with
      | inr n => tree_node base dir n depth maxDepth
      | inl e => fail e "scandir" dir
      end).

Definition summarizeDirectoryPrompt : PromptDefinition := {|
  name := "summarize-directory";
  description :=
    "Generate a high-level summary of a project directory — what it does, " +:+
    "how it's structured, and what each major file/folder is responsible for.";
  arguments := [
    {| a_name := "path";
       a_description := "Path to the directory to summarize.";
       required := true |}];
  generate := fun args =>
    dirPath <- resolveCwd (default "." (args !! "path")) ;;
    tree <-
      Js.tryCatch (buildTree dirPath dirPath 0 3)
        (fun _ => Js.ret "(Could not read directory)") ;;
    Js.ret (userText (
      "Please analyse the following project directory structure and provide:" +:+
      Str.nl +:+ Str.nl +:+
      "1. **Project purpose** — What does this project/folder do?" +:+ Str.nl +:+
      "2. **Architecture overview** — How is the code organised?" +:+ Str.nl +:+
      "3. **Key files/folders** — What does each important entry do?" +:+ Str.nl +:+
      "4. **Technology stack** — Languages, frameworks, tools used." +:+ Str.nl +:+
      "5. **Entry points** — Where does execution start?" +:+ Str.nl +:+ Str.nl +:+
      "**Directory:** `" +:+ dirPath +:+ "`" +:+ Str.nl +:+ Str.nl +:+
      "--- Directory Tree ---" +:+ Str.nl +:+ tree))
|}.

(** ** find-and-explain *)

Definition findIgnored : list string := ["node_modules"; ".git"; "dist"].

(** [findFirst] below a node; [None] is [null]. *)
Fixpoint find_node (dir filename : string) (n : node)
    (depth maxDepth : nat) {struct n} : outcome (option string) :=
  if (maxDepth <? depth)%nat then Returned None
  else
    match n with
    | Dir true _ es =>
        (fix loop (es : list (string * node)) : outcome (option string) :=
           match es with
           | [] => Returned None
           | (entry, child) :: rest =>
               let fullPath := Path.join [dir; entry] in
               match child with
               | File _ _ _ =>
                   if Str.eqb entry filename then Returned (Some fullPath)
                   else loop rest
               | Dir _ _ _ =>
                   if negb (Str.mem entry findIgnored) then
                     found <~ find_node fullPath filename child (depth + 1)
                                maxDepth ;;
                     match found with
                     | Some f =>
                         if Str.eqb f "" then loop rest
                         else Returned (Some f)
                     | None => loop rest
                     end
                   else loop rest
               | Special _ => loop rest
               end
           end) es
    | _ => Thrown (Tools.scandir_error n dir)
    end.

Definition findFirst (dir filename : string) (depth maxDepth : nat)
  : IO (option string) :=
  Js.reading (fun w =>
    if (maxDepth <? depth)%nat then Returned None
    else
      match locate w dir with
      | inr n => find_node dir filename n depth maxDepth
      | inl e => fail e "scandir" dir
      end).

Definition notFound : string := "(File not found)".

(** The [try] assigns [foundPath] and then [fileContent]; a failed read
    leaves the first assigned and the second at its initial value, which
    the inner handler expresses. *)
Definition findAndExplainPrompt : PromptDefinition := {|
  name := "find-and-explain";
  description :=
    "Find a file by name and ask the model to explain what it does in plain English. " +:+
    "Great for onboarding to an unfamiliar codebase.";
  arguments := [
    {| a_name := "filename";
       a_description := "The file name to look for (e.g. 'server.ts').";
       required := true |};
    {| a_name := "directory";
       a_description :=
         "Root directory to search. Defaults to current directory.";
       required := false |}];
  generate := fun args =>
    let filename := default "" (args !! "filename") in
    searchDir <- resolveCwd (default "." (args !! "directory")) ;;
    vars <-
      Js.tryCatch
        (foundPath <- findFirst searchDir filename 0 5 ;;
         match foundPath with
         | Some f =>
             if Str.eqb f "" then Js.ret (foundPath, notFound)
             else
               Js.tryCatch
                 (fileContent <-
                    Js.reading (fun w => readFile w f (VString "utf8")) ;;
                  Js.ret (foundPath, fileContent))
                 (fun _ => Js.ret (foundPath, notFound))
         | None => Js.ret (None, notFound)
         end)
        (fun _ => Js.ret (None, notFound)) ;;
    let '(foundPath, fileContent) := vars in
    Js.ret (userText (
      "I found the file `" +:+ default filename foundPath +:+ "`. " +:+
      "Please explain what it does in plain English:" +:+
      Str.nl +:+ Str.nl +:+
      "- What is its purpose?" +:+ Str.nl +:+
      "- What are the most important parts?" +:+ Str.nl +:+
      "- Are there any non-obvious patterns or tricks?" +:+
      Str.nl +:+ Str.nl +:+
      "--- File Content ---" +:+ Str.nl +:+ fence +:+ Str.nl +:+
      fileContent +:+ Str.nl +:+ fence))
|}.

Definition ALL_PROMPTS : list PromptDefinition := [
  reviewFilePrompt;
  summarizeDirectoryPrompt;
  findAndExplainPrompt
].

(** What a generator must do: return one user message, in the same world. *)
Definition generates (p : PromptDefinition) (args : gmap string string)
    (w : World) : Prop :=
  exists text, generate p args w = (Returned (userText text), w).

End Prompts.

(* ===================================================================== *)
(** * What counts as a domain failure of a tool *)
(* ===================================================================== *)

Module Failure.
Import Fs Tools.

(** [arg_path w args key p]: the argument [key] is a string that resolves
    to the absolute path [p]. *)
Definition arg_path (w : World) (args : gmap string value) (key p : string)
  : Prop :=
  exists s, args !! key = Some (VString s) /\
            Path.resolve (cwd w) [VString (cwd w); VString s] = Returned p.

(** The failures a handler looks for, for the tool of the given name called
    with [args] in the world [w]: a failing file system call it makes under
    its [try], the wrong kind of file where it checks the kind, and, for
    [search_files], a pattern that is no regular expression.  The walk of
    [search_files] has failures of its own ([readdir] on the root and below)
    which it swallows; they are not listed here. *)
Inductive domain_failure (w : World) (args : gmap string value)
  : string -> Prop :=
| read_stat_error p e :
    arg_path w args "path" p -> stat w p = Thrown e ->
    domain_failure w args "read_file"
| read_wrong_kind p st :
    arg_path w args "path" p -> stat w p = Returned st ->
    isDirectory st = true ->
    domain_failure w args "read_file"
| read_read_error p e :
    arg_path w args "path" p ->
    readFile w p (Js.nullish (Js.prop args "encoding") (VString "utf8"))
      = Thrown e ->
    domain_failure w args "read_file"
| write_mkdir_error p e :
    arg_path w args "path" p ->
    mkdir_recursive w (Path.dirname p) = Thrown e ->
    domain_failure w args "write_file"
| write_write_error p w1 e :
    arg_path w args "path" p ->
    mkdir_recursive w (Path.dirname p) = Returned w1 ->
    (if Js.truthy (Js.nullish (Js.prop args "append") (VBool false))
     then appendFile w1 p (Js.prop args "content")
     else writeFile w1 p (Js.prop args "content")) = Thrown e ->
    domain_failure w args "write_file"
| list_stat_error p e :
    arg_path w args "path" p -> stat w p = Thrown e ->
    domain_failure w args "list_directory"
| list_wrong_kind p st :
    arg_path w args "path" p -> stat w p = Returned st ->
    isDirectory st = false ->
    domain_failure w args "list_directory"
| list_readdir_error p e :
    arg_path w args "path" p ->
    fst (collectEntries p p
           (Js.truthy (Js.nullish (Js.prop args "recursive") (VBool false)))
           ["Directory: " +:+ p +:+ Str.nl] w) = Thrown e ->
    domain_failure w args "list_directory"
| search_pattern_error pat e :
    args !! "pattern" = Some (VString pat) ->
    RegExp.create (starToAny (escapeSpecials pat)) "i" = Thrown e ->
    domain_failure w args "search_files"
| info_stat_error p e :
    arg_path w args "path" p -> stat w p = Thrown e ->
    domain_failure w args "get_file_info"
| delete_stat_error p e :
    arg_path w args "path" p -> stat w p = Thrown e ->
    domain_failure w args "delete_file"
| delete_wrong_kind p st :
    arg_path w args "path" p -> stat w p = Returned st ->
    isDirectory st = true ->
    domain_failure w args "delete_file"
| delete_unlink_error p e :
    arg_path w args "path" p -> unlink w p = Thrown e ->
    domain_failure w args "delete_file".

(** An error result: flagged, with one text block that starts with
    [ERROR: ]. *)
Definition reports_error (r : ToolResult) : Prop :=
  isError r = Some true /\
  exists message,
    content r = [{| type := "text"; text := "ERROR: " +:+ message |}].

(** A handler that behaves: it returns, and reports the domain failures
    there are. *)
Definition handler_ok (t : ToolDefinition) (args : gmap string value)
    (w : World) : Prop :=
  exists r w', handler t args w = (Returned r, w') /\
               (domain_failure w args (name t) -> reports_error r).

End Failure.

(* ===================================================================== *)
(** * A sample process *)
(* ===================================================================== *)

(** A small project under [/srv], used to run the server on concrete
    inputs. *)
Module Sample.
Import Fs.

Definition day : Date := {| toISOString := "2024-05-06T07:08:09.000Z" |}.

Definition meta644 : meta :=
  {| m_mode := 33188; m_birthtime := day; m_mtime := day; m_atime := day |}.
Definition meta755 : meta :=
  {| m_mode := 16877; m_birthtime := day; m_mtime := day; m_atime := day |}.

Definition file (data : string) : node := File true meta644 data.
Definition dir (entries : list (string * node)) : node :=
  Dir true meta755 entries.

Definition project : node :=
  dir [
    ("README.md", file "# demo");
    ("package.json", file "{}");
    ("logo.png", file "PNG");
    ("secret.txt", File false meta644 "hidden");
    ("src", dir [("index.ts", file "export {}");
                 ("util.ts", file "export const x = 1")]);
    ("node_modules", dir [("dep.js", file "module.exports = 1")]);
    ("private", Dir false meta755 [])
  ].

Definition world : World :=
  {| cwd := "/srv"; root := dir [("srv", project)]; now := day |}.

End Sample.

(* ===================================================================== *)
(** * What a search may return *)
(* ===================================================================== *)

Module Search.

(** The path reached from [dir] by joining the names one after the other,
    as the walk does. *)
Definition descend (dir : string) (names : list string) : string :=
  foldl (fun d entry => Path.join [d; entry]) dir names.

(** [r] is a file met below [dir]: a file name that the expression accepts,
    at the end of a chain of subdirectories none of which has an ignored
    name. *)
Definition reached (dir : string) (regex : RegExp.t) (r : string) : Prop :=
  exists names entry,
    r = descend dir (names ++ [entry]) /\
    Forall (fun n => n ∉ Tools.ignoredDirs) names /\
    RegExp.test regex entry = true.

(** The walk took the array from [results] to [out]: it only pushed, what it
    pushed was reached below [dir], and it did not go beyond any length [k]
    at which the bound [max] stops the walk. *)
Definition extends (dir : string) (regex : RegExp.t) (max : value)
    (results out : list string) : Prop :=
  exists added,
    out = results ++ added /\
    Forall (reached dir regex) added /\
    forall k : nat,
      Js.length_ge k max = true -> length results <= k -> length out <= k.

(** The result of search_files for the array [results]. *)
Definition report (pattern searchDir : string) (results : list string)
  : Tools.ToolResult :=
  if (length results =? 0)%nat then
    Tools.ok ("No files matching '" +:+ pattern +:+ "' found in '" +:+
              searchDir +:+ "'.")
  else
    Tools.ok (("Found " +:+ Num.show_nat (length results) +:+
               " match(es) for '" +:+ pattern +:+ "' in '" +:+ searchDir +:+
               "':" +:+ Str.nl) +:+
              Str.join Str.nl (map (fun r => "  " +:+ r) results)).

End Search.

(* ===================================================================== *)
(** * The protocol core: capability registry *)
(* ===================================================================== *)

(** The registry is the server object of the protocol SDK that index.ts
    drives; its code is not part of the repository sources, so it is
    written here from section 4.2 of the specification. *)
Module Registry.

(** Modelled from the spec: the faults of the registry operations, which the
    server object of the SDK raises; [DuplicateNameError] for a tool or
    prompt name that exists, the duplicate static URI, and [NotFoundError]
    of resolveResource. *)
Inductive fault :=
| DuplicateNameError (name : string)
| DuplicateUriError (uri : string)
| NotFoundError (uri : string).

(** Modelled from the spec: ToolSpec of section 3, the argument of the
    SDK's registerTool: name, description, input schema and handler. *)
Record ToolSpec := {
  t_name : string;
  t_description : string;
  t_inputSchema : Tools.InputSchema;
  t_handler : gmap string value -> IO Tools.ToolResult;
}.

(** Modelled from the spec: the template variant of ResourceSpec of
    section 3, the SDK's ResourceTemplate: a URI pattern with its
    description and MIME type. *)
Record ResourceTemplate := {
  uriPattern : string;
  rt_description : string;
  rt_mimeType : string;
}.

(** Modelled from the spec: ResourceSpec of section 3, a static entry or a
    template, the two arguments the SDK's registerResource accepts. *)
Inductive ResourceSpec :=
| Static (r : Resources.ResourceInfo)
| Template (t : ResourceTemplate).

(** Modelled from the spec: PromptSpec of section 3, the argument of the
    SDK's registerPrompt. *)
Record PromptSpec := {
  p_name : string;
  p_description : string;
  p_arguments : list Prompts.PromptArgument;
  p_generate : gmap string string -> IO (list Prompts.PromptMessage);
}.

(** Modelled from the spec: the catalog the SDK's server object holds, each
    kind in registration order (section 4.2). *)
Record t := {
  tools : list ToolSpec;
  statics : list Resources.ResourceInfo;
  templates : list ResourceTemplate;
  prompts : list PromptSpec;
}.

(** Modelled from the spec: the registry of a server object of the SDK just
    constructed, with nothing registered. *)
Definition empty : t :=
  {| tools := []; statics := []; templates := []; prompts := [] |}.

(** Modelled from the spec: registerTool of section 4.2, the SDK's method,
    which fails with DuplicateNameError if a tool of that name exists. *)
Definition registerTool (spec : ToolSpec) (reg : t) : fault + t :=
  if bool_decide (t_name spec ∈ map t_name (tools reg))
  then inl (DuplicateNameError (t_name spec))
  else inr {| tools := tools reg ++ [spec]; statics := statics reg;
              templates := templates reg; prompts := prompts reg |}.

(** Modelled from the spec: registerResource of section 4.2, the SDK's
    method: both variants are accepted, a duplicate static URI fails. *)
Definition registerResource (spec : ResourceSpec) (reg : t) : fault + t :=
  match spec with
  | Static r =>
      if bool_decide (Resources.uri r ∈ map Resources.uri (statics reg))
      then inl (DuplicateUriError (Resources.uri r))
      else inr {| tools := tools reg; statics := statics reg ++ [r];
                  templates := templates reg; prompts := prompts reg |}
  | Template t =>
      inr {| tools := tools reg; statics := statics reg;
             templates := templates reg ++ [t]; prompts := prompts reg |}
  end.

(** Modelled from the spec: registerPrompt of section 4.2, the SDK's method,
    which fails with DuplicateNameError on a duplicate name. *)
Definition registerPrompt (spec : PromptSpec) (reg : t) : fault + t :=
  if bool_decide (p_name spec ∈ map p_name (prompts reg))
  then inl (DuplicateNameError (p_name spec))
  else inr {| tools := tools reg; statics := statics reg;
              templates := templates reg; prompts := prompts reg ++ [spec] |}.

(** Modelled from the spec: listTools of section 4.2, the declared specs in
    registration order (the SDK's answer to tools/list). *)
Definition listTools (reg : t) : list ToolSpec := tools reg.

(** Modelled from the spec: a run of registrations in which the first fault
    ends the run, as a throw of the SDK's method ends the startup code. *)
Fixpoint registerAll {A} (register : A -> t -> fault + t) (specs : list A)
    (reg : t) : fault + t :=
  match specs with
  | [] => inr reg
  | spec :: rest =>
      match register spec reg with
      | inr reg' => registerAll register rest reg'
      | inl f => inl f
      end
  end.

(** Modelled from the spec: the registries that registrations can produce
    from the empty one; section 4.2 gives no other way to change a
    registry. *)
Inductive reachable : t -> Prop :=
| reach_empty : reachable empty
| reach_tool spec reg reg' :
    reachable reg -> registerTool spec reg = inr reg' -> reachable reg'
| reach_resource spec reg reg' :
    reachable reg -> registerResource spec reg = inr reg' -> reachable reg'
| reach_prompt spec reg reg' :
    reachable reg -> registerPrompt spec reg = inr reg' -> reachable reg'.

(** Modelled from the spec: what resolveResource of section 4.2 answers, the
    static entry or the template with its pattern variables bound. *)
Inductive resolved :=
| ByStatic (r : Resources.ResourceInfo)
| ByTemplate (t : ResourceTemplate) (bindings : list (string * string)).

Section Resolution.

(** Modelled from the spec: how a URI pattern matches a concrete URI,
    binding the pattern variables (the SDK's UriTemplate); the specification
    leaves the pattern language open, so resolution is stated for any
    matcher. *)
Variable matchPattern : string -> string -> option (list (string * string)).

(** Modelled from the spec: the first-registered template whose pattern
    matches (section 4.2), which the SDK finds by scanning its templates. *)
Fixpoint firstTemplate (ts : list ResourceTemplate) (uri : string)
  : option resolved :=
  match ts with
  | [] => None
  | t :: rest =>
      match matchPattern (uriPattern t) uri with
      | Some bindings => Some (ByTemplate t bindings)
      | None => firstTemplate rest uri
      end
  end.

(** Modelled from the spec: resolveResource of section 4.2, the SDK's
    handling of resources/read: static exact match first, else the
    first-registered matching template, else NotFoundError. *)
Definition resolveResource (reg : t) (uri : string) : fault + resolved :=
  match list_find (fun r => Resources.uri r = uri) (statics reg) with
  | Some (_, r) => inr (ByStatic r)
  | None =>
      match firstTemplate (templates reg) uri with
      | Some r => inr r
      | None => inl (NotFoundError uri)
      end
  end.

End Resolution.

(** Modelled from the spec: pattern substitution for a pattern that is a
    literal prefix followed by one variable in braces, such as
    [file://{path}] of index.ts (the SDK's UriTemplate is richer): the URI
    must start with the prefix, and the variable is bound to the rest. *)
Definition matchPrefix (pattern uri : string)
  : option (list (string * string)) :=
  match Str.split "{" pattern with
  | [prefix; var] =>
      if Str.endsWith var "}" && Str.startsWith uri prefix
      then Some [(Str.dropLast var, Str.drop (String.length prefix) uri)]
      else None
  | _ => None
  end.

End Registry.

(* ===================================================================== *)
(** * index.ts *)
(* ===================================================================== *)

Module Index.
Import Registry.

Definition SERVER_NAME : string := "filesystem-mcp-server".
Definition SERVER_VERSION : string := "1.0.0".

(** Modelled from the spec: the states of a session (section 3). *)
Inductive SessionState := Unconnected | Negotiating | Ready | Closed.

(** Modelled from the spec: the server object of the SDK, reduced to its
    registry and the state of its session. *)
Record McpServer := {
  registry : Registry.t;
  session : SessionState;
}.

(** Modelled from the spec: the transition of section 4.4 taken when the
    transport attaches, the SDK's [server.connect]. *)
Definition connect (s : McpServer) : McpServer :=
  match session s with
  | Unconnected => {| registry := registry s; session := Negotiating |}
  | _ => s
  end.

(** Why the process stops before serving: a fault of a registration, or an
    exception of the startup code itself. *)
Inductive fatal :=
| Fault (f : Registry.fault)
| Uncaught (e : exn).

(** [ALL_TOOLS.find((t) => t.name === name)!] *)
Definition findTool (name : string) : option Tools.ToolDefinition :=
  snd <$> list_find (fun t => Tools.name t = name) Tools.ALL_TOOLS.

(** The second and third arguments of a [server.registerTool] call: the
    description and the handler are those of the tool found in ALL_TOOLS,
    the schema is the zod form of the same properties. Reading a property
    of a tool that is not found throws. *)
Definition toolSpec (name : string) : outcome Registry.ToolSpec :=
  match findTool name with
  | Some t =>
      Returned {| t_name := name;
                  t_description := Tools.description t;
                  t_inputSchema := Tools.inputSchema t;
                  t_handler := Tools.handler t |}
  | None =>
      Thrown (TypeError
        "Cannot read properties of undefined (reading 'description')")
  end.

(** The names of the [server.registerTool] calls, in source order. *)
Definition registeredToolNames : list string :=
  ["read_file"; "write_file"; "list_directory"; "search_files";
   "get_file_info"; "delete_file"].

Definition findPrompt (name : string) : option Prompts.PromptDefinition :=
  snd <$> list_find (fun p => Prompts.name p = name) Prompts.ALL_PROMPTS.

Definition promptSpec (name : string) : outcome Registry.PromptSpec :=
  match findPrompt name with
  | Some p =>
      Returned {| p_name := name;
                  p_description := Prompts.description p;
                  p_arguments := Prompts.arguments p;
                  p_generate := Prompts.generate p |}
  | None =>
      Thrown (TypeError
        "Cannot read properties of undefined (reading 'description')")
  end.

(** The names of the [server.registerPrompt] calls, in source order. *)
Definition registeredPromptNames : list string :=
  ["review-file"; "summarize-directory"; "find-and-explain"].

(** The template of the second [server.registerResource] call of [main]. *)
Definition fileTemplate : ResourceTemplate :=
  {| uriPattern := "file://{path}";
     rt_description :=
       "Read any file by its absolute path via a file:// URI.";
     rt_mimeType := "text/plain" |}.

(** The calls of one kind, made in order on the registry; the first that
    throws ends the startup. *)
Fixpoint registerEach {A} (spec : string -> outcome A)
    (register : A -> Registry.t -> fault + Registry.t)
    (names : list string) (reg : Registry.t) : fatal + Registry.t :=
  match names with
  | [] => inr reg
  | name :: rest =>
      match spec name with
      | Thrown e => inl (Uncaught e)
      | Returned s =>
          match register s reg with
          | inl f => inl (Fault f)
          | inr reg' => registerEach spec register rest reg'
          end
      end
  end.

(** The top level of the module: the tools, then the prompts. *)
Definition moduleLevel (toolNames promptNames : list string)
  : fatal + Registry.t :=
  match registerEach toolSpec registerTool toolNames Registry.empty with
  | inl f => inl f
  | inr reg => registerEach promptSpec registerPrompt promptNames reg
  end.

(** [main]: the static resources found at startup, then the template, then
    the transport is connected. What it throws ends the process. *)
Definition main (reg : Registry.t) (w : Fs.World)
  : (fatal + McpServer) * Fs.World :=
  match Resources.buildStaticResources w with
  | (Thrown e, w') => (inl (Uncaught e), w')
  | (Returned staticResources, w') =>
      match registerAll registerResource (map Static staticResources) reg
      with
      | inl f => (inl (Fault f), w')
      | inr reg1 =>
          match registerResource (Template fileTemplate) reg1 with
          | inl f => (inl (Fault f), w')
          | inr reg2 =>
              (inr (connect {| registry := reg2; session := Unconnected |}),
               w')
          end
      end
  end.

(** The start of a server whose module registers the given tool names and
    prompt names: [main] runs only if the module level did not throw. *)
Definition start (toolNames promptNames : list string) (w : Fs.World)
  : (fatal + McpServer) * Fs.World :=
  match moduleLevel toolNames promptNames with
  | inl f => (inl f, w)
  | inr reg => main reg w
  end.

(** The start of the server of index.ts. *)
Definition boot (w : Fs.World) : (fatal + McpServer) * Fs.World :=
  start registeredToolNames registeredPromptNames w.

End Index.

(* ===================================================================== *)
(** * The protocol core: messages and framing *)
(* ===================================================================== *)

(** The framing layer is the standard-stream transport of the SDK: one JSON
    text per line. Its code is not part of the repository sources; it is
    written here from sections 3, 4.1 and 6 of the specification and from
    the message shapes the architecture guide of the repository shows. *)
Module Json.

(** Modelled from the spec: the structured text of a message (section 4.1),
    JSON as the transport of the SDK writes it. Numbers are integers, which
    is what identifiers and error codes are. *)
#[warnings="-register-all"]
Inductive t :=
| Null
| Bool (b : bool)
| Num (z : Z)
| Str (s : string)
| Arr (items : list t)
| Obj (members : list (string * t)).

(** Modelled from the spec: the bytes of a text and the text of bytes, the
    two sides of the byte-oriented channel of section 4.1. *)
Definition bytes (s : string) : list ascii := String.list_ascii_of_string s.
Definition text (l : list ascii) : string := String.string_of_list_ascii l.

(** Modelled from the spec: a hexadecimal digit of a [\u] escape of the
    SDK's JSON text. *)
Definition hex (n : N) : ascii :=
  default "0"%char (String.get (N.to_nat n) "0123456789abcdef").

(** Modelled from the spec: the escape of one byte inside a JSON string, as
    JSON.stringify of the SDK's encoder writes it: the quote, the backslash
    and the control characters are escaped, so that no line break is ever
    written raw. *)
Definition escape (c : ascii) : list ascii :=
  let n := Ascii.N_of_ascii c in
  if bool_decide (c = Str.dquote) then [Str.backslash; Str.dquote]
  else if bool_decide (c = Str.backslash) then [Str.backslash; Str.backslash]
  else if (n =? 8)%N then [Str.backslash; "b"%char]
  else if (n =? 9)%N then [Str.backslash; "t"%char]
  else if (n =? 10)%N then [Str.backslash; "n"%char]
  else if (n =? 12)%N then [Str.backslash; "f"%char]
  else if (n =? 13)%N then [Str.backslash; "r"%char]
  else if (n <? 32)%N then
    [Str.backslash; "u"%char; "0"%char; "0"%char; hex (n / 16); hex (n mod 16)]
  else [c].

(** Modelled from the spec: a JSON string literal of the SDK's encoder. *)
Definition quote (s : string) : list ascii :=
  Str.dquote :: flat_map escape (bytes s) ++ [Str.dquote].

(** Modelled from the spec: an integer as the SDK's encoder writes a
    number. *)
Definition number (z : Z) : list ascii :=
  let digits :=
    bytes (DecimalString.NilEmpty.string_of_uint (N.to_uint (Z.abs_N z))) in
  if (z <? 0)%Z then "-"%char :: digits else digits.

(** Modelled from the spec: the exact encoding of a value (section 4.1),
    JSON.stringify of the SDK's encoder: no white space, members in
    order. *)
Fixpoint print (v : t) : list ascii :=
  match v with
  | Null => bytes "null"
  | Bool true => bytes "true"
  | Bool false => bytes "false"
  | Num z => number z
  | Str s => quote s
  | Arr items =>
      "["%char ::
      (fix elements (l : list t) : list ascii :=
         match l with
         | [] => []
         | [x] => print x
         | x :: rest => print x ++ ","%char :: elements rest
         end) items ++ ["]"%char]
  | Obj members =>
      "{"%char ::
      (fix fields (l : list (string * t)) : list ascii :=
         match l with
         | [] => []
         | [(k, x)] => quote k ++ ":"%char :: print x
         | (k, x) :: rest =>
             quote k ++ ":"%char :: print x ++ ","%char :: fields rest
         end) members ++ ["}"%char]
  end.

(** Modelled from the spec: the items of an array and the members of an
    object, as [print] writes them between the brackets. *)
Fixpoint elements (l : list t) : list ascii :=
  match l with
  | [] => []
  | [x] => print x
  | x :: rest => print x ++ ","%char :: elements rest
  end.

Fixpoint fields (l : list (string * t)) : list ascii :=
  match l with
  | [] => []
  | [(k, x)] => quote k ++ ":"%char :: print x
  | (k, x) :: rest =>
      quote k ++ ":"%char :: print x ++ ","%char :: fields rest
  end.

(** Modelled from the spec: JSON.stringify of the SDK's encoder. *)
Definition stringify (v : t) : string := text (print v).

(** ** Reading *)

(** Modelled from the spec: the value of a hexadecimal digit read by the
    SDK's decoder. *)
Definition unhex (c : ascii) : option N :=
  let n := Ascii.N_of_ascii c in
  if (48 <=? n)%N && (n <=? 57)%N then Some (n - 48)%N
  else if (97 <=? n)%N && (n <=? 102)%N then Some (n - 87)%N
  else if (65 <=? n)%N && (n <=? 70)%N then Some (n - 55)%N
  else None.

(** Modelled from the spec: the UTF-8 bytes of a code point of the basic
    plane given by a [\u] escape; surrogates are refused. *)
Definition utf8 (cp : N) : option (list ascii) :=
  let b (n : N) := Ascii.ascii_of_N n in
  if (cp <? 128)%N then Some [b cp]
  else if (cp <? 2048)%N then
    Some [b (192 + cp / 64)%N; b (128 + cp mod 64)%N]
  else if (55296 <=? cp)%N && (cp <=? 57343)%N then None
  else Some [b (224 + cp / 4096)%N; b (128 + (cp / 64) mod 64)%N;
             b (128 + cp mod 64)%N].

(** Modelled from the spec: the decoder of a JSON string, after its opening
    quote; [acc] holds the bytes read, last first. A raw control character
    is a decode failure. *)
Fixpoint read_string (s acc : list ascii) : option (string * list ascii) :=
  match s with
  | [] => None
  | c :: r =>
      if bool_decide (c = Str.dquote) then Some (text (reverse acc), r)
      else if bool_decide (c = Str.backslash) then
        match r with
        | [] => None
        | e :: r1 =>
            if bool_decide (e = "u"%char) then
              match r1 with
              | h1 :: h2 :: h3 :: h4 :: r2 =>
                  match unhex h1, unhex h2, unhex h3, unhex h4 with
                  | Some a, Some b, Some c', Some d =>
                      match utf8 (((a * 16 + b) * 16 + c') * 16 + d)%N with
                      | Some bs => read_string r2 (reverse bs ++ acc)
                      | None => None
                      end
                  | _, _, _, _ => None
                  end
              | _ => None
              end
            else
              let simple (x : ascii) := read_string r1 (x :: acc) in
              if bool_decide (e = Str.dquote) then simple Str.dquote
              else if bool_decide (e = Str.backslash) then simple Str.backslash
              else if bool_decide (e = "/"%char) then simple "/"%char
              else if bool_decide (e = "b"%char) then simple (Str.chr 8)
              else if bool_decide (e = "f"%char) then simple (Str.chr 12)
              else if bool_decide (e = "n"%char) then simple (Str.chr 10)
              else if bool_decide (e = "r"%char) then simple (Str.chr 13)
              else if bool_decide (e = "t"%char) then simple (Str.chr 9)
              else None
        end
      else if (Ascii.N_of_ascii c <? 32)%N then None
      else read_string r (c :: acc)
  end.

(** Modelled from the spec: the decimal digits of the SDK's decoder. *)
Definition is_digit (c : ascii) : bool :=
  let n := Ascii.N_of_ascii c in (48 <=? n)%N && (n <=? 57)%N.

(** Modelled from the spec: the longest prefix of digits, which the SDK's
    decoder takes for a number, and what follows it. *)
Fixpoint span_digits (s : list ascii) : list ascii * list ascii :=
  match s with
  | c :: r =>
      if is_digit c then
        let '(ds, rest) := span_digits r in (c :: ds, rest)
      else ([], s)
  | [] => ([], [])
  end.

(** Modelled from the spec: the decoder of an unsigned integer. *)
Definition read_natural (s : list ascii) : option (N * list ascii) :=
  let '(ds, rest) := span_digits s in
  match ds with
  | [] => None
  | _ =>
      match DecimalString.NilEmpty.uint_of_string (text ds) with
      | Some u => Some (N.of_uint u, rest)
      | None => None
      end
  end.

(** Modelled from the spec: the decoder of a value (section 4.1), a JSON
    parser for the texts of the encoder: no white space is skipped. [fuel]
    bounds the nesting and the number of items; the length of the text is
    enough. *)
Fixpoint read (fuel : nat) (s : list ascii) {struct fuel}
  : option (t * list ascii) :=
  match fuel with
  | O => None
  | S f =>
      match s with
      | [] => None
      | c :: r =>
          if bool_decide (c = Str.dquote) then
            match read_string r [] with
            | Some (str, r') => Some (Str str, r')
            | None => None
            end
          else if bool_decide (c = "["%char) then
            if Str.startsWith (text r) "]" then Some (Arr [], drop 1 r)
            else
              match read_items f r with
              | Some (items, r') => Some (Arr items, r')
              | None => None
              end
          else if bool_decide (c = "{"%char) then
            if Str.startsWith (text r) "}" then Some (Obj [], drop 1 r)
            else
              match read_members f r with
              | Some (members, r') => Some (Obj members, r')
              | None => None
              end
          else if bool_decide (c = "-"%char) then
            match read_natural r with
            | Some (n, r') => Some (Num (- Z.of_N n), r')
            | None => None
            end
          else if is_digit c then
            match read_natural s with
            | Some (n, r') => Some (Num (Z.of_N n), r')
            | None => None
            end
          else if Str.startsWith (text s) "null"
          then Some (Null, drop 4 s)
          else if Str.startsWith (text s) "true"
          then Some (Bool true, drop 4 s)
          else if Str.startsWith (text s) "false"
          then Some (Bool false, drop 5 s)
          else None
      end
  end
with read_items (fuel : nat) (s : list ascii) {struct fuel}
  : option (list t * list ascii) :=
  match fuel with
  | O => None
  | S f =>
      match read f s with
      | Some (x, c :: r) =>
          if bool_decide (c = ","%char) then
            match read_items f r with
            | Some (xs, r') => Some (x :: xs, r')
            | None => None
            end
          else if bool_decide (c = "]"%char) then Some ([x], r)
          else None
      | _ => None
      end
  end
with read_members (fuel : nat) (s : list ascii) {struct fuel}
  : option (list (string * t) * list ascii) :=
  match fuel with
  | O => None
  | S f =>
      match s with
      | q :: r0 =>
          if bool_decide (q = Str.dquote) then
            match read_string r0 [] with
            | Some (k, c0 :: r1) =>
                if bool_decide (c0 = ":"%char) then
                  match read f r1 with
                  | Some (x, c :: r) =>
                      if bool_decide (c = ","%char) then
                        match read_members f r with
                        | Some (xs, r') => Some ((k, x) :: xs, r')
                        | None => None
                        end
                      else if bool_decide (c = "}"%char)
                      then Some ([(k, x)], r)
                      else None
                  | _ => None
                  end
                else None
            | _ => None
            end
          else None
      | [] => None
      end
  end.

(** Modelled from the spec: JSON.parse of the SDK's decoder: one value and
    nothing after it. *)
Definition parse (s : string) : option t :=
  match read (S (String.length s)) (bytes s) with
  | Some (v, []) => Some v
  | _ => None
  end.

(** Modelled from the spec: the member of an object of the given name, as
    the SDK's decoder looks a field up. *)
Fixpoint member (key : string) (members : list (string * t)) : option t :=
  match members with
  | [] => None
  | (k, v) :: rest => if Str.eqb k key then Some v else member key rest
  end.

(** What may follow a value in a text: not a digit, which would be read as
    part of a number. *)
Definition delimited (rest : list ascii) : Prop :=
  match rest with
  | c :: _ => is_digit c = false
  | [] => True
  end.

(** What reading back a printed value means: with enough fuel, the value
    and what followed it. *)
Definition reads (v : t) : Prop :=
  forall rest fuel,
    delimited rest -> length (print v) <= fuel ->
    read fuel (print v ++ rest) = Some (v, rest).

(** No raw line break. *)
Definition inline (l : list ascii) : Prop := Forall (fun c => c <> Str.LF) l.

End Json.

Module Framing.

(** Modelled from the spec: the id of a message (section 3), opaque, a
    string or an integer; the SDK's RequestId. *)
Inductive id :=
| IdNumber (n : Z)
| IdString (s : string).

(** Modelled from the spec: the error of a response (section 6), a numeric
    class and a free-text message, with the optional data the architecture
    guide shows; the SDK's JSONRPCError. *)
Record RpcError := {
  code : Z;
  message : string;
  data : option Json.t;
}.

(** Modelled from the spec: what a response carries (section 4.3): a result
    or an error, never both. *)
Inductive payload :=
| Result (value : Json.t)
| Failed (error : RpcError).

(** Modelled from the spec: Message of section 3, the SDK's
    JSONRPCMessage. *)
Inductive Message :=
| Request (i : id) (method : string) (params : option Json.t)
| Response (i : id) (p : payload)
| Notification (method : string) (params : option Json.t).

(** Modelled from the spec: the shapes of section 6 as the architecture
    guide writes them, which the SDK's encoder produces. *)
Definition id_json (i : id) : Json.t :=
  match i with
  | IdNumber n => Json.Num n
  | IdString s => Json.Str s
  end.

(** Modelled from the spec: the optional params member (section 6) of the
    SDK's encoder. *)
Definition with_params (params : option Json.t)
  : list (string * Json.t) :=
  match params with
  | Some p => [("params", p)]
  | None => []
  end.

(** Modelled from the spec: the error object (section 6) of the SDK's
    encoder: code, message and the optional data. *)
Definition error_json (e : RpcError) : Json.t :=
  Json.Obj ([("code", Json.Num (code e)); ("message", Json.Str (message e))]
            ++ match data e with
               | Some d => [("data", d)]
               | None => []
               end).

(** Modelled from the spec: the JSON object of a message, with the members
    of section 6 and the version tag of the architecture guide, as the
    SDK's encoder writes it. *)
Definition to_json (m : Message) : Json.t :=
  match m with
  | Request i method params =>
      Json.Obj ([("jsonrpc", Json.Str "2.0"); ("id", id_json i);
                 ("method", Json.Str method)] ++ with_params params)
  | Response i (Result value) =>
      Json.Obj [("jsonrpc", Json.Str "2.0"); ("id", id_json i);
                ("result", value)]
  | Response i (Failed e) =>
      Json.Obj [("jsonrpc", Json.Str "2.0"); ("id", id_json i);
                ("error", error_json e)]
  | Notification method params =>
      Json.Obj ([("jsonrpc", Json.Str "2.0");
                 ("method", Json.Str method)] ++ with_params params)
  end.

(** Modelled from the spec: the id the SDK's decoder accepts, a string or
    an integer (section 3). *)
Definition json_id (v : Json.t) : option id :=
  match v with
  | Json.Num n => Some (IdNumber n)
  | Json.Str s => Some (IdString s)
  | _ => None
  end.

(** Modelled from the spec: the error object the SDK's decoder accepts: a
    numeric code and a text message (section 6). *)
Definition json_error (v : Json.t) : option RpcError :=
  match v with
  | Json.Obj members =>
      match Json.member "code" members, Json.member "message" members with
      | Some (Json.Num c), Some (Json.Str m) =>
          Some {| code := c; message := m;
                  data := Json.member "data" members |}
      | _, _ => None
      end
  | _ => None
  end.

(** Modelled from the spec: the message a decoded object is (sections 3 and
    6), the check the SDK's decoder makes: the version tag, then a request
    (id and method), a notification (method, no id) or a response (id with
    a result or an error, not both); anything else is no message. *)
Definition of_json (v : Json.t) : option Message :=
  match v with
  | Json.Obj members =>
      match Json.member "jsonrpc" members with
      | Some (Json.Str version) =>
          if negb (Str.eqb version "2.0") then None
          else
            match Json.member "method" members, Json.member "id" members
            with
            | Some (Json.Str method), Some i =>
                i' ← json_id i;
                Some (Request i' method (Json.member "params" members))
            | Some (Json.Str method), None =>
                Some (Notification method (Json.member "params" members))
            | Some _, _ => None
            | None, Some i =>
                i' ← json_id i;
                match Json.member "result" members,
                      Json.member "error" members with
                | Some value, None => Some (Response i' (Result value))
                | None, Some e =>
                    e' ← json_error e; Some (Response i' (Failed e'))
                | _, _ => None
                end
            | None, None => None
            end
      | _ => None
      end
  | _ => None
  end.

(** Modelled from the spec: the exact byte encoding of a message
    (section 4.1) on the standard-stream channel, one structured-text record
    ended by a line break; the SDK's serializeMessage. *)
Definition serializeMessage (m : Message) : list ascii :=
  Json.print (to_json m) ++ [Str.LF].

(** Modelled from the spec: the delimiter of the line-oriented transport
    (section 4.1), as the SDK's ReadBuffer finds it: the bytes before the
    first line break, and those after it. *)
Fixpoint cutLine (buffer : list ascii) : option (list ascii * list ascii) :=
  match buffer with
  | [] => None
  | c :: rest =>
      if bool_decide (c = Str.LF) then Some ([], rest)
      else
        match cutLine rest with
        | Some (line, rest') => Some (c :: line, rest')
        | None => None
        end
  end.

(** Modelled from the spec: a carriage return before the line break belongs
    to the line break, as in the SDK's ReadBuffer. *)
Definition stripCR (line : list ascii) : list ascii :=
  match reverse line with
  | c :: r => if bool_decide (c = Str.CR) then reverse r else line
  | [] => line
  end.

(** Modelled from the spec: what the framing layer hands to the layer above
    (section 4.1): a parsed message, or the distinct framing-error
    condition for a line that does not decode. *)
Inductive frame :=
| Parsed (m : Message)
| FramingError (line : string).

(** Modelled from the spec: the decoding of the next frame of an ordered
    byte stream (section 4.1), the SDK's ReadBuffer.readMessage: nothing
    while the line is not complete, else the frame and the bytes that
    follow it; one malformed line is reported and the stream goes on. *)
Definition readMessage (buffer : list ascii)
  : option (frame * list ascii) :=
  match cutLine buffer with
  | None => None
  | Some (line, rest) =>
      let line' := Json.text (stripCR line) in
      match Json.parse line' ≫= of_json with
      | Some m => Some (Parsed m, rest)
      | None => Some (FramingError line', rest)
      end
  end.

End Framing.

(* ===================================================================== *)
(** * Notions used to state further properties *)
(* ===================================================================== *)

Module Abs.

(** A name an entry of a directory can bear: not empty, not [.] or [..],
    and without a separator. *)
Definition no_slash (c : string) : bool :=
  forallb (fun x => negb (bool_decide (x = Str.slash))) (Path.chars c).

Definition name_ok (c : string) : bool :=
  negb (Str.eqb c "") && negb (Str.eqb c ".") && negb (Str.eqb c "..")
  && no_slash c.

(** The absolute normalised path of the names [segs] from the root. *)
Definition path_of (segs : list string) : string :=
  "/" +:+ Str.join "/" segs.

End Abs.

Module Tree.
Import Fs.

(** Every directory of the tree holds each name once, as the directories of
    a file system do. *)
Fixpoint unique_names (n : node) : bool :=
  match n with
  | Dir _ _ es =>
      bool_decide (NoDup (map fst es)) &&
      (fix all (es : list (string * node)) : bool :=
         match es with
         | [] => true
         | (_, c) :: rest => unique_names c && all rest
         end) es
  | _ => true
  end.

(** The files the walk of search_files is to find below the node at [dir]:
    a file of a readable directory whose name the expression accepts, or
    such a file below a subdirectory whose name is not ignored. *)
Inductive findable (regex : RegExp.t) : node -> string -> string -> Prop :=
| findable_file m es entry a' m' data dir :
    (entry, File a' m' data) ∈ es ->
    RegExp.test regex entry = true ->
    findable regex (Dir true m es) dir (Path.join [dir; entry])
| findable_below m es entry a' m' es' dir r :
    (entry, Dir a' m' es') ∈ es ->
    entry ∉ Tools.ignoredDirs ->
    findable regex (Dir a' m' es') (Path.join [dir; entry]) r ->
    findable regex (Dir true m es) dir r.

(** A walk that reads every directory it enters is stopped by the node
    within [k] levels: the node is no readable directory, or it is one and
    holds, under a name that is not ignored, a directory that stops the walk
    within [k - 1] levels. *)
Inductive blocked (ignored : list string) : nat -> node -> Prop :=
| blocked_here k n :
    (forall m es, n <> Dir true m es) -> blocked ignored k n
| blocked_below k m es entry a' m' es' :
    (entry, Dir a' m' es') ∈ es ->
    entry ∉ ignored ->
    blocked ignored k (Dir a' m' es') ->
    blocked ignored (S k) (Dir true m es).

(** The names [names] lead from the node down to a file, through readable
    directories. *)
Inductive holds_file : node -> list string -> Prop :=
| holds_here m es name a' m' data :
    (name, File a' m' data) ∈ es -> holds_file (Dir true m es) [name]
| holds_below m es name child rest :
    (name, child) ∈ es -> holds_file child rest ->
    holds_file (Dir true m es) (name :: rest).


End Tree.

Module Glob.

(** What the expression search_files builds from a pattern without [?]
    consists of: [.*] for a star, the character itself for any other. *)
Fixpoint items_of (pattern : string) : list (RegExp.atom * RegExp.quant) :=
  match pattern with
  | EmptyString => []
  | String c rest =>
      (if bool_decide (c = "*"%char) then (RegExp.AnyChar, RegExp.Star)
       else (RegExp.Lit c, RegExp.One)) :: items_of rest
  end.

End Glob.

Module Static.
Import Fs Resources.

(** The entry [buildStaticResources] pushes for a candidate it can
    access. *)
Definition entry (cwd : string) (c : candidate) : ResourceInfo :=
  let fullPath := Path.join [cwd; file c] in
  {| uri := "file://" +:+ fullPath;
     name := file c;
     description := desc c +:+ " — " +:+ fullPath;
     mimeType := mime c |}.

(** Whether [fs.access] of the candidate in the working directory
    succeeds. *)
Definition present (w : World) (c : candidate) : bool :=
  match access w (Path.join [cwd w; file c]) with
  | Returned _ => true
  | Thrown _ => false
  end.

End Static.

Module Template.

(** The text of the summarize-directory prompt for a directory and the
    tree printed for it. *)
Definition summary (dirPath tree : string) : string :=
  "Please analyse the following project directory structure and provide:" +:+
  Str.nl +:+ Str.nl +:+
  "1. **Project purpose** — What does this project/folder do?" +:+ Str.nl +:+
  "2. **Architecture overview** — How is the code organised?" +:+ Str.nl +:+
  "3. **Key files/folders** — What does each important entry do?" +:+ Str.nl +:+
  "4. **Technology stack** — Languages, frameworks, tools used." +:+ Str.nl +:+
  "5. **Entry points** — Where does execution start?" +:+ Str.nl +:+ Str.nl +:+
  "**Directory:** `" +:+ dirPath +:+ "`" +:+ Str.nl +:+ Str.nl +:+
  "--- Directory Tree ---" +:+ Str.nl +:+ tree.

End Template.

(* ===================================================================== *)
(** * Facts about the building blocks *)
(* ===================================================================== *)

Module JsFacts.
Import Js.

Lemma bind_returned {S A B} (m : Promise S A) (k : A -> Promise S B) s a s' :
  m s = (Returned a, s') -> bind m k s = k a s'.
Proof. intros H. unfold bind. by rewrite H. Qed.

Lemma bind_thrown {S A B} (m : Promise S A) (k : A -> Promise S B) s e s' :
  m s = (Thrown e, s') -> bind m k s = (Thrown e, s').
Proof. intros H. unfold bind. by rewrite H. Qed.

Lemma tryCatch_returned {S A} (m : Promise S A) h s a s' :
  m s = (Returned a, s') -> tryCatch m h s = (Returned a, s').
Proof. intros H. unfold tryCatch. by rewrite H. Qed.

Lemma tryCatch_thrown {S A} (m : Promise S A) h s e s' :
  m s = (Thrown e, s') -> tryCatch m h s = h e s'.
Proof. intros H. unfold tryCatch. by rewrite H. Qed.

(** A [try] whose handler returns cannot throw. *)
Lemma tryCatch_total {S A} (m : Promise S A) (f : exn -> A) s :
  exists a s', tryCatch m (fun e => ret (f e)) s = (Returned a, s').
Proof.
  unfold tryCatch, ret. destruct (m s) as [[a|e] s']; eauto.
Qed.

End JsFacts.

Module PathFacts.
Import Path.

Lemma resolve_go_strings (ps : list string) cwd acc :
  exists r, resolve_go (map VString ps) cwd acc = Returned r.
Proof.
  revert acc. induction ps as [|p ps IH]; intros acc; simpl; [eauto|].
  destruct (Str.eqb p ""); [apply IH|].
  destruct (isAbsolute p); [eauto | apply IH].
Qed.

(** Resolving strings never throws. *)
Lemma resolve_strings cwd (a b : string) :
  exists p, resolve cwd [VString a; VString b] = Returned p.
Proof.
  unfold resolve.
  destruct (resolve_go_strings [b; a] cwd "") as [[r abs] Hr].
  change (reverse [VString a; VString b]) with (map VString [b; a]).
  rewrite Hr. simpl. eauto.
Qed.

End PathFacts.

Module ToolFacts.
Import Fs Tools Failure.

Lemma conforms_required schema args k :
  conforms schema args = true -> k ∈ required schema -> is_Some (args !! k).
Proof.
  unfold conforms. intros H Hk. apply andb_prop in H as [H _].
  rewrite forallb_forall in H.
  apply list_elem_of_In in Hk. apply H in Hk. by apply bool_decide_eq_true in Hk.
Qed.

Lemma conforms_property schema args k p v :
  conforms schema args = true -> (k, p) ∈ properties schema ->
  args !! k = Some v -> has_type p v = true.
Proof.
  unfold conforms. intros H Hk Hv. apply andb_prop in H as [_ H].
  rewrite forallb_forall in H.
  apply list_elem_of_In in Hk. apply H in Hk. simpl in Hk. by rewrite Hv in Hk.
Qed.

(** A required string argument is there and is a string. *)
Lemma conforms_string schema args k p :
  conforms schema args = true -> k ∈ required schema ->
  (k, p) ∈ properties schema -> p_type p = TString ->
  exists s, args !! k = Some (VString s).
Proof.
  intros H Hr Hp Ht.
  destruct (conforms_required _ _ _ H Hr) as [v Hv].
  pose proof (conforms_property _ _ _ _ _ H Hp Hv) as Hty.
  unfold has_type in Hty. rewrite Ht in Hty.
  destruct v; try discriminate. eauto.
Qed.

Lemma safePath_string w s :
  exists p, Path.resolve (cwd w) [VString (cwd w); VString s] = Returned p /\
            safePath (VString s) w = (Returned p, w).
Proof.
  destruct (PathFacts.resolve_strings (cwd w) (cwd w) s) as [p Hp].
  exists p. split; [done|]. unfold safePath, Js.reading. by rewrite Hp.
Qed.

Lemma arg_path_fun w args key p q :
  arg_path w args key p -> arg_path w args key q -> p = q.
Proof.
  intros (s & Hs & Hp) (s' & Hs' & Hq). congruence.
Qed.

Lemma err_reports message : reports_error (err message).
Proof. split; [done|]. by exists message. Qed.

End ToolFacts.

Module HandlerFacts.
Import Fs Tools Failure JsFacts ToolFacts.

Ltac same_path :=
  repeat match goal with
  | H1 : arg_path ?w ?args ?k ?p, H2 : arg_path ?w ?args ?k ?q |- _ =>
      assert (q = p) by exact (arg_path_fun _ _ _ _ _ H2 H1); subst q; clear H2
  end.

Ltac finish :=
  eexists _, _; split; [reflexivity|];
  let Hf := fresh "Hf" in
  intros Hf; inversion Hf; subst; same_path; simplify_eq;
  repeat match goal with
  | Hb : ?b = _, H : context [if ?b then _ else _] |- _ => rewrite Hb in H
  end;
  solve [ apply err_reports | congruence ].

Lemma read_file_ok args w s :
  args !! "path" = Some (VString s) -> handler_ok readFileTool args w.
Proof.
  intros Hs. destruct (safePath_string w s) as (p & Hp & Hsp).
  assert (Hap : arg_path w args "path" p) by (exists s; done).
  unfold handler_ok. cbn [handler readFileTool name].
  unfold Js.prop at 1. rewrite Hs. cbn [default].
  rewrite (bind_returned _ _ _ _ _ Hsp).
  unfold Js.tryCatch, Js.bind, Js.reading, Js.ret.
  destruct (stat w p) as [st|e] eqn:Hstat; [|finish].
  destruct (isDirectory st) eqn:Hdir; [finish|].
  destruct (readFile w p _) as [c|e] eqn:Hread; finish.
Qed.


Lemma write_file_ok args w s :
  args !! "path" = Some (VString s) -> handler_ok writeFileTool args w.
Proof.
  intros Hs. destruct (safePath_string w s) as (p & Hp & Hsp).
  assert (Hap : arg_path w args "path" p) by (exists s; done).
  unfold handler_ok. cbn [handler writeFileTool name].
  unfold Js.prop at 1. rewrite Hs. cbn [default].
  rewrite (bind_returned _ _ _ _ _ Hsp).
  unfold Js.tryCatch, Js.bind, Js.writing, Js.pure, Js.ret.
  destruct (mkdir_recursive w (Path.dirname p)) as [w1|e] eqn:Hmk; [|finish].
  destruct (Js.truthy _) eqn:Happ.
  - destruct (appendFile w1 p _) as [w2|e] eqn:Hwr; [|finish].
    destruct (Js.show_length _) as [len|e] eqn:Hlen; finish.
  - destruct (writeFile w1 p _) as [w2|e] eqn:Hwr; [|finish].
    destruct (Js.show_length _) as [len|e] eqn:Hlen; finish.
Qed.

Lemma list_directory_ok args w s :
  args !! "path" = Some (VString s) -> handler_ok listDirectoryTool args w.
Proof.
  intros Hs. destruct (safePath_string w s) as (p & Hp & Hsp).
  assert (Hap : arg_path w args "path" p) by (exists s; done).
  unfold handler_ok. cbn [handler listDirectoryTool name].
  unfold Js.prop at 1. rewrite Hs. cbn [default].
  rewrite (bind_returned _ _ _ _ _ Hsp).
  unfold Js.tryCatch, Js.bind, Js.ret.
  unfold Js.reading at 1.
  destruct (stat w p) as [st|e] eqn:Hstat; [|finish].
  destruct (isDirectory st) eqn:Hdir; cbn [negb]; [|finish].
  destruct (collectEntries p p _ _ w) as [[ls|e] w1] eqn:Hcol;
    eexists _, _; (split; [reflexivity|]);
    intros Hf; inversion Hf; subst; same_path;
    try solve [ apply err_reports | congruence ].
  match goal with
  | H : fst _ = Thrown _ |- _ => rewrite Hcol in H; discriminate
  end.
Qed.

Lemma get_file_info_ok args w s :
  args !! "path" = Some (VString s) -> handler_ok getFileInfoTool args w.
Proof.
  intros Hs. destruct (safePath_string w s) as (p & Hp & Hsp).
  assert (Hap : arg_path w args "path" p) by (exists s; done).
  unfold handler_ok. cbn [handler getFileInfoTool name].
  unfold Js.prop at 1. rewrite Hs. cbn [default].
  rewrite (bind_returned _ _ _ _ _ Hsp).
  unfold Js.tryCatch, Js.bind, Js.reading, Js.ret.
  destruct (stat w p) as [st|e] eqn:Hstat; finish.
Qed.

Lemma delete_file_ok args w s :
  args !! "path" = Some (VString s) -> handler_ok deleteFileTool args w.
Proof.
  intros Hs. destruct (safePath_string w s) as (p & Hp & Hsp).
  assert (Hap : arg_path w args "path" p) by (exists s; done).
  unfold handler_ok. cbn [handler deleteFileTool name].
  unfold Js.prop at 1. rewrite Hs. cbn [default].
  rewrite (bind_returned _ _ _ _ _ Hsp).
  unfold Js.tryCatch, Js.bind, Js.reading, Js.writing, Js.ret.
  destruct (stat w p) as [st|e] eqn:Hstat; [|finish].
  destruct (isDirectory st) eqn:Hdir; [finish|].
  destruct (unlink w p) as [w1|e] eqn:Hun; finish.
Qed.

End HandlerFacts.

Module StrFacts.
Import Str.

Lemma app_nil_l (b : string) : "" +:+ b = b.
Proof. reflexivity. Qed.

Lemma app_cons x (a b : string) : String x a +:+ b = String x (a +:+ b).
Proof. reflexivity. Qed.

Lemma app_assoc (a b c : string) : (a +:+ b) +:+ c = a +:+ b +:+ c.
Proof.
  induction a as [|x a IH]; [done|]. by rewrite !app_cons, IH.
Qed.

Lemma app_nil_r (a : string) : a +:+ "" = a.
Proof. induction a as [|x a IH]; [done|]. by rewrite app_cons, IH. Qed.

Lemma length_app (a b : string) :
  String.length (a +:+ b) = String.length a + String.length b.
Proof.
  induction a as [|x a IH]; [done|]. rewrite app_cons. simpl. by rewrite IH.
Qed.

Lemma startsWith_app (p s : string) : startsWith (p +:+ s) p = true.
Proof.
  induction p as [|x p IH]; [done|]. rewrite app_cons. simpl.
  rewrite bool_decide_eq_true_2 by done. exact IH.
Qed.

Lemma startsWith_inv (s p : string) :
  startsWith s p = true -> exists t, s = p +:+ t.
Proof.
  revert s. induction p as [|x p IH]; intros s H; simpl in *; [by exists s|].
  destruct s as [|y s]; [done|].
  apply andb_prop in H as [Hx Hs]. apply bool_decide_eq_true in Hx. subst y.
  destruct (IH _ Hs) as [t ->]. by exists t.
Qed.

Lemma drop_app (p s : string) : drop (String.length p) (p +:+ s) = s.
Proof. induction p as [|x p IH]; [done|]. rewrite app_cons. exact IH. Qed.

Lemma contains_here (sub post : string) : contains (sub +:+ post) sub.
Proof. exists "", post. done. Qed.

Lemma contains_app_r (a t sub : string) :
  contains t sub -> contains (a +:+ t) sub.
Proof.
  intros (pre & post & ->). exists (a +:+ pre), post. by rewrite app_assoc.
Qed.

(** The executable test agrees with the relation. *)
Lemma contains_includes (s sub : string) :
  contains s sub -> includes s sub = true.
Proof.
  intros (pre & post & ->). induction pre as [|x pre IH].
  - rewrite app_nil_l.
    assert (H : startsWith (sub +:+ post) sub = true) by apply startsWith_app.
    destruct (sub +:+ post); simpl; by rewrite H.
  - rewrite app_cons. simpl. rewrite IH. apply orb_true_r.
Qed.

Lemma includes_contains (s sub : string) :
  includes s sub = true -> contains s sub.
Proof.
  induction s as [|x s IH]; simpl; intros H.
  - rewrite orb_false_r in H. destruct (startsWith_inv _ _ H) as [t ->].
    apply contains_here.
  - apply orb_prop in H as [H|H].
    + destruct (startsWith_inv _ _ H) as [t ->]. apply contains_here.
    + destruct (IH H) as (pre & post & ->). by exists (String x pre), post.
Qed.

Lemma rev_onto_app (s acc : string) : rev_onto s acc = rev s +:+ acc.
Proof.
  unfold rev. revert acc. induction s as [|x s IH]; intros acc; simpl; [done|].
  rewrite (IH (String x acc)), (IH (String x "")).
  by rewrite app_assoc.
Qed.

Lemma rev_cons x (s : string) : rev (String x s) = rev s +:+ String x "".
Proof. unfold rev at 1. simpl. apply rev_onto_app. Qed.

Lemma rev_app (a b : string) : rev (a +:+ b) = rev b +:+ rev a.
Proof.
  induction a as [|x a IH].
  - by rewrite app_nil_l, app_nil_r.
  - by rewrite app_cons, !rev_cons, IH, app_assoc.
Qed.

Lemma rev_involutive (s : string) : rev (rev s) = s.
Proof.
  induction s as [|x s IH]; [done|].
  by rewrite rev_cons, rev_app, IH.
Qed.


(** Splitting a string that ends with the separator leaves an empty last
    piece. *)
Lemma split_go_trailing (sep : ascii) (q cur : string) :
  exists l, split_go sep (q +:+ String sep "") cur = l ++ [""].
Proof.
  revert cur. induction q as [|x q IH]; intros cur.
  - rewrite app_nil_l. simpl. rewrite bool_decide_eq_true_2 by done.
    by exists [rev cur].
  - rewrite app_cons. simpl. destruct (bool_decide (x = sep)).
    + destruct (IH "") as [l ->]. by exists (rev cur :: l).
    + apply IH.
Qed.

End StrFacts.

Module FsFacts.
Import Fs.

(** A failed [stat] names the path it was given. *)
Lemma stat_thrown w p e :
  stat w p = Thrown e -> exists c, e = ErrnoException c "stat" p.
Proof.
  unfold stat, fail. destruct (locate w p); intros H; [|done].
  injection H as <-. eauto.
Qed.

Lemma errno_message_contains c call p :
  Str.contains (Js.message (ErrnoException c call p)) p.
Proof.
  cbn [Js.message]. do 6 apply StrFacts.contains_app_r.
  apply StrFacts.contains_here.
Qed.

Lemma walk_app r cur l1 l2 :
  walk r cur (l1 ++ l2) =
  match walk r cur l1 with
  | inr c => walk r c l2
  | inl e => inl e
  end.
Proof.
  revert cur. induction l1 as [|c l1 IH]; intros cur; simpl; [done|].
  destruct (get r cur) as [[| |]|]; try done.
  destruct (_ || _); [apply IH|].
  destruct (Str.eqb c ".."); [apply IH|].
  destruct (get r (cur ++ [c])); [apply IH | done].
Qed.




End FsFacts.

(* ===================================================================== *)
(** * The walk of search_files *)
(* ===================================================================== *)

Module FsInduction.
Import Fs.

(** Induction on the tree: a directory may use the property of all its
    entries. *)
Lemma node_rect' (P : node -> Prop)
    (HFile : forall a m data, P (File a m data))
    (HDir : forall a m es, Forall (fun e => P (snd e)) es -> P (Dir a m es))
    (HSpecial : forall m, P (Special m)) :
  forall n, P n.
Proof.
  fix IH 1. intros [a m data | a m es | m].
  - apply HFile.
  - apply HDir. induction es as [|[k c] es IHes].
    + constructor.
    + constructor; [apply IH | exact IHes].
  - apply HSpecial.
Qed.

End FsInduction.

Module SearchFacts.
Import Fs Tools Search.

(** Below the bound at one length, at the bound at another: the first
    length is the smaller. *)
Lemma length_ge_lt len k max :
  Js.length_ge len max = false -> Js.length_ge k max = true -> len < k.
Proof.
  destruct max as [| |b|q|s|]; simpl; try done.
  - destruct b; intros H1 H2;
      apply Nat.leb_gt in H1; apply Nat.leb_le in H2; lia.
  - intros H1 H2. apply Qle_bool_iff in H2.
    destruct (decide (len < k)) as [|Hge]; [done|].
    assert (Hle : (inject_Z (Z.of_nat k) <= inject_Z (Z.of_nat len))%Q).
    { rewrite <- Zle_Qle. lia. }
    assert (Hq : Qle_bool q (inject_Z (Z.of_nat len)) = true).
    { apply Qle_bool_iff. by eapply Qle_trans. }
    congruence.
Qed.

Lemma extends_refl dir regex max results :
  extends dir regex max results results.
Proof.
  exists []. rewrite app_nil_r. repeat split; [constructor | done].
Qed.

Lemma extends_trans dir regex max a b c :
  extends dir regex max a b -> extends dir regex max b c ->
  extends dir regex max a c.
Proof.
  intros (x & -> & Hx & Hk1) (y & -> & Hy & Hk2).
  exists (x ++ y). rewrite app_assoc. repeat split.
  - by apply Forall_app.
  - intros k Hk Hlen. apply Hk2; [done|]. by apply Hk1.
Qed.

(** Pushing one reached file while the bound is not met. *)
Lemma extends_push dir regex max results entry :
  Js.length_ge (length results) max = false ->
  RegExp.test regex entry = true ->
  extends dir regex max results (results ++ [Path.join [dir; entry]]).
Proof.
  intros Hlt Htest. exists [Path.join [dir; entry]]. repeat split.
  - constructor; [|constructor]. exists [], entry. by repeat split.
  - intros k Hk Hlen. rewrite length_app. simpl.
    pose proof (length_ge_lt _ _ _ Hlt Hk). lia.
Qed.

(** What the walk of a subdirectory pushed is reached from the parent. *)
Lemma extends_down dir entry regex max results out :
  entry ∉ ignoredDirs ->
  extends (Path.join [dir; entry]) regex max results out ->
  extends dir regex max results out.
Proof.
  intros Hentry (added & -> & Hadded & Hk). exists added. repeat split; [|done].
  eapply Forall_impl; [exact Hadded|].
  intros r (names & e & -> & Hnames & He).
  exists (entry :: names), e. repeat split; [|done].
  by constructor.
Qed.

(** The walk of a node returns, and extends the results it was given. *)
Lemma walk_node_extends regex max n :
  forall dir results,
    exists out,
      walk_node n dir regex results max = Returned out /\
      extends dir regex max results out.
Proof.
  induction n as [a m data | a m es IH | m] using FsInduction.node_rect';
    intros dir results.
  - simpl. destruct (Js.length_ge _ _);
      eexists; (split; [reflexivity | apply extends_refl]).
  - simpl. destruct (Js.length_ge (length results) max) eqn:Hge0;
      [eexists; split; [reflexivity | apply extends_refl]|].
    destruct a; [|eexists; split; [reflexivity | apply extends_refl]].
    match goal with
    | |- context [Js.otry (?f es results)] =>
        assert (Hloop : forall results',
                  exists out, f es results' = Returned out /\
                              extends dir regex max results' out)
    end.
    { clear Hge0. induction es as [|[entry child] es IHes]; intros results'.
      - eexists; split; [reflexivity | apply extends_refl].
      - apply Forall_cons in IH as [IHc IHrest]. simpl in IHc.
        specialize (IHes IHrest).
        destruct (Js.length_ge (length results') max) eqn:Hge;
          [eexists; split; [reflexivity | apply extends_refl]|].
        destruct child as [a' m' data' | a' m' es' | m'].
        + destruct (RegExp.test regex entry) eqn:Htest; [|apply IHes].
          destruct (IHes (results' ++ [Path.join [dir; entry]]))
            as (out & Hout & Hext).
          exists out. split; [exact Hout|].
          eapply extends_trans; [|exact Hext]. by apply extends_push.
        + destruct (Str.mem entry ignoredDirs) eqn:Hmem; [apply IHes|].
          destruct (IHc (Path.join [dir; entry]) results')
            as (mid & Hmid & Hext1).
          rewrite Hmid. cbn [Js.obind].
          destruct (IHes mid) as (out & Hout & Hext2).
          exists out. split; [exact Hout|].
          eapply extends_trans; [|exact Hext2].
          eapply extends_down; [|exact Hext1].
          unfold Str.mem in Hmem. by apply bool_decide_eq_false in Hmem.
        + apply IHes. }
    destruct (Hloop results) as (out & Hout & Hext).
    rewrite Hout. by exists out.
  - simpl. destruct (Js.length_ge _ _);
      eexists; (split; [reflexivity | apply extends_refl]).
Qed.

Lemma walkAndMatch_extends dir regex results max w :
  exists out,
    walkAndMatch dir regex results max w = (Returned out, w) /\
    extends dir regex max results out.
Proof.
  unfold walkAndMatch, Js.reading. destruct (locate w dir) as [e|n].
  - exists results. split; [|apply extends_refl].
    by destruct (Js.length_ge _ _).
  - destruct (walk_node_extends regex max n dir results) as (out & -> & H).
    by exists out.
Qed.

(** The handler, once the directory and the pattern are known to be
    strings. *)
Lemma handler_run (w : World) (args : gmap string value) (s pat dir : string) :
  args !! "directory" = Some (VString s) ->
  Path.resolve (cwd w) [VString (cwd w); VString s] = Returned dir ->
  args !! "pattern" = Some (VString pat) ->
  handler searchFilesTool args w =
  match RegExp.create (starToAny (escapeSpecials pat)) "i" with
  | Thrown e => (Returned (err ("Search failed: " +:+ Js.message e)), w)
  | Returned regex =>
      match walkAndMatch dir regex []
              (Js.nullish (Js.prop args "maxResults") (VNumber 50)) w with
      | (Returned results, w') => (Returned (report pat dir results), w')
      | (Thrown e, w') =>
          (Returned (err ("Search failed: " +:+ Js.message e)), w')
      end
  end.
Proof.
  intros Hs Hdir Hpat.
  cbn [handler searchFilesTool].
  unfold safePath, Js.tryCatch, searchResults, Js.bind, Js.reading, Js.pure,
    Js.ret.
  unfold Js.prop at 1. rewrite Hs. cbn [default from_option id].
  rewrite Hdir.
  unfold Js.prop at 1. rewrite Hpat. cbn [default from_option id Js.receiver].
  destruct (RegExp.create _ "i") as [regex|e]; [|reflexivity].
  destruct (walkAndMatch dir regex [] _ w) as [[results|e] w']; [|reflexivity].
  unfold report, Js.prop. rewrite Hpat. cbn [default from_option id Js.show].
  by destruct (length results =? 0)%nat.
Qed.

(** [search_files] returns, and reports a pattern that is no regular
    expression. *)
Lemma search_files_ok args w s pat :
  args !! "directory" = Some (VString s) ->
  args !! "pattern" = Some (VString pat) ->
  Failure.handler_ok searchFilesTool args w.
Proof.
  intros Hs Hpat.
  destruct (ToolFacts.safePath_string w s) as (dir & Hdir & _).
  unfold Failure.handler_ok.
  rewrite (handler_run w args s pat dir Hs Hdir Hpat).
  destruct (RegExp.create _ "i") as [regex|e] eqn:Hre.
  - destruct (walkAndMatch_extends dir regex []
                (Js.nullish (Js.prop args "maxResults") (VNumber 50)) w)
      as (out & -> & _).
    eexists _, _. split; [reflexivity|].
    intros Hf. inversion Hf; subst. simplify_eq. congruence.
  - eexists _, _. split; [reflexivity|].
    intros _. apply ToolFacts.err_reports.
Qed.

End SearchFacts.

(* ===================================================================== *)
(** * Tool handlers *)
(* ===================================================================== *)

(** C1, as stated, fails for [search_files]: its handler makes no [stat] and
    its walk swallows what [readdir] throws.  With [directory] naming the
    regular file [/srv/README.md] (the wrong kind of file), or [/nope], which
    does not exist, the schema is satisfied and the result is the ordinary
    text [No files matching ...], without [isError]. *)
Lemma C1_counterexample :
  let onFile : gmap string value :=
    {["directory" := VString "/srv/README.md"; "pattern" := VString "*"]} in
  let onNothing : gmap string value :=
    {["directory" := VString "/nope"; "pattern" := VString "*"]} in
  Tools.conforms (Tools.inputSchema Tools.searchFilesTool) onFile = true /\
  Tools.conforms (Tools.inputSchema Tools.searchFilesTool) onNothing = true /\
  (exists st, Fs.stat Sample.world "/srv/README.md" = Returned st /\
              Fs.isFile st = true /\ Fs.isDirectory st = false) /\
  Fs.readdir Sample.world "/srv/README.md"
    = Thrown (ErrnoException ENOTDIR "scandir" "/srv/README.md") /\
  Fs.stat Sample.world "/nope" = Thrown (ErrnoException ENOENT "stat" "/nope") /\
  (exists r,
     fst (Tools.handler Tools.searchFilesTool onFile Sample.world)
       = Returned r /\
     r = Tools.ok "No files matching '*' found in '/srv/README.md'." /\
     Tools.isError r = None /\ ~ Failure.reports_error r) /\
  (exists r,
     fst (Tools.handler Tools.searchFilesTool onNothing Sample.world)
       = Returned r /\
     r = Tools.ok "No files matching '*' found in '/nope'." /\
     Tools.isError r = None /\ ~ Failure.reports_error r).
Proof.
  cbv zeta. repeat split.
  - eexists. repeat split; vm_compute; reflexivity.
  - eexists. split; [vm_compute; reflexivity|]. repeat split.
    intros [H _]. discriminate H.
  - eexists. split; [vm_compute; reflexivity|]. repeat split.
    intros [H _]. discriminate H.
Qed.

(** C1, amended. Every tool handler of ALL_TOOLS, called with arguments that
    satisfy the tool's declared input schema, returns a tool result and
    throws nothing.  For [read_file], [write_file], [list_directory],
    [get_file_info] and [delete_file], whenever a file-system call of the
    handler fails (stat, read, mkdir, write, readdir, unlink) or the path has
    the kind the handler rejects, the result carries [isError: true] and a
    text that starts with [ERROR: ]; for [search_files] this holds of a
    pattern that is no regular expression, the one failure it reports. *)
Theorem C1_tool_handlers_never_throw
    (t : Tools.ToolDefinition) (args : gmap string value) (w : Fs.World) :
  t ∈ Tools.ALL_TOOLS ->
  Tools.conforms (Tools.inputSchema t) args = true ->
  exists r w',
    Tools.handler t args w = (Returned r, w') /\
    (Failure.domain_failure w args (Tools.name t) -> Failure.reports_error r).
Proof.
  intros Ht Hc.
  assert (Hpath : forall k d,
            k ∈ Tools.required (Tools.inputSchema t) ->
            (k, Tools.str Tools.TString d)
              ∈ Tools.properties (Tools.inputSchema t) ->
            exists s, args !! k = Some (VString s)).
  { intros k d Hk Hp. by eapply ToolFacts.conforms_string. }
  unfold Tools.ALL_TOOLS in Ht.
  repeat (apply elem_of_cons in Ht as [-> | Ht]);
    [ .. | by apply elem_of_nil in Ht ].
  - destruct (Hpath "path" "Absolute or relative path to the file.")
      as [s Hs]; [set_solver .. |].
    by eapply HandlerFacts.read_file_ok.
  - destruct (Hpath "path" "Absolute or relative path to the file to write.")
      as [s Hs]; [set_solver .. |].
    by eapply HandlerFacts.write_file_ok.
  - destruct (Hpath "path" "Absolute or relative path to the directory.")
      as [s Hs]; [set_solver .. |].
    by eapply HandlerFacts.list_directory_ok.
  - destruct (Hpath "directory" "Root directory to search within.")
      as [s Hs]; [set_solver .. |].
    destruct (Hpath "pattern"
                "Search pattern. Use * as a wildcard. E.g. '*.ts'.")
      as [pat Hpat]; [set_solver .. |].
    by eapply SearchFacts.search_files_ok.
  - destruct (Hpath "path"
                "Absolute or relative path to the file or directory.")
      as [s Hs]; [set_solver .. |].
    by eapply HandlerFacts.get_file_info_ok.
  - destruct (Hpath "path"
                "Absolute or relative path to the file to delete.")
      as [s Hs]; [set_solver .. |].
    by eapply HandlerFacts.delete_file_ok.
Qed.

Lemma C1_witness :
  exists r w',
    Tools.handler Tools.deleteFileTool {["path" := VString "src"]}
      Sample.world = (Returned r, w') /\
    (Failure.domain_failure Sample.world {["path" := VString "src"]}
       "delete_file" -> Failure.reports_error r).
Proof.
  apply (C1_tool_handlers_never_throw Tools.deleteFileTool
           {["path" := VString "src"]} Sample.world).
  - unfold Tools.ALL_TOOLS. do 5 apply list_elem_of_further.
    apply list_elem_of_here.
  - vm_compute. reflexivity.
Defined.


(** [search_files] does report a pattern that is no regular expression. *)
Lemma search_reports_bad_pattern :
  fst (Tools.handler Tools.searchFilesTool
         {["directory" := VString "/srv"; "pattern" := VString "?"]}
         Sample.world)
  = Returned (Tools.err
      "Search failed: Invalid regular expression: /?/: Nothing to repeat").
Proof. vm_compute. reflexivity. Qed.

(** The schema matters: an argument map without a string [path] makes the
    handler throw before its [try] is entered. *)
Lemma read_file_throws_without_path :
  fst (Tools.handler Tools.readFileTool ∅ Sample.world)
  = Thrown (Path.invalid_path 1 VUndefined).
Proof. vm_compute. reflexivity. Qed.

(** C2, as stated, fails: for the argument [./nope], which names no entry,
    the error text names [/srv/nope], the resolved path, and the argument
    itself does not occur in it. *)
Lemma C2_counterexample :
  Fs.stat Sample.world "./nope"
    = Thrown (ErrnoException ENOENT "stat" "./nope") /\
  fst (Tools.handler Tools.getFileInfoTool {["path" := VString "./nope"]}
         Sample.world)
    = Returned (Tools.err
        "Could not stat path: ENOENT: no such file or directory, stat '/srv/nope'") /\
  ~ Str.contains
      "ERROR: Could not stat path: ENOENT: no such file or directory, stat '/srv/nope'"
      "./nope".
Proof.
  split; [vm_compute; reflexivity|]. split; [vm_compute; reflexivity|].
  intros H. apply StrFacts.contains_includes in H. vm_compute in H.
  discriminate.
Qed.

(** C2, amended. When the path argument is a string whose resolved absolute
    form [path.resolve(cwd, argument)] cannot be stat-ed, get_file_info
    throws nothing and returns a result with [isError: true] whose single
    text is [ERROR: Could not stat path: ] followed by the message of the
    failure, and that text contains the resolved absolute path. *)
Theorem C2_get_file_info_missing_path
    (w : Fs.World) (args : gmap string value) (s p : string) (e : exn) :
  args !! "path" = Some (VString s) ->
  Path.resolve (Fs.cwd w) [VString (Fs.cwd w); VString s] = Returned p ->
  Fs.stat w p = Thrown e ->
  exists t,
    Tools.handler Tools.getFileInfoTool args w
      = (Returned {| Tools.content := [{| Tools.type := "text";
                                          Tools.text := t |}];
                     Tools.isError := Some true |}, w) /\
    t = "ERROR: Could not stat path: " +:+ Js.message e /\
    Str.contains t p.
Proof.
  intros Hs Hp Hstat.
  exists ("ERROR: Could not stat path: " +:+ Js.message e).
  split; [|split; [done|]].
  - cbn [Tools.handler Tools.getFileInfoTool].
    unfold Js.prop. rewrite Hs. cbn [default from_option id].
    unfold Tools.safePath, Js.bind, Js.reading, Js.tryCatch, Js.ret.
    cbn beta. rewrite Hp. cbn beta iota. by rewrite Hstat.
  - destruct (FsFacts.stat_thrown _ _ _ Hstat) as [c ->].
    apply StrFacts.contains_app_r, FsFacts.errno_message_contains.
Qed.

Lemma C2_witness :
  exists t,
    Tools.handler Tools.getFileInfoTool {["path" := VString "./nope"]}
      Sample.world
      = (Returned {| Tools.content := [{| Tools.type := "text";
                                          Tools.text := t |}];
                     Tools.isError := Some true |}, Sample.world) /\
    t = "ERROR: Could not stat path: " +:+
        Js.message (ErrnoException ENOENT "stat" "/srv/nope") /\
    Str.contains t "/srv/nope".
Proof.
  apply (C2_get_file_info_missing_path Sample.world
           {["path" := VString "./nope"]} "./nope" "/srv/nope"
           (ErrnoException ENOENT "stat" "/srv/nope"));
    vm_compute; reflexivity.
Defined.





(** The sample project: node_modules is skipped, the unreadable directory
    is skipped without an error, and the bound 1 stops the walk. *)
Example search_sample :
  fst (Tools.searchResults "/srv" (VString "*.ts") (VNumber 50) Sample.world)
  = Returned ["/srv/src/index.ts"; "/srv/src/util.ts"] /\
  fst (Tools.searchResults "/srv" (VString "*.ts") (VNumber 1) Sample.world)
  = Returned ["/srv/src/index.ts"] /\
  fst (Tools.searchResults "/srv/private" (VString "") (VNumber 50)
         Sample.world)
  = Returned [].
Proof. repeat split; vm_compute; reflexivity. Qed.

(* ===================================================================== *)
(** * Resources *)
(* ===================================================================== *)

(** C3, as stated, fails: the URI [file:///nope/] ends with a separator, and
    reading it returns no content at all; the failure of the directory read
    is thrown as it is. *)
Lemma C3_counterexample :
  Str.endsWith "/nope/" "/" = true /\
  Resources.readResource "file:///nope/" Sample.world
  = (Thrown (ErrnoException ENOENT "scandir" "/nope"), Sample.world).
Proof. split; vm_compute; reflexivity. Qed.

(** C3, amended. For every [file://] URI whose path part ends with a path
    separator, the outcome of readResource is decided by reading the
    directory the path names once the separator is removed ([/] if nothing
    is left): when the directory can be read, the content returned has the
    MIME type [text/plain], the textual listing of the entries as its text
    and no blob; when it cannot, the error of the directory read is thrown.
    In no case is a blob returned. *)
Theorem C3_directory_uri_is_listed (w : Fs.World) (rawPath : string) :
  Str.endsWith rawPath "/" = true ->
  let uri := "file://" +:+ rawPath in
  let dirPath :=
    if Str.eqb (Str.dropLast rawPath) "" then "/"
    else Str.dropLast rawPath in
  Resources.readResource uri w =
    (match Fs.readdir w dirPath with
     | Returned entries =>
         Returned {| Resources.c_uri := uri;
                     Resources.c_mimeType := "text/plain";
                     Resources.text :=
                       Some (Resources.listing dirPath entries);
                     Resources.blob := None |}
     | Thrown e => Thrown e
     end, w).
Proof.
  intros Hend uri dirPath. unfold Resources.readResource.
  change (String.length "file://") with 7.
  assert (Hp : Str.startsWith uri "file://" = true)
    by apply StrFacts.startsWith_app.
  assert (Hd : Str.drop 7 uri = rawPath)
    by apply (StrFacts.drop_app "file://").
  rewrite Hp, Hd, Hend. cbn [negb].
  unfold Resources.buildDirectoryListing, Js.bind, Js.reading, Js.ret.
  fold dirPath. by destruct (Fs.readdir w dirPath).
Qed.

Lemma C3_witness :
  Resources.readResource "file:///srv/src/" Sample.world =
    (match Fs.readdir Sample.world "/srv/src" with
     | Returned entries =>
         Returned {| Resources.c_uri := "file:///srv/src/";
                     Resources.c_mimeType := "text/plain";
                     Resources.text :=
                       Some (Resources.listing "/srv/src" entries);
                     Resources.blob := None |}
     | Thrown e => Thrown e
     end, Sample.world).
Proof.
  apply (C3_directory_uri_is_listed Sample.world "/srv/src/").
  vm_compute. reflexivity.
Defined.

(** The listing the sample project gives for its source directory. *)
Example listing_of_src :
  fst (Resources.readResource "file:///srv/src/" Sample.world)
  = Returned (Resources.asText "file:///srv/src/"
      ("Directory listing: /srv/src" +:+ Str.nl +:+ Str.nl +:+
       "[FILE]  index.ts" +:+ Str.nl +:+ "[FILE]  util.ts")).
Proof. vm_compute. reflexivity. Qed.



(** A small binary file is returned as text. *)
Example small_png_is_text :
  fst (Resources.readResource "file:///srv/logo.png" Sample.world)
  = Returned (Resources.asText "file:///srv/logo.png" "PNG").
Proof. vm_compute. reflexivity. Qed.

Module ResourceFacts.
Import Fs Resources.

(** The probing loop reads the file system and never throws. *)
Lemma probe_returns cwd cs acc w :
  exists l, probe cwd cs acc w = (Returned l, w).
Proof.
  revert acc. induction cs as [|c cs IH]; intros acc; simpl.
  - by exists acc.
  - unfold Js.bind, Js.tryCatch, Js.reading, Js.ret.
    destruct (access w _); apply IH.
Qed.

End ResourceFacts.

(** C10. In every state of the process buildStaticResources returns, and the
    list it returns is not empty: its last element is the working-directory
    entry, with the URI [file://<cwd>/] and the MIME type [text/plain],
    whichever of the candidate files exist. *)
Theorem C10_static_resources_end_with_cwd (w : Fs.World) :
  exists l,
    Resources.buildStaticResources w = (Returned l, w) /\
    l <> [] /\
    last l = Some {| Resources.uri := "file://" +:+ Fs.cwd w +:+ "/";
                     Resources.name := "Working Directory";
                     Resources.description :=
                       "Current working directory: " +:+ Fs.cwd w;
                     Resources.mimeType := "text/plain" |}.
Proof.
  unfold Resources.buildStaticResources, Js.bind, Js.reading, Js.ret.
  destruct (ResourceFacts.probe_returns (Fs.cwd w) Resources.candidates [] w)
    as [found Hfound].
  rewrite Hfound. eexists. split; [reflexivity|]. split.
  - by destruct found.
  - apply last_snoc.
Qed.

(** The catalog of the sample project: the two candidates that exist, then
    the working directory. *)
Example static_resources_of_sample :
  option_map (map Resources.uri)
    (match fst (Resources.buildStaticResources Sample.world) with
     | Returned l => Some l
     | Thrown _ => None
     end)
  = Some ["file:///srv/README.md"; "file:///srv/package.json";
          "file:///srv/"].
Proof. vm_compute. reflexivity. Qed.

(* ===================================================================== *)
(** * Prompts *)
(* ===================================================================== *)

Module PromptFacts.
Import Fs Prompts.

Lemma resolveCwd_returns p w :
  exists q, resolveCwd p w = (Returned q, w).
Proof.
  unfold resolveCwd, Js.reading.
  destruct (PathFacts.resolve_strings (cwd w) (cwd w) p) as [q ->]. eauto.
Qed.

Lemma review_file_generates args w : generates reviewFilePrompt args w.
Proof.
  unfold generates. cbn [generate reviewFilePrompt].
  destruct (resolveCwd_returns (default "" (args !! "path")) w) as [q Hq].
  rewrite (JsFacts.bind_returned _ _ _ _ _ Hq).
  unfold Js.bind, Js.tryCatch, Js.reading, Js.ret.
  destruct (readFile w q _); eauto.
Qed.

Lemma summarize_directory_generates args w :
  generates summarizeDirectoryPrompt args w.
Proof.
  unfold generates. cbn [generate summarizeDirectoryPrompt].
  destruct (resolveCwd_returns (default "." (args !! "path")) w) as [q Hq].
  rewrite (JsFacts.bind_returned _ _ _ _ _ Hq).
  unfold Js.bind, Js.tryCatch, buildTree, Js.reading, Js.ret.
  destruct (if (3 <? 0)%nat then _ else _); eauto.
Qed.

Lemma find_and_explain_generates args w :
  generates findAndExplainPrompt args w.
Proof.
  unfold generates. cbn [generate findAndExplainPrompt].
  destruct (resolveCwd_returns (default "." (args !! "directory")) w)
    as [q Hq].
  rewrite (JsFacts.bind_returned _ _ _ _ _ Hq).
  unfold Js.bind, Js.tryCatch, findFirst, Js.reading, Js.ret.
  destruct (if (5 <? 0)%nat then _ else _) as [[f|]|]; eauto.
  destruct (Str.eqb f ""); eauto.
  destruct (readFile w f _); eauto.
Qed.

End PromptFacts.

(** C5. Every registered prompt, for every argument map, the empty one and
    those that lack a required argument included, generates without throwing:
    it returns a sequence of role-tagged messages (one message, of role
    user) and leaves the process as it was. *)
Theorem C5_prompts_never_throw
    (p : Prompts.PromptDefinition) (args : gmap string string)
    (w : Fs.World) :
  p ∈ Prompts.ALL_PROMPTS ->
  exists text,
    Prompts.generate p args w
    = (Returned [{| Prompts.m_role := Prompts.user;
                    Prompts.content := {| Tools.type := "text";
                                          Tools.text := text |} |}], w).
Proof.
  intros Hp. unfold Prompts.ALL_PROMPTS in Hp.
  repeat (apply elem_of_cons in Hp as [-> | Hp]);
    [ .. | by apply elem_of_nil in Hp ].
  - apply PromptFacts.review_file_generates.
  - apply PromptFacts.summarize_directory_generates.
  - apply PromptFacts.find_and_explain_generates.
Qed.

Lemma C5_witness :
  exists text,
    Prompts.generate Prompts.reviewFilePrompt ∅ Sample.world
    = (Returned [{| Prompts.m_role := Prompts.user;
                    Prompts.content := {| Tools.type := "text";
                                          Tools.text := text |} |}],
       Sample.world).
Proof.
  apply (C5_prompts_never_throw Prompts.reviewFilePrompt ∅ Sample.world).
  unfold Prompts.ALL_PROMPTS. apply list_elem_of_here.
Defined.

(* ===================================================================== *)
(** * The registry and the startup *)
(* ===================================================================== *)

Module RegistryFacts.
Import Registry.

Lemma registerTool_inv spec reg reg' :
  registerTool spec reg = inr reg' ->
  (t_name spec ∉ map t_name (tools reg)) /\
  tools reg' = tools reg ++ [spec] /\ statics reg' = statics reg /\
  templates reg' = templates reg /\ prompts reg' = prompts reg.
Proof.
  unfold registerTool. case_bool_decide; [done|]. by intros [= <-].
Qed.

Lemma registerPrompt_inv spec reg reg' :
  registerPrompt spec reg = inr reg' ->
  tools reg' = tools reg /\ statics reg' = statics reg.
Proof.
  unfold registerPrompt. case_bool_decide; [done|]. by intros [= <-].
Qed.

Lemma registerResource_inv spec reg reg' :
  registerResource spec reg = inr reg' ->
  tools reg' = tools reg /\
  match spec with
  | Static r =>
      (Resources.uri r ∉ map Resources.uri (statics reg)) /\
      statics reg' = statics reg ++ [r]
  | Template _ => statics reg' = statics reg
  end.
Proof.
  unfold registerResource. destruct spec as [r|t].
  - case_bool_decide; [done|]. by intros [= <-].
  - by intros [= <-].
Qed.

Lemma NoDup_snoc {A} (l : list A) (x : A) :
  NoDup l -> x ∉ l -> NoDup (l ++ [x]).
Proof.
  intros Hl Hx. apply NoDup_app. split; [done|]. split.
  - intros y Hy Hy'. apply list_elem_of_singleton in Hy'. by subst.
  - apply NoDup_singleton.
Qed.

(** Registrations keep the tool names and the static URIs distinct. *)
Lemma reachable_NoDup reg :
  reachable reg ->
  NoDup (map t_name (tools reg)) /\
  NoDup (map Resources.uri (statics reg)).
Proof.
  induction 1 as [| spec reg reg' _ [IHt IHs] Hreg
                  | spec reg reg' _ [IHt IHs] Hreg
                  | spec reg reg' _ [IHt IHs] Hreg].
  - split; constructor.
  - apply registerTool_inv in Hreg as (Hnew & -> & -> & _).
    split; [|done]. rewrite map_app. by apply NoDup_snoc.
  - apply registerResource_inv in Hreg as [-> Hs]. split; [done|].
    destruct spec as [r|t].
    + destruct Hs as [Hnew ->]. rewrite map_app. by apply NoDup_snoc.
    + by rewrite Hs.
  - apply registerPrompt_inv in Hreg as [-> ->]. done.
Qed.

(** With distinct URIs, the search for the URI of an entry finds it. *)
Lemma find_static (l : list Resources.ResourceInfo) r :
  NoDup (map Resources.uri l) -> r ∈ l ->
  exists i,
    list_find (fun x => Resources.uri x = Resources.uri r) l = Some (i, r).
Proof.
  induction l as [|x l IH]; intros Hnd Hr; [by apply elem_of_nil in Hr|].
  simpl in Hnd. apply NoDup_cons in Hnd as [Hx Hnd].
  apply elem_of_cons in Hr as [-> | Hr].
  - exists 0. simpl. by rewrite decide_True.
  - simpl. destruct (decide (Resources.uri x = Resources.uri r)) as [E|_].
    + exfalso. apply Hx. rewrite E. apply list_elem_of_fmap. eauto.
    + destruct (IH Hnd Hr) as [i ->]. by exists (S i).
Qed.

Lemma registerEach_app {A} (spec : string -> outcome A) register l1 l2 reg :
  Index.registerEach spec register (l1 ++ l2) reg =
  match Index.registerEach spec register l1 reg with
  | inr reg' => Index.registerEach spec register l2 reg'
  | inl f => inl f
  end.
Proof.
  revert reg. induction l1 as [|n l1 IH]; intros reg; simpl; [done|].
  destruct (spec n); [|done]. destruct (register _ reg); [done|]. apply IH.
Qed.

Lemma toolSpec_name name :
  is_Some (Index.findTool name) ->
  exists spec, Index.toolSpec name = Returned spec /\ t_name spec = name.
Proof.
  intros [t Ht]. unfold Index.toolSpec. rewrite Ht. eauto.
Qed.

End RegistryFacts.

(** C4. In a registry produced by registrations, a URI that is the URI of a
    registered static entry and that a registered template also matches
    resolves to the static entry: the exact static match comes first,
    whatever the pattern language is. *)
Theorem C4_static_match_wins
    (matchPattern : string -> string -> option (list (string * string)))
    (reg : Registry.t) (r : Resources.ResourceInfo)
    (t : Registry.ResourceTemplate) (bindings : list (string * string)) :
  Registry.reachable reg ->
  r ∈ Registry.statics reg ->
  t ∈ Registry.templates reg ->
  matchPattern (Registry.uriPattern t) (Resources.uri r) = Some bindings ->
  Registry.resolveResource matchPattern reg (Resources.uri r)
  = inr (Registry.ByStatic r).
Proof.
  intros Hreach Hr _ _. unfold Registry.resolveResource.
  destruct (RegistryFacts.reachable_NoDup reg Hreach) as [_ Hnd].
  destruct (RegistryFacts.find_static _ _ Hnd Hr) as [i Hi].
  by rewrite Hi.
Qed.

Lemma C4_witness :
  Registry.resolveResource Registry.matchPrefix
    {| Registry.tools := [];
       Registry.statics := [Resources.workingDirectory "/srv"];
       Registry.templates := [Index.fileTemplate];
       Registry.prompts := [] |}
    (Resources.uri (Resources.workingDirectory "/srv"))
  = inr (Registry.ByStatic (Resources.workingDirectory "/srv")).
Proof.
  apply (C4_static_match_wins Registry.matchPrefix _ _ Index.fileTemplate
           [("path", "/srv/")]).
  - apply (Registry.reach_resource (Registry.Template Index.fileTemplate)
             {| Registry.tools := [];
                Registry.statics := [Resources.workingDirectory "/srv"];
                Registry.templates := []; Registry.prompts := [] |});
      [|reflexivity].
    apply (Registry.reach_resource
             (Registry.Static (Resources.workingDirectory "/srv"))
             Registry.empty);
      [apply Registry.reach_empty | reflexivity].
  - apply list_elem_of_here.
  - apply list_elem_of_here.
  - vm_compute. reflexivity.
Defined.

(** The server of index.ts on the sample project: the template matches the
    URI of the README as it matches any file URI, and the static entry is
    the one resolved; a file that is no static entry goes to the template. *)
Example resolution_in_sample_server :
  match fst (Index.boot Sample.world) with
  | inr s =>
      Registry.matchPrefix "file://{path}" "file:///srv/README.md"
        = Some [("path", "/srv/README.md")] /\
      (exists r,
         Registry.resolveResource Registry.matchPrefix (Index.registry s)
           "file:///srv/README.md" = inr (Registry.ByStatic r) /\
         Resources.name r = "README.md") /\
      Registry.resolveResource Registry.matchPrefix (Index.registry s)
        "file:///srv/src/index.ts"
        = inr (Registry.ByTemplate Index.fileTemplate
                 [("path", "/srv/src/index.ts")])
  | inl _ => False
  end.
Proof.
  vm_compute. split; [reflexivity|]. split; [|reflexivity].
  eexists. split; reflexivity.
Qed.

(** C6. Once a tool name is registered, in a registry produced by
    registrations, a second registerTool with that name fails with the
    duplicate-name fault; the registry holds no two tools of one name; and
    when the second call is one of the registrations of the startup code,
    the startup ends with that fault before [main] runs, so before any
    transport is connected and any session begins. *)
Theorem C6_duplicate_tool_name_rejected
    (reg : Registry.t) (spec : Registry.ToolSpec) :
  Registry.reachable reg ->
  Registry.t_name spec ∈ map Registry.t_name (Registry.tools reg) ->
  Registry.registerTool spec reg
    = inl (Registry.DuplicateNameError (Registry.t_name spec)) /\
  NoDup (map Registry.t_name (Registry.tools reg)) /\
  (forall before after promptNames w,
     Index.registerEach Index.toolSpec Registry.registerTool before
       Registry.empty = inr reg ->
     is_Some (Index.findTool (Registry.t_name spec)) ->
     Index.start (before ++ Registry.t_name spec :: after) promptNames w
     = (inl (Index.Fault
               (Registry.DuplicateNameError (Registry.t_name spec))), w)).
Proof.
  intros Hreach Hin.
  assert (Hdup : forall spec',
            Registry.t_name spec' = Registry.t_name spec ->
            Registry.registerTool spec' reg
            = inl (Registry.DuplicateNameError (Registry.t_name spec))).
  { intros spec' E. unfold Registry.registerTool. rewrite E.
    by rewrite bool_decide_eq_true_2. }
  split; [by apply Hdup|]. split.
  - by destruct (RegistryFacts.reachable_NoDup reg Hreach).
  - intros before after promptNames w Hbefore Hfound.
    unfold Index.start, Index.moduleLevel.
    rewrite RegistryFacts.registerEach_app, Hbefore. simpl.
    destruct (RegistryFacts.toolSpec_name _ Hfound) as (spec' & -> & E).
    by rewrite (Hdup spec' E).
Qed.

Lemma C6_witness :
  let reg :=
    {| Registry.tools :=
         [{| Registry.t_name := "read_file";
             Registry.t_description :=
               Tools.description Tools.readFileTool;
             Registry.t_inputSchema := Tools.inputSchema Tools.readFileTool;
             Registry.t_handler := Tools.handler Tools.readFileTool |}];
       Registry.statics := []; Registry.templates := [];
       Registry.prompts := [] |} in
  let spec :=
    {| Registry.t_name := "read_file";
       Registry.t_description := "a second tool of the same name";
       Registry.t_inputSchema := Tools.inputSchema Tools.deleteFileTool;
       Registry.t_handler := Tools.handler Tools.deleteFileTool |} in
  Registry.registerTool spec reg
    = inl (Registry.DuplicateNameError (Registry.t_name spec)) /\
  NoDup (map Registry.t_name (Registry.tools reg)) /\
  (forall before after promptNames w,
     Index.registerEach Index.toolSpec Registry.registerTool before
       Registry.empty = inr reg ->
     is_Some (Index.findTool (Registry.t_name spec)) ->
     Index.start (before ++ Registry.t_name spec :: after) promptNames w
     = (inl (Index.Fault
               (Registry.DuplicateNameError (Registry.t_name spec))), w)).
Proof.
  intros reg spec.
  apply (C6_duplicate_tool_name_rejected reg spec).
  - apply (Registry.reach_tool
             {| Registry.t_name := "read_file";
                Registry.t_description :=
                  Tools.description Tools.readFileTool;
                Registry.t_inputSchema :=
                  Tools.inputSchema Tools.readFileTool;
                Registry.t_handler := Tools.handler Tools.readFileTool |}
             Registry.empty);
      [apply Registry.reach_empty | reflexivity].
  - apply list_elem_of_here.
Defined.

(** The startup of index.ts itself registers six distinct names and gets to
    the connection; a seventh registration of a name already used ends it
    with the duplicate-name fault. *)
Example startup_of_sample :
  match fst (Index.boot Sample.world) with
  | inr s =>
      Index.session s = Index.Negotiating /\
      map Registry.t_name (Registry.listTools (Index.registry s))
      = Index.registeredToolNames
  | inl _ => False
  end /\
  Index.start (Index.registeredToolNames ++ ["write_file"])
    Index.registeredPromptNames Sample.world
  = (inl (Index.Fault (Registry.DuplicateNameError "write_file")),
     Sample.world).
Proof. split; [vm_compute; split; reflexivity | vm_compute; reflexivity]. Qed.

(* ===================================================================== *)
(** * Messages and framing *)
(* ===================================================================== *)

Module JsonFacts.
Import Json.

(** Induction on a value: an array and an object may use the property of
    all they hold. *)
Lemma json_ind' (P : t -> Prop)
    (HNull : P Null) (HBool : forall b, P (Bool b))
    (HNum : forall z, P (Num z)) (HStr : forall s, P (Str s))
    (HArr : forall items, Forall P items -> P (Arr items))
    (HObj : forall members, Forall (fun kv => P (snd kv)) members ->
                            P (Obj members)) :
  forall v, P v.
Proof.
  fix IH 1. intros [|b|z|s|items|members].
  - exact HNull.
  - apply HBool.
  - apply HNum.
  - apply HStr.
  - apply HArr. induction items as [|x items IHi]; constructor; [apply IH | exact IHi].
  - apply HObj. induction members as [|[k x] members IHm]; constructor; [apply IH | exact IHm].
Qed.

Lemma text_bytes s : text (bytes s) = s.
Proof. apply String.string_of_list_ascii_of_string. Qed.

Lemma bytes_text l : bytes (text l) = l.
Proof. apply String.list_ascii_of_string_of_list_ascii. Qed.

Lemma length_text l : String.length (text l) = length l.
Proof. induction l as [|c l IH]; simpl; [done | by rewrite IH]. Qed.

Lemma print_Arr items : print (Arr items) = "["%char :: elements items ++ ["]"%char].
Proof.
  reflexivity.
Qed.

Lemma print_Obj members : print (Obj members) = "{"%char :: fields members ++ ["}"%char].
Proof.
  reflexivity.
Qed.

(** Reading back one escaped byte. *)
Lemma read_escape c r acc : read_string (escape c ++ r) acc = read_string r (c :: acc).
Proof.
  destruct c as [[] [] [] [] [] [] [] []]; reflexivity.
Qed.

Lemma read_quoted l rest acc :
  read_string (flat_map escape l ++ Str.dquote :: rest) acc = Some (text (reverse acc ++ l), rest).
Proof.
  revert acc. induction l as [|c l IH]; intros acc.
  - simpl. by rewrite app_nil_r.
  - simpl. rewrite <- app_assoc, read_escape, IH. 
    by rewrite reverse_cons, <- app_assoc.
Qed.

Lemma digits_shape d :
  Forall (fun c => is_digit c = true) (bytes (NilEmpty.string_of_uint d)).
Proof. induction d; simpl; constructor; done. Qed.

Lemma span_digits_app ds rest :
  Forall (fun c => is_digit c = true) ds -> delimited rest ->
  span_digits (ds ++ rest) = (ds, rest).
Proof.
  intros Hds Hrest. induction Hds as [|c ds Hc _ IH]; cbn [app span_digits].
  - destruct rest as [|c r]; [done|]. cbn [span_digits].
    unfold delimited in Hrest. by rewrite Hrest.
  - by rewrite Hc, IH.
Qed.

Lemma to_uint_nonnil n : N.to_uint n <> Decimal.Nil.
Proof.
  destruct n as [|p]; [done|]. apply DecimalPos.Unsigned.to_uint_nonnil.
Qed.

Lemma digits_nonempty n :
  exists c ds, bytes (NilEmpty.string_of_uint (N.to_uint n)) = c :: ds /\ is_digit c = true.
Proof.
  pose proof (to_uint_nonnil n) as Hn. pose proof (digits_shape (N.to_uint n)) as Hd.
  destruct (N.to_uint n); [done|..]; simpl in *; eauto.
Qed.

Lemma read_natural_digits n rest :
  delimited rest ->
  read_natural (bytes (NilEmpty.string_of_uint (N.to_uint n)) ++ rest) = Some (n, rest).
Proof.
  intros Hrest. unfold read_natural.
  rewrite (span_digits_app _ _ (digits_shape _) Hrest).
  destruct (digits_nonempty n) as (c & ds & E & _).
  rewrite E, <- E, text_bytes, NilEmpty.usu.
  by rewrite DecimalN.Unsigned.of_to.
Qed.

(** A digit is none of the characters that open another kind of value. *)
Lemma read_at_digit f c r :
  is_digit c = true ->
  read (S f) (c :: r) =
  match read_natural (c :: r) with
  | Some (n, r') => Some (Num (Z.of_N n), r')
  | None => None
  end.
Proof.
  destruct c as [[] [] [] [] [] [] [] []]; intros H; try discriminate H; reflexivity.
Qed.

Lemma read_number z rest f :
  delimited rest -> read (S f) (number z ++ rest) = Some (Num z, rest).
Proof.
  intros Hrest. unfold number. destruct (z <? 0)%Z eqn:Hz.
  - change (read (S f) (("-"%char :: bytes (NilEmpty.string_of_uint (N.to_uint (Z.abs_N z)))) ++ rest))
      with (match read_natural (bytes (NilEmpty.string_of_uint (N.to_uint (Z.abs_N z))) ++ rest) with
            | Some (n, r') => Some (Num (- Z.of_N n), r')
            | None => None
            end).
    rewrite (read_natural_digits _ _ Hrest).
    apply Z.ltb_lt in Hz. rewrite N2Z.inj_abs_N.
    replace (- Z.abs z)%Z with z by lia. done.
  - destruct (digits_nonempty (Z.abs_N z)) as (c & ds & E & Hc).
    rewrite E. simpl app. rewrite (read_at_digit _ _ _ Hc).
    change (c :: ds ++ rest) with ((c :: ds) ++ rest). rewrite <- E.
    rewrite (read_natural_digits _ _ Hrest).
    apply Z.ltb_ge in Hz. rewrite N2Z.inj_abs_N.
    replace (Z.abs z) with z by lia. done.
Qed.

Lemma digit_not_bracket c :
  is_digit c = true -> c <> "]"%char /\ c <> "}"%char.
Proof.
  destruct c as [[] [] [] [] [] [] [] []]; intros H; try discriminate H; done.
Qed.

(** A printed value starts with a character that closes nothing. *)
Lemma print_head v :
  exists c l, print v = c :: l /\ c <> "]"%char /\ c <> "}"%char.
Proof.
  destruct v as [|[]|z|s|items|members]; try (by eexists _, _).
  simpl. unfold number. destruct (z <? 0)%Z; [by eexists _, _|].
  destruct (digits_nonempty (Z.abs_N z)) as (c & ds & -> & Hc).
  exists c, ds. split; [done|]. by apply digit_not_bracket.
Qed.

Lemma print_nonempty v : 1 <= length (print v).
Proof. destruct (print_head v) as (c & l & -> & _). simpl. lia. Qed.

Lemma read_at_quote f r :
  read (S f) (Str.dquote :: r) =
  match read_string r [] with
  | Some (str, r') => Some (Str str, r')
  | None => None
  end.
Proof. reflexivity. Qed.

Lemma read_at_bracket f r :
  read (S f) ("["%char :: r) =
  if Str.startsWith (text r) "]" then Some (Arr [], drop 1 r)
  else match read_items f r with
       | Some (items, r') => Some (Arr items, r')
       | None => None
       end.
Proof. reflexivity. Qed.

Lemma read_at_brace f r :
  read (S f) ("{"%char :: r) =
  if Str.startsWith (text r) "}" then Some (Obj [], drop 1 r)
  else match read_members f r with
       | Some (members, r') => Some (Obj members, r')
       | None => None
       end.
Proof. reflexivity. Qed.

Lemma read_items_step f s :
  read_items (S f) s =
  match read f s with
  | Some (x, c :: r) =>
      if bool_decide (c = ","%char) then
        match read_items f r with
        | Some (xs, r') => Some (x :: xs, r')
        | None => None
        end
      else if bool_decide (c = "]"%char) then Some ([x], r)
      else None
  | _ => None
  end.
Proof. reflexivity. Qed.

Lemma read_members_step f r0 :
  read_members (S f) (Str.dquote :: r0) =
  match read_string r0 [] with
  | Some (k, c0 :: r1) =>
      if bool_decide (c0 = ":"%char) then
        match read f r1 with
        | Some (x, c :: r) =>
            if bool_decide (c = ","%char) then
              match read_members f r with
              | Some (xs, r') => Some ((k, x) :: xs, r')
              | None => None
              end
            else if bool_decide (c = "}"%char) then Some ([(k, x)], r)
            else None
        | _ => None
        end
      else None
  | _ => None
  end.
Proof. reflexivity. Qed.

Lemma startsWith_other c l (d : ascii) :
  c <> d -> Str.startsWith (text (c :: l)) (String d "") = false.
Proof.
  intros H. simpl. rewrite bool_decide_eq_false_2; [done|]. congruence.
Qed.

Lemma read_quote_app k rest :
  read_string (flat_map escape (bytes k) ++ Str.dquote :: rest) [] = Some (k, rest).
Proof. rewrite read_quoted. simpl. by rewrite text_bytes. Qed.

Lemma reads_items items :
  Forall reads items -> items <> [] ->
  forall rest fuel,
    length (elements items) + 1 <= fuel ->
    read_items fuel (elements items ++ "]"%char :: rest) = Some (items, rest).
Proof.
  induction 1 as [|x items Hx _ IH]; [done|]. intros _ rest fuel Hfuel.
  destruct fuel as [|f]; [lia|]. rewrite read_items_step.
  destruct items as [|y items].
  - simpl in *. rewrite Hx; [|done|lia]. reflexivity.
  - change (elements (x :: y :: items))
      with (print x ++ ","%char :: elements (y :: items)) in *.
    rewrite length_app in Hfuel. simpl length in Hfuel.
    rewrite <- app_assoc. simpl app.
    rewrite Hx; [|done|lia].
    rewrite bool_decide_eq_true_2 by done.
    pose proof (print_nonempty x).
    rewrite IH; [done|done|simpl; lia].
Qed.

Lemma reads_members members :
  Forall (fun kv => reads (snd kv)) members -> members <> [] ->
  forall rest fuel,
    length (fields members) + 1 <= fuel ->
    read_members fuel (fields members ++ "}"%char :: rest)
    = Some (members, rest).
Proof.
  induction 1 as [|[k x] members Hx _ IH]; [done|]. intros _ rest fuel Hfuel.
  simpl in Hx. destruct fuel as [|f]; [lia|].
  destruct members as [|[k' y] members].
  - change (fields [(k, x)]) with (quote k ++ ":"%char :: print x) in *.
    unfold quote in *. rewrite length_app in Hfuel.
    simpl in Hfuel. simpl app. rewrite <- !app_assoc. simpl app.
    rewrite read_members_step, read_quote_app.
    rewrite bool_decide_eq_true_2 by done.
    rewrite Hx; [|done|lia]. reflexivity.
  - change (fields ((k, x) :: (k', y) :: members))
      with (quote k ++ ":"%char :: print x ++ ","%char ::
            fields ((k', y) :: members)) in *.
    set (tail := fields ((k', y) :: members)) in *.
    unfold quote in Hfuel |- * at 1.
    repeat (first [rewrite length_app in Hfuel
                  | progress (simpl length in Hfuel)]).
    simpl app. rewrite <- !app_assoc. simpl app.
    rewrite read_members_step, read_quote_app.
    rewrite bool_decide_eq_true_2 by done.
    rewrite <- app_assoc. simpl app.
    rewrite Hx; [|done|lia].
    rewrite bool_decide_eq_true_2 by done.
    rewrite IH; [done|done|lia].
Qed.

(** Reading a printed value gives the value back, with what followed it. *)
Lemma read_print v : reads v.
Proof.
  induction v as [|b|z|s|items IH|members IH] using json_ind';
    intros rest fuel Hrest Hfuel.
  - destruct fuel as [|f]; [simpl in Hfuel; lia | reflexivity].
  - destruct fuel as [|f]; [destruct b; simpl in Hfuel; lia|].
    destruct b; reflexivity.
  - destruct fuel as [|f]; [pose proof (print_nonempty (Num z)); lia|].
    by apply read_number.
  - destruct fuel as [|f]; [pose proof (print_nonempty (Str s)); lia|].
    simpl print. unfold quote. simpl app. rewrite <- app_assoc. simpl app.
    by rewrite read_at_quote, read_quote_app.
  - rewrite print_Arr in *. simpl length in Hfuel. rewrite length_app in Hfuel.
    simpl length in Hfuel. destruct fuel as [|f]; [lia|].
    simpl app. rewrite <- app_assoc. simpl app. rewrite read_at_bracket.
    destruct items as [|x items]; [reflexivity|].
    assert (Hhead : exists c l, elements (x :: items) = c :: l /\ c <> "]"%char).
    { destruct (print_head x) as (c & l & E & Hc & _).
      destruct items; simpl; rewrite E; simpl; eauto. }
    destruct Hhead as (c & l & E & Hc).
    rewrite E. simpl app. rewrite (startsWith_other _ _ _ Hc).
    change (c :: l ++ "]"%char :: rest) with ((c :: l) ++ "]"%char :: rest).
    rewrite <- E. rewrite reads_items; [done|done|done|lia].
  - rewrite print_Obj in *. simpl length in Hfuel. rewrite length_app in Hfuel.
    simpl length in Hfuel. destruct fuel as [|f]; [lia|].
    simpl app. rewrite <- app_assoc. simpl app. rewrite read_at_brace.
    destruct members as [|[k x] members]; [reflexivity|].
    assert (Hhead : exists l, fields ((k, x) :: members) = Str.dquote :: l).
    { destruct members as [|[k' y] members]; simpl; eauto. }
    destruct Hhead as (l & E).
    rewrite E. simpl app. rewrite startsWith_other by done.
    change (Str.dquote :: l ++ "}"%char :: rest)
      with ((Str.dquote :: l) ++ "}"%char :: rest).
    rewrite <- E. rewrite reads_members; [done|done|done|lia].
Qed.

Lemma escape_inline c : inline (escape c).
Proof.
  destruct c as [[] [] [] [] [] [] [] []]; repeat constructor; discriminate.
Qed.

Lemma quote_inline s : inline (quote s).
Proof.
  unfold quote. constructor; [discriminate|]. apply Forall_app. split.
  - induction (bytes s) as [|c l IH]; simpl; [constructor|].
    apply Forall_app. split; [apply escape_inline | exact IH].
  - repeat constructor. discriminate.
Qed.

Lemma digit_inline c : is_digit c = true -> c <> Str.LF.
Proof. intros H ->. discriminate H. Qed.

Lemma number_inline z : inline (number z).
Proof.
  unfold number.
  assert (H : inline (bytes (NilEmpty.string_of_uint (N.to_uint (Z.abs_N z))))).
  { eapply Forall_impl; [apply digits_shape|]. apply digit_inline. }
  destruct (z <? 0)%Z; [constructor; [discriminate | exact H] | exact H].
Qed.

(** A printed value holds no raw line break. *)
Lemma print_inline v : inline (print v).
Proof.
  induction v as [|b|z|s|items IH|members IH] using json_ind'.
  - repeat constructor; discriminate.
  - destruct b; repeat constructor; discriminate.
  - apply number_inline.
  - apply quote_inline.
  - rewrite print_Arr. constructor; [discriminate|].
    apply Forall_app. split; [|repeat constructor; discriminate].
    induction IH as [|x items Hx _ IHi]; [constructor|].
    destruct items as [|y items]; [exact Hx|].
    change (elements (x :: y :: items))
      with (print x ++ ","%char :: elements (y :: items)).
    apply Forall_app. split; [exact Hx|].
    constructor; [discriminate | exact IHi].
  - rewrite print_Obj. constructor; [discriminate|].
    apply Forall_app. split; [|repeat constructor; discriminate].
    induction IH as [|[k x] members Hx _ IHm]; [constructor|].
    simpl in Hx. destruct members as [|[k' y] members].
    + change (fields [(k, x)]) with (quote k ++ ":"%char :: print x).
      apply Forall_app. split; [apply quote_inline|].
      constructor; [discriminate | exact Hx].
    + change (fields ((k, x) :: (k', y) :: members))
        with (quote k ++ ":"%char :: print x ++ ","%char ::
              fields ((k', y) :: members)).
      apply Forall_app. split; [apply quote_inline|].
      constructor; [discriminate|].
      apply Forall_app. split; [exact Hx|].
      constructor; [discriminate | exact IHm].
Qed.

Lemma cutLine_app l rest :
  inline l -> Framing.cutLine (l ++ Str.LF :: rest) = Some (l, rest).
Proof.
  induction 1 as [|c l Hc _ IH]; cbn [app Framing.cutLine].
  - by rewrite bool_decide_eq_true_2.
  - rewrite bool_decide_eq_false_2 by done. by rewrite IH.
Qed.

Lemma stripCR_snoc l c :
  c <> Str.CR -> Framing.stripCR (l ++ [c]) = l ++ [c].
Proof.
  intros Hc. unfold Framing.stripCR. rewrite reverse_snoc. cbv beta iota.
  by rewrite bool_decide_eq_false_2.
Qed.

(** Parsing the text of a value gives the value. *)
Lemma parse_stringify v : parse (stringify v) = Some v.
Proof.
  unfold parse, stringify. rewrite bytes_text, length_text.
  rewrite <- (app_nil_r (print v)) at 2.
  rewrite read_print; [done|done|lia].
Qed.

Lemma json_id_id i : Framing.json_id (Framing.id_json i) = Some i.
Proof. by destruct i. Qed.

(** The object of a message is read back as the message. *)
Lemma of_json_to_json m : Framing.of_json (Framing.to_json m) = Some m.
Proof.
  destruct m as [i method [params|] | i [value | [c msg [d|]]] | method [params|]];
    try destruct i; reflexivity.
Qed.

Lemma to_json_object m : exists members, Framing.to_json m = Obj members.
Proof.
  destruct m as [i method params | i [value | e] | method params];
    simpl; eauto.
Qed.

(** A frame written, followed by anything, is read back as the message. *)
Lemma readMessage_serializeMessage m rest :
  Framing.readMessage (Framing.serializeMessage m ++ rest)
  = Some (Framing.Parsed m, rest).
Proof.
  unfold Framing.readMessage, Framing.serializeMessage.
  rewrite <- app_assoc. simpl app.
  rewrite (cutLine_app _ _ (print_inline _)).
  destruct (to_json_object m) as [members E].
  assert (Hline : Framing.stripCR (print (Framing.to_json m))
                  = print (Framing.to_json m)).
  { rewrite E, print_Obj.
    change ("{"%char :: fields members ++ ["}"%char])
      with (("{"%char :: fields members) ++ ["}"%char]).
    by apply stripCR_snoc. }
  rewrite Hline. fold (stringify (Framing.to_json m)).
  rewrite parse_stringify. simpl. by rewrite of_json_to_json.
Qed.

End JsonFacts.

(** C7. A Response written by the framing layer and read back from the
    bytes produced, whatever bytes follow the frame, is the same message:
    the same id and the same result or error. *)
Theorem C7_response_round_trip
    (i : Framing.id) (p : Framing.payload) (rest : list ascii) :
  Framing.readMessage
    (Framing.serializeMessage (Framing.Response i p) ++ rest)
  = Some (Framing.Parsed (Framing.Response i p), rest).
Proof. apply JsonFacts.readMessage_serializeMessage. Qed.

(** An error result of a tool, as a response on the wire: the line break of
    the text is escaped, and the frame is one line. *)
Example frame_of_tool_error :
  Json.text (Framing.serializeMessage
    (Framing.Response (Framing.IdNumber 7)
       (Framing.Result (Json.Obj [
          ("content", Json.Arr [Json.Obj [
             ("type", Json.Str "text");
             ("text", Json.Str ("ERROR: a" +:+ Str.nl +:+ "b"))]]);
          ("isError", Json.Bool true)]))))
  = "{" +:+ Json.text (Json.quote "jsonrpc") +:+ ":" +:+
    Json.text (Json.quote "2.0") +:+ "," +:+
    Json.text (Json.quote "id") +:+ ":7," +:+
    Json.text (Json.quote "result") +:+ ":{" +:+
    Json.text (Json.quote "content") +:+ ":[{" +:+
    Json.text (Json.quote "type") +:+ ":" +:+
    Json.text (Json.quote "text") +:+ "," +:+
    Json.text (Json.quote "text") +:+ ":" +:+
    Json.text (Str.dquote :: Json.bytes "ERROR: a\nb" ++ [Str.dquote]) +:+
    "}]," +:+ Json.text (Json.quote "isError") +:+ ":true}}" +:+ Str.nl.
Proof. vm_compute. reflexivity. Qed.

(* ===================================================================== *)
(** * Further properties of the tools, resources and prompts *)
(* ===================================================================== *)

Module SplitFacts.
Import Str StrFacts Abs.

Lemma no_slash_cons x c :
  no_slash (String x c) = negb (bool_decide (x = slash)) && no_slash c.
Proof. reflexivity. Qed.

Lemma split_go_piece (x s cur : string) :
  no_slash x = true ->
  split_go slash (x +:+ s) cur = split_go slash s (rev_onto x cur).
Proof.
  revert cur. induction x as [|a x IH]; intros cur H; [done|].
  rewrite no_slash_cons in H. apply andb_prop in H as [Ha Hx].
  rewrite app_cons. simpl. apply negb_true_iff in Ha. rewrite Ha.
  by apply IH.
Qed.

Lemma split_go_sep (s cur : string) :
  split_go slash (String slash s) cur = rev cur :: split_go slash s "".
Proof. cbn [split_go]. by rewrite bool_decide_eq_true_2. Qed.

Lemma rev_rev_onto x : rev (rev_onto x "") = x.
Proof. apply rev_involutive. Qed.

Lemma split_piece_sep (x s : string) :
  no_slash x = true ->
  split_go slash (x +:+ String slash s) "" = x :: split_go slash s "".
Proof.
  intros H. rewrite split_go_piece by done. rewrite split_go_sep.
  by rewrite rev_rev_onto.
Qed.

Lemma split_piece (x : string) :
  no_slash x = true -> split_go slash x "" = [x].
Proof.
  intros H. rewrite <- (app_nil_r x) at 1. rewrite split_go_piece by done.
  simpl. by rewrite rev_rev_onto.
Qed.

(** Splitting what [join] made gives the pieces back. *)
Lemma split_join (segs : list string) :
  Forall (fun c => no_slash c = true) segs -> segs <> [] ->
  split slash (join "/" segs) = segs.
Proof.
  unfold split. induction 1 as [|x l Hx Hl IH]; [done|]. intros _.
  destruct l as [|y l].
  - simpl. by apply split_piece.
  - change (join "/" (x :: y :: l)) with (x +:+ "/" +:+ join "/" (y :: l)).
    rewrite app_cons, app_nil_l.
    change (String "/" ?s) with (String slash s).
    rewrite split_piece_sep by done. f_equal. by apply IH.
Qed.

(** ... and a separator at the end leaves one empty piece more. *)
Lemma split_join_trailing (segs : list string) :
  Forall (fun c => no_slash c = true) segs -> segs <> [] ->
  split slash (join "/" segs +:+ "/") = segs ++ [""].
Proof.
  unfold split. induction 1 as [|x l Hx Hl IH]; [done|]. intros _.
  destruct l as [|y l].
  - simpl join. change (x +:+ "/") with (x +:+ String slash "").
    rewrite split_piece_sep by done. done.
  - change (join "/" (x :: y :: l)) with (x +:+ "/" +:+ join "/" (y :: l)).
    rewrite !app_assoc. rewrite app_cons, app_nil_l.
    change (String "/" ?s) with (String slash s).
    rewrite split_piece_sep by done. simpl. f_equal. by apply IH.
Qed.

Lemma no_slash_rev_onto (x acc : string) :
  no_slash (rev_onto x acc) = no_slash x && no_slash acc.
Proof.
  revert acc. induction x as [|a x IH]; intros acc; [done|].
  cbn [rev_onto]. rewrite IH, !no_slash_cons.
  by destruct (negb _), (no_slash x), (no_slash acc).
Qed.

Lemma no_slash_rev (x : string) : no_slash (rev x) = no_slash x.
Proof. unfold rev. rewrite no_slash_rev_onto. apply andb_true_r. Qed.

(** The pieces of a split hold no separator. *)
Lemma split_go_no_slash (s cur : string) :
  no_slash cur = true ->
  Forall (fun c => no_slash c = true) (split_go slash s cur).
Proof.
  revert cur. induction s as [|a s IH]; intros cur Hcur; cbn [split_go].
  - constructor; [by rewrite no_slash_rev | constructor].
  - destruct (bool_decide (a = slash)) eqn:Ha.
    + constructor; [by rewrite no_slash_rev | by apply IH].
    + apply IH. rewrite no_slash_cons, Ha. done.
Qed.

Lemma split_no_slash (s : string) :
  Forall (fun c => no_slash c = true) (split slash s).
Proof. by apply split_go_no_slash. Qed.

Lemma name_ok_inv c :
  name_ok c = true ->
  eqb c "" = false /\ eqb c "." = false /\ eqb c ".." = false /\
  no_slash c = true.
Proof.
  unfold name_ok. intros H.
  repeat (apply andb_prop in H as [H ?]).
  repeat split; try done; by apply negb_true_iff.
Qed.

End SplitFacts.

Module NormFacts.
Import Path Abs SplitFacts.

(** Normalising below the root keeps names only. *)
Lemma normSegs_ok comps acc :
  Forall (fun c => no_slash c = true) comps ->
  Forall (fun c => name_ok c = true) acc ->
  Forall (fun c => name_ok c = true) (normSegs false comps acc).
Proof.
  intros Hc. revert acc. induction Hc as [|c comps Hx Hl IH]; intros acc Hacc.
  - cbn [normSegs]. by apply Forall_reverse.
  - cbn [normSegs].
    destruct (Str.eqb c "") eqn:E1; [by apply IH|].
    destruct (Str.eqb c ".") eqn:E2; [by apply IH|]. cbn [orb].
    destruct (Str.eqb c "..") eqn:E3.
    + destruct acc as [|last acc']; [by apply IH|].
      destruct (Str.eqb last ".."); apply IH; [done|].
      by inversion Hacc.
    + apply IH. constructor; [|done].
      unfold name_ok. by rewrite E1, E2, E3, Hx.
Qed.

(** Names are kept as they come. *)
Lemma normSegs_names b l1 l2 acc :
  Forall (fun c => name_ok c = true) l1 ->
  normSegs b (l1 ++ l2) acc = normSegs b l2 (reverse l1 ++ acc).
Proof.
  intros H. revert acc. induction H as [|c l1 Hc Hl IH]; intros acc; [done|].
  cbn [app normSegs].
  destruct (name_ok_inv _ Hc) as (-> & -> & -> & _). cbn [orb].
  rewrite IH, reverse_cons, <- app_assoc. done.
Qed.

Lemma normSegs_empty b l acc : normSegs b ("" :: l) acc = normSegs b l acc.
Proof. reflexivity. Qed.


Lemma name_ok_no_slash l :
  Forall (fun c => name_ok c = true) l ->
  Forall (fun c => no_slash c = true) l.
Proof.
  intros H. eapply Forall_impl; [exact H|].
  intros c Hc. by destruct (name_ok_inv _ Hc) as (_ & _ & _ & ?).
Qed.

(** The pieces of an absolute normalised path. *)
Lemma split_path_of segs :
  Forall (fun c => name_ok c = true) segs -> segs <> [] ->
  Str.split Str.slash (path_of segs) = "" :: segs.
Proof.
  intros H Hne. unfold path_of, Str.split.
  rewrite StrFacts.app_cons, StrFacts.app_nil_l.
  change (String "/" ?s) with (String Str.slash s).
  rewrite split_go_sep. f_equal.
  apply split_join; [by apply name_ok_no_slash | done].
Qed.


(** [path.resolve] leaves an absolute normalised path as it is, whatever
    the working directory. *)
Lemma resolve_path_of cwd a segs :
  Forall (fun c => name_ok c = true) segs ->
  resolve cwd [VString a; VString (path_of segs)] = Returned (path_of segs).
Proof.
  intros H. unfold resolve.
  change (reverse [VString a; VString (path_of segs)])
    with [VString (path_of segs); VString a].
  cbn [resolve_go].
  change (Str.eqb (path_of segs) "") with false.
  change (isAbsolute (path_of segs)) with true. cbv iota.
  cbn [Js.obind negb]. f_equal. unfold path_of at 2. f_equal.
  unfold normalizeString. f_equal.
  destruct segs as [|x l]; [reflexivity|].
  unfold Str.split, path_of.
  rewrite StrFacts.app_assoc, StrFacts.app_cons, StrFacts.app_nil_l.
  change (String "/" ?s) with (String Str.slash s).
  rewrite split_go_sep. change (Str.split_go Str.slash ?s "") with (Str.split Str.slash s).
  rewrite StrFacts.app_nil_r.
  rewrite split_join_trailing; [|by apply name_ok_no_slash|done].
  rewrite normSegs_empty, normSegs_names by done. rewrite normSegs_empty.
  cbn [normSegs]. by rewrite app_nil_r, reverse_involutive.
Qed.

(** In a process whose working directory is absolute, [path.resolve] gives
    an absolute normalised path. *)
Lemma resolve_shape cwd s p :
  isAbsolute cwd = true ->
  resolve cwd [VString cwd; VString s] = Returned p ->
  exists segs, Forall (fun c => name_ok c = true) segs /\ p = path_of segs.
Proof.
  intros Habs. unfold resolve.
  change (reverse [VString cwd; VString s]) with [VString s; VString cwd].
  assert (Hgo : exists r, resolve_go [VString s; VString cwd] cwd "" = Returned (r, true)).
  { cbn [resolve_go]. destruct (Str.eqb s "").
    - assert (Str.eqb cwd "" = false) as ->.
      { destruct cwd; [done|]. by apply bool_decide_eq_false_2. }
      rewrite Habs. eauto.
    - destruct (isAbsolute s); [eauto|].
      assert (Str.eqb cwd "" = false) as ->.
      { destruct cwd; [done|]. by apply bool_decide_eq_false_2. }
      rewrite Habs. eauto. }
  destruct Hgo as [r ->]. cbn [Js.obind negb]. intros [= <-].
  exists (normSegs false (Str.split Str.slash r) []). split; [|done].
  apply normSegs_ok; [apply split_no_slash | constructor].
Qed.

End NormFacts.

Module TreeFacts.
Import Fs Abs SplitFacts NormFacts.

Lemma eqb_eq a b : Str.eqb a b = true <-> a = b.
Proof. unfold Str.eqb. apply bool_decide_eq_true. Qed.

Lemma eqb_refl a : Str.eqb a a = true.
Proof. by apply eqb_eq. Qed.

Lemma eqb_neq a b : a <> b -> Str.eqb a b = false.
Proof. intros H. unfold Str.eqb. by apply bool_decide_eq_false. Qed.

Lemma assoc_set_entry s c es : assoc s (set_entry s c es) = Some c.
Proof.
  induction es as [|[k v] es IH]; cbn [set_entry assoc].
  - by rewrite eqb_refl.
  - destruct (Str.eqb k s) eqn:E; cbn [assoc]; rewrite E; done.
Qed.

Lemma assoc_set_entry_ne k s c es :
  k <> s -> assoc k (set_entry s c es) = assoc k es.
Proof.
  intros Hne. induction es as [|[k' v] es IH]; cbn [set_entry assoc].
  - rewrite eqb_neq; done.
  - destruct (Str.eqb k' s) eqn:E; cbn [assoc].
    + apply eqb_eq in E. subst k'. rewrite !eqb_neq; done.
    + by rewrite IH.
Qed.

Lemma assoc_del_entry_ne k s es :
  k <> s -> assoc k (del_entry s es) = assoc k es.
Proof.
  intros Hne. induction es as [|[k' v] es IH]; cbn [del_entry assoc]; [done|].
  destruct (Str.eqb k' s) eqn:E; cbn [assoc].
  - apply eqb_eq in E. subst k'. rewrite eqb_neq; done.
  - by rewrite IH.
Qed.

Lemma assoc_None_notin s es :
  assoc s es = None -> s ∉ map fst es.
Proof.
  induction es as [|[k v] es IH]; cbn [assoc map fst]; [set_solver|].
  destruct (Str.eqb k s) eqn:E; [done|]. intros H.
  apply not_elem_of_cons. split; [|by apply IH].
  intros ->. by rewrite eqb_refl in E.
Qed.

Lemma notin_assoc_None s es :
  s ∉ map fst es -> assoc s es = None.
Proof.
  induction es as [|[k v] es IH]; cbn [assoc map fst]; [done|].
  intros H. apply not_elem_of_cons in H as [Hne H].
  rewrite eqb_neq by done. by apply IH.
Qed.

Lemma assoc_del_entry s es :
  NoDup (map fst es) -> assoc s (del_entry s es) = None.
Proof.
  induction es as [|[k v] es IH]; cbn [del_entry assoc map fst]; [done|].
  intros H. apply NoDup_cons in H as [Hk H].
  destruct (Str.eqb k s) eqn:E; cbn [assoc].
  - apply eqb_eq in E. subst k. by apply notin_assoc_None.
  - rewrite E. by apply IH.
Qed.

Lemma get_app n l1 l2 :
  get n (l1 ++ l2) = get n l1 ≫= fun m => get m l2.
Proof.
  revert n. induction l1 as [|s l1 IH]; intros n; [done|].
  cbn [app get]. destruct n as [| a m es |]; try done.
  destruct (assoc s es); [apply IH | done].
Qed.

Lemma get_cons_inv n s l x :
  get n (s :: l) = Some x ->
  exists a m es c, n = Dir a m es /\ assoc s es = Some c /\ get c l = Some x.
Proof.
  cbn [get]. destruct n as [| a m es |]; try done.
  destruct (assoc s es) as [c|] eqn:E; [|done]. eauto 10.
Qed.

(** A lookup of names goes down one name at a time. *)
Lemma walk_names r cur segs x :
  Forall (fun c => name_ok c = true) segs ->
  get r (cur ++ segs) = Some x ->
  walk r cur segs = inr (cur ++ segs).
Proof.
  intros H. revert cur. induction H as [|c segs Hc Hs IH]; intros cur Hget.
  - by rewrite app_nil_r.
  - cbn [walk]. rewrite get_app in Hget.
    destruct (get r cur) as [m|] eqn:Hcur; [|done]. cbn in Hget.
    destruct (get_cons_inv _ _ _ _ Hget) as (a & m' & es & ch & -> & Has & Hx).
    destruct (name_ok_inv _ Hc) as (-> & -> & -> & _). cbn [orb].
    assert (Hch : get r (cur ++ [c]) = Some ch).
    { rewrite get_app, Hcur. cbn. by rewrite Has. }
    rewrite Hch.
    replace (cur ++ c :: segs) with ((cur ++ [c]) ++ segs)
      by by rewrite <- app_assoc.
    apply IH. rewrite get_app, Hch. done.
Qed.

Lemma walk_names_inv r cur segs x :
  Forall (fun c => name_ok c = true) segs ->
  walk r cur segs = inr x ->
  x = cur ++ segs /\ (segs <> [] -> is_Some (get r x)).
Proof.
  intros H. revert cur. induction H as [|c segs Hc Hs IH]; intros cur.
  - cbn [walk]. intros [= <-]. by rewrite app_nil_r.
  - cbn [walk]. destruct (get r cur) as [[| a m es |]|] eqn:Hcur; try done.
    destruct (name_ok_inv _ Hc) as (-> & -> & -> & _). cbn [orb].
    destruct (get r (cur ++ [c])) as [y|] eqn:Hy; [|done].
    intros Hw. destruct (IH _ Hw) as [-> Hsome].
    split; [by rewrite <- app_assoc|]. intros _.
    destruct segs as [|s segs]; [|by apply Hsome].
    rewrite app_nil_r, Hy. eauto.
Qed.

(** Where an absolute normalised path leads. *)
Lemma locate_path_of w segs n :
  Forall (fun c => name_ok c = true) segs -> segs <> [] ->
  locate w (path_of segs) = inr n <-> get (root w) segs = Some n.
Proof.
  intros H Hne. unfold locate, namei.
  change (Str.eqb (path_of segs) "") with false. cbv iota.
  change (start w (path_of segs)) with (@nil string).
  rewrite split_path_of by done.
  change ("" :: segs) with ([""] ++ segs). rewrite FsFacts.walk_app.
  split.
  - cbn [walk]. destruct (get (root w) []) as [[| a m es |]|] eqn:Hr; try done.
    change (Str.eqb "" "") with true. cbn [orb].
    destruct (walk (root w) [] segs) as [e|x] eqn:Hw; [done|].
    destruct (walk_names_inv _ _ _ _ H Hw) as [-> _]. cbn [app].
    destruct (get (root w) segs); [|done]. by intros [= ->].
  - intros Hget. cbn [walk].
    destruct segs as [|s segs]; [done|].
    destruct (get_cons_inv _ _ _ _ Hget) as (a & m & es & c & Hroot & _).
    cbn [get]. rewrite Hroot.
    change (Str.eqb "" "") with true. cbn [orb].
    rewrite <- Hroot.
    rewrite (walk_names (root w) [] (s :: segs) n H Hget).
    cbn [app]. by rewrite Hget.
Qed.

Lemma elem_of_removelast {A} (c : A) l : c ∈ removelast l -> c ∈ l.
Proof.
  induction l as [|a [|b l] IH]; cbn [removelast]; intros Hc.
  - done.
  - by apply elem_of_nil in Hc.
  - apply elem_of_cons in Hc as [->|Hc]; [left | right; by apply IH].
Qed.

Lemma removelast_last {A} (l : list A) x :
  last l = Some x -> removelast l ++ [x] = l.
Proof.
  induction l as [|a [|b l] IH]; [done| |].
  - cbn. by intros [= ->].
  - intros Hlast. cbn [removelast app]. f_equal. by apply IH.
Qed.

(** Where a path about to be written is. *)
Lemma target_path_of w segs x :
  Forall (fun c => name_ok c = true) segs ->
  target w (path_of segs) = inr x -> x = segs.
Proof.
  intros H. unfold target.
  destruct segs as [|s0 segs0] eqn:Hs.
  - cbn. by intros [= <-].
  - rewrite <- Hs in *. assert (Hne : segs <> []) by by rewrite Hs.
    rewrite split_path_of by done.
    assert (Hf : filter (fun c => c <> "") ("" :: segs) = segs).
    { rewrite filter_cons_False by (intros Hc; by apply Hc).
      clear Hne Hs. induction H as [|c l Hc Hl IH]; [done|].
      rewrite filter_cons_True; [by rewrite IH|].
      destruct (name_ok_inv _ Hc) as (E & _). intros Hc'.
      rewrite Hc', eqb_refl in E. discriminate E. }
    rewrite Hf.
    destruct (last segs) as [name|] eqn:Hlast.
    2:{ apply last_None in Hlast. done. }
    change (start w (path_of segs)) with (@nil string).
    destruct (walk (root w) [] (removelast segs)) as [e|parent] eqn:Hw; [done|].
    intros [= <-].
    assert (Hrl : Forall (fun c => name_ok c = true) (removelast segs)).
    { rewrite Forall_forall in *. intros c Hc. apply H.
      by apply elem_of_removelast. }
    destruct (walk_names_inv _ _ _ _ Hrl Hw) as [-> _]. cbn [app].
    by apply removelast_last.
Qed.


(** What a successful write leaves at the path. *)
Lemma alter_write n segs w put n' :
  alter_at n segs (write_entry w put) = inr n' ->
  exists m old,
    get n' segs = Some (File true m (put old)) /\
    (get n segs = Some (File true m old) \/
     (get n segs = None /\ old = "" /\ m = fresh_meta w 420)).
Proof.
  revert n n'. induction segs as [|s rest IH]; intros n n'; [done|].
  cbn [alter_at]. destruct n as [| a m es |]; try done.
  destruct rest as [|r rest'].
  - destruct (assoc s es) as [[[|] m0 data| |]|] eqn:Has; cbn [write_entry];
      try done.
    + intros [= <-]. exists m0, data. cbn [get].
      rewrite assoc_set_entry, Has. eauto.
    + destruct a; [|done]. intros [= <-]. eexists _, "". cbn [get].
      rewrite assoc_set_entry, Has. eauto.
  - destruct (assoc s es) as [c|] eqn:Has; [|done].
    destruct (alter_at c (r :: rest') _) as [e|c'] eqn:Hc; [done|].
    intros [= <-]. destruct (IH _ _ Hc) as (m0 & old & Hget & Hold).
    exists m0, old. cbn [get] in *. rewrite assoc_set_entry, Has. eauto.
Qed.

(** An operation that refuses directories leaves the other files alone. *)
Lemma alter_frame n segs f n' l a0 m0 d :
  (forall a b m es, exists e, f a (Some (Dir b m es)) = inl e) ->
  alter_at n segs f = inr n' -> l <> segs ->
  get n l = Some (File a0 m0 d) -> get n' l = Some (File a0 m0 d).
Proof.
  intros Hf. revert n n' l. induction segs as [|s rest IH]; intros n n' l;
    [done|].
  cbn [alter_at]. destruct n as [| a m es |]; try done.
  intros Halt Hne Hget. destruct l as [|k l']; [done|].
  destruct (get_cons_inv _ _ _ _ Hget) as (? & ? & ? & x & [= <- <- <-] & Hk & Hx).
  destruct (decide (k = s)) as [->|Hks].
  - rewrite Hk in Halt. destruct rest as [|r rest'].
    + destruct l' as [|k' l'']; [done|].
      destruct (get_cons_inv _ _ _ _ Hx) as (b & mx & esx & ? & -> & _).
      destruct (Hf a b mx esx) as [e He]. by rewrite He in Halt.
    + destruct (alter_at x (r :: rest') f) as [e|c'] eqn:Hc; [done|].
      injection Halt as <-. cbn [get]. rewrite assoc_set_entry.
      eapply IH; [exact Hc | congruence | done].
  - assert (Hn' : exists es', n' = Dir a m es' /\ assoc k es' = assoc k es).
    { destruct rest as [|r rest'].
      - destruct (f a (assoc s es)) as [e|[c|]]; [done| |]; injection Halt as <-;
          eexists; (split; [done|]).
        + by apply assoc_set_entry_ne.
        + by apply assoc_del_entry_ne.
      - destruct (assoc s es) as [c|]; [|done].
        destruct (alter_at c _ f) as [e|c']; [done|]. injection Halt as <-.
        eexists; (split; [done|]). by apply assoc_set_entry_ne. }
    destruct Hn' as (es' & -> & Hes'). cbn [get]. by rewrite Hes', Hk.
Qed.

Lemma write_entry_dir w put a b m es :
  exists e, write_entry w put a (Some (Dir b m es)) = inl e.
Proof. cbn. eauto. Qed.

Lemma unlink_entry_dir a b m es :
  exists e, unlink_entry a (Some (Dir b m es)) = inl e.
Proof. cbn. eauto. Qed.

(** Making directories leaves the files alone. *)
Lemma mkdirp_frame n segs fresh n' l a0 m0 d :
  mkdirp n segs fresh = inr n' ->
  get n l = Some (File a0 m0 d) -> get n' l = Some (File a0 m0 d).
Proof.
  revert n n' l. induction segs as [|s rest IH]; intros n n' l.
  - cbn [mkdirp]. destruct n; try done. by intros [= <-].
  - cbn [mkdirp]. destruct n as [| a m es |]; try done.
    intros Hmk Hget. destruct l as [|k l']; [done|].
    destruct (get_cons_inv _ _ _ _ Hget) as (? & ? & ? & x & [= <- <- <-] & Hk & Hx).
    destruct (assoc s es) as [c|] eqn:Has.
    + destruct (mkdirp c rest fresh) as [e|c'] eqn:Hc; [done|].
      injection Hmk as <-. cbn [get].
      destruct (decide (k = s)) as [->|Hks].
      * rewrite assoc_set_entry. rewrite Has in Hk. injection Hk as ->.
        by eapply IH.
      * rewrite assoc_set_entry_ne, Hk by done. done.
    + destruct a; [|done].
      destruct (mkdirp (Dir true fresh []) rest fresh) as [e|c']; [done|].
      injection Hmk as <-. cbn [get].
      rewrite assoc_set_entry_ne, Hk; [done|]. intros ->. congruence.
Qed.

Lemma unique_names_assoc a m es s c :
  Tree.unique_names (Dir a m es) = true -> assoc s es = Some c ->
  Tree.unique_names c = true.
Proof.
  cbn [Tree.unique_names]. intros H. apply andb_prop in H as [_ H].
  induction es as [|[k v] es IH]; cbn [assoc]; [done|].
  apply andb_prop in H as [Hv H].
  destruct (Str.eqb k s); [by intros [= <-] | by apply IH].
Qed.

(** What a successful unlink leaves at the path: nothing. *)
Lemma alter_unlink n segs n' :
  Tree.unique_names n = true ->
  alter_at n segs unlink_entry = inr n' -> get n' segs = None.
Proof.
  revert n n'. induction segs as [|s rest IH]; intros n n' Hwf; [done|].
  cbn [alter_at]. destruct n as [| a m es |]; try done.
  destruct rest as [|r rest'].
  - destruct (unlink_entry a (assoc s es)) as [e|[c|]] eqn:Hu; [done| |].
    + destruct (assoc s es) as [[| |]|]; cbn in Hu; try done;
        by destruct a.
    + intros [= <-]. cbn [get]. rewrite assoc_del_entry; [done|].
      cbn [Tree.unique_names] in Hwf. apply andb_prop in Hwf as [Hnd _].
      by apply bool_decide_eq_true in Hnd.
  - destruct (assoc s es) as [c|] eqn:Has; [|done].
    destruct (alter_at c (r :: rest') _) as [e|c'] eqn:Hc; [done|].
    intros [= <-]. cbn [get]. rewrite assoc_set_entry.
    eapply IH; [|exact Hc]. by eapply unique_names_assoc.
Qed.

End TreeFacts.

Module WorldFacts.
Import Fs Abs TreeFacts.

Lemma mkdirp_frame_inv n segs fresh n' l a0 m0 d :
  mkdirp n segs fresh = inr n' ->
  get n' l = Some (File a0 m0 d) -> get n l = Some (File a0 m0 d).
Proof.
  revert n n' l. induction segs as [|s rest IH]; intros n n' l.
  - cbn [mkdirp]. destruct n; try done. by intros [= <-].
  - cbn [mkdirp]. destruct n as [| a m es |]; try done.
    intros Hmk Hget. destruct l as [|k l'].
    { destruct (assoc s es) as [c|].
      - destruct (mkdirp c rest fresh); [done|]. by injection Hmk as <-.
      - destruct a; [|done]. destruct (mkdirp _ rest fresh); [done|].
        by injection Hmk as <-. }
    destruct (assoc s es) as [c|] eqn:Has.
    + destruct (mkdirp c rest fresh) as [e|c'] eqn:Hc; [done|].
      injection Hmk as <-. cbn [get] in *.
      destruct (decide (k = s)) as [->|Hks].
      * rewrite assoc_set_entry in Hget. rewrite Has. by eapply IH.
      * by rewrite assoc_set_entry_ne in Hget.
    + destruct a; [|done].
      destruct (mkdirp (Dir true fresh []) rest fresh) as [e|c'] eqn:Hc;
        [done|].
      injection Hmk as <-. cbn [get] in *.
      destruct (decide (k = s)) as [->|Hks].
      * rewrite assoc_set_entry in Hget.
        pose proof (IH _ _ _ Hc Hget) as Hbad.
        destruct l'; [done|]. done.
      * by rewrite assoc_set_entry_ne in Hget.
Qed.

Lemma mkdir_recursive_inv w p w1 :
  mkdir_recursive w p = Returned w1 ->
  cwd w1 = cwd w /\
  forall l a m d,
    get (root w1) l = Some (File a m d) <-> get (root w) l = Some (File a m d).
Proof.
  unfold mkdir_recursive.
  destruct (mkdirp (root w) _ _) as [e|r] eqn:Hmk; [done|].
  intros [= <-]. split; [done|]. intros l a m d. cbn [root with_root].
  split; [by eapply mkdirp_frame_inv | by eapply mkdirp_frame].
Qed.

(** What [writeFile] and [appendFile] leave. *)
Lemma write_with_inv w segs text put w2 :
  Forall (fun c => name_ok c = true) segs ->
  write_with w (path_of segs) (VString text) put = Returned w2 ->
  cwd w2 = cwd w /\
  (exists m old,
     get (root w2) segs = Some (File true m (put text old)) /\
     (get (root w) segs = Some (File true m old) \/
      (get (root w) segs = None /\ old = ""))) /\
  (forall l a m d, l <> segs ->
     get (root w) l = Some (File a m d) ->
     get (root w2) l = Some (File a m d)).
Proof.
  intros Hsegs. unfold write_with.
  destruct (target w (path_of segs)) as [e|x] eqn:Ht; [done|].
  apply target_path_of in Ht as ->; [|done].
  destruct (alter_at (root w) segs _) as [e|r] eqn:Ha; [done|].
  intros [= <-]. split; [done|]. cbn [root with_root]. split.
  - destruct (alter_write _ _ _ _ _ Ha) as (m & old & Hget & Hold).
    exists m, old. split; [done|]. destruct Hold as [?|(? & ? & ?)]; eauto.
  - intros l a m d Hne Hget. eapply alter_frame; [|exact Ha|done|done].
    intros. apply write_entry_dir.
Qed.

Lemma segs_nonempty_of_file n segs a m d :
  get n segs = Some (File a m d) -> (exists b m' es, n = Dir b m' es) ->
  segs <> [].
Proof. intros Hget (b & m' & es & ->) ->. done. Qed.

Lemma alter_at_nonempty n segs f n' : alter_at n segs f = inr n' -> segs <> [].
Proof. by destruct segs. Qed.


(** The directory of a changed entry is a directory afterwards. *)
Lemma alter_parent n segs f n' :
  alter_at n segs f = inr n' ->
  exists a m es, get n' (removelast segs) = Some (Dir a m es).
Proof.
  revert n n'. induction segs as [|s rest IH]; intros n n'; [done|].
  cbn [alter_at]. destruct n as [| a m es |]; try done.
  destruct rest as [|r rest'].
  - destruct (f a (assoc s es)) as [e|[c|]]; [done| |]; intros [= <-];
      cbn; eauto.
  - destruct (assoc s es) as [c|] eqn:Has; [|done].
    destruct (alter_at c (r :: rest') f) as [e|c'] eqn:Hc; [done|].
    intros [= <-]. destruct (IH _ _ Hc) as (a' & m' & es' & Hget).
    exists a', m', es'.
    change (removelast (s :: r :: rest')) with (s :: removelast (r :: rest')).
    cbn [get]. by rewrite assoc_set_entry.
Qed.

(** What [unlink] leaves. *)
Lemma unlink_inv w segs w1 :
  Forall (fun c => name_ok c = true) segs ->
  unlink w (path_of segs) = Returned w1 ->
  cwd w1 = cwd w /\
  (Tree.unique_names (root w) = true ->
   locate w1 (path_of segs) = inl ENOENT) /\
  (forall l a m d, l <> segs ->
     get (root w) l = Some (File a m d) ->
     get (root w1) l = Some (File a m d)).
Proof.
  intros Hsegs. unfold unlink.
  destruct (target w (path_of segs)) as [e|x] eqn:Ht; [done|].
  apply target_path_of in Ht as ->; [|done].
  destruct (alter_at (root w) segs _) as [e|r] eqn:Ha; [done|].
  intros [= <-]. split; [done|]. cbn [root with_root]. split.
  - intros Hwf. pose proof (alter_unlink _ _ _ Hwf Ha) as Hnone.
    destruct (alter_parent _ _ _ _ Ha) as (a & m & es & Hpar).
    pose proof (alter_at_nonempty _ _ _ _ Ha) as Hne.
    unfold locate, namei.
    change (Str.eqb (path_of segs) "") with false. cbv iota.
    change (start _ (path_of segs)) with (@nil string).
    rewrite NormFacts.split_path_of by done. cbn [root with_root].
    destruct (last segs) as [name|] eqn:Hlast.
    2:{ by apply last_None in Hlast. }
    pose proof (removelast_last _ _ Hlast) as Hsplit.
    assert (Hrl : Forall (fun c => name_ok c = true) (removelast segs)).
    { rewrite Forall_forall in *. intros c Hc. apply Hsegs.
      by apply elem_of_removelast. }
    assert (Hname : name_ok name = true).
    { rewrite Forall_forall in Hsegs. apply Hsegs. rewrite <- Hsplit.
      apply elem_of_app. right. by left. }
    assert (Hroot : walk r [] [""] = inr []).
    { destruct (removelast segs) as [|s0 l0] eqn:E.
      - by injection Hpar as ->.
      - by destruct (get_cons_inv _ _ _ _ Hpar) as (? & ? & ? & ? & -> & _). }
    change ("" :: segs) with ([""] ++ segs).
    rewrite FsFacts.walk_app, Hroot.
    rewrite <- Hsplit, FsFacts.walk_app.
    rewrite (walk_names r [] (removelast segs) _ Hrl Hpar). cbn [app walk].
    rewrite Hpar.
    destruct (SplitFacts.name_ok_inv _ Hname) as (-> & -> & -> & _).
    cbn [orb]. rewrite Hsplit, Hnone. done.
  - intros l a m d Hne Hget. eapply alter_frame; [|exact Ha|done|done].
    intros. apply unlink_entry_dir.
Qed.

End WorldFacts.

Module RunFacts.
Import Fs Tools Abs.

(** The tools, once the path is known to be a string. *)
Lemma read_file_run w args s p :
  args !! "path" = Some (VString s) ->
  Path.resolve (cwd w) [VString (cwd w); VString s] = Returned p ->
  handler readFileTool args w =
  (match stat w p with
   | Thrown e => Returned (err ("Could not read file: " +:+ Js.message e))
   | Returned stats =>
       if isDirectory stats then
         Returned (err ("'" +:+ p +:+
                        "' is a directory. Use list_directory instead."))
       else
         let encoding :=
           Js.nullish (Js.prop args "encoding") (VString "utf8") in
         match readFile w p encoding with
         | Thrown e =>
             Returned (err ("Could not read file: " +:+ Js.message e))
         | Returned content =>
             Returned (ok ("File: " +:+ p +:+ Str.nl +:+
                           "Size: " +:+ Num.toFixed_KB 2 (size stats) +:+
                           " KB" +:+ Str.nl +:+
                           "Encoding: " +:+ Js.show encoding +:+ Str.nl +:+
                           Str.nl +:+ "--- Content ---" +:+ Str.nl +:+
                           content))
         end
   end, w).
Proof.
  intros Hs Hp. cbn [handler readFileTool].
  unfold safePath, Js.tryCatch, Js.bind, Js.reading, Js.ret.
  unfold Js.prop at 1. rewrite Hs. cbn [default from_option id]. rewrite Hp.
  destruct (stat w p) as [st|e]; [|done].
  destruct (isDirectory st); [done|].
  by destruct (readFile w p _).
Qed.

Lemma write_file_run w args s p :
  args !! "path" = Some (VString s) ->
  Path.resolve (cwd w) [VString (cwd w); VString s] = Returned p ->
  handler writeFileTool args w =
  match mkdir_recursive w (Path.dirname p) with
  | Thrown e => (Returned (err ("Could not write file: " +:+ Js.message e)), w)
  | Returned w1 =>
      let content := Js.prop args "content" in
      let append :=
        Js.truthy (Js.nullish (Js.prop args "append") (VBool false)) in
      match (if append then appendFile w1 p content
             else writeFile w1 p content) with
      | Thrown e =>
          (Returned (err ("Could not write file: " +:+ Js.message e)), w1)
      | Returned w2 =>
          (match Js.show_length content with
           | Returned len =>
               Returned (ok ((if append then "Appended " else "Wrote ") +:+
                             len +:+ " characters to '" +:+ p +:+ "'."))
           | Thrown e =>
               Returned (err ("Could not write file: " +:+ Js.message e))
           end, w2)
      end
  end.
Proof.
  intros Hs Hp. cbn [handler writeFileTool].
  unfold safePath, Js.tryCatch, Js.bind, Js.reading, Js.writing, Js.pure,
    Js.ret.
  unfold Js.prop at 1. rewrite Hs. cbn [default from_option id]. rewrite Hp.
  destruct (mkdir_recursive w _) as [w1|e]; [|done].
  cbv zeta. destruct (Js.truthy _).
  - destruct (appendFile w1 p _) as [w2|e]; [|done].
    by destruct (Js.show_length _).
  - destruct (writeFile w1 p _) as [w2|e]; [|done].
    by destruct (Js.show_length _).
Qed.

Lemma get_file_info_run w args s p :
  args !! "path" = Some (VString s) ->
  Path.resolve (cwd w) [VString (cwd w); VString s] = Returned p ->
  exists info,
  handler getFileInfoTool args w =
  (match stat w p with
   | Thrown e => Returned (err ("Could not stat path: " +:+ Js.message e))
   | Returned stats => Returned (ok (info stats))
   end, w).
Proof.
  intros Hs Hp. eexists (fun stats => _). cbn [handler getFileInfoTool].
  unfold safePath, Js.tryCatch, Js.bind, Js.reading, Js.ret.
  unfold Js.prop at 1. rewrite Hs. cbn [default from_option id]. rewrite Hp.
  destruct (stat w p) as [st|e]; [|done]. reflexivity.
Qed.

Lemma delete_file_run w args s p :
  args !! "path" = Some (VString s) ->
  Path.resolve (cwd w) [VString (cwd w); VString s] = Returned p ->
  handler deleteFileTool args w =
  match stat w p with
  | Thrown e =>
      (Returned (err ("Could not delete file: " +:+ Js.message e)), w)
  | Returned stats =>
      if isDirectory stats then
        (Returned (err ("'" +:+ p +:+
                        "' is a directory. This tool only deletes files.")),
         w)
      else
        match unlink w p with
        | Thrown e =>
            (Returned (err ("Could not delete file: " +:+ Js.message e)), w)
        | Returned w1 =>
            (Returned (ok ("Deleted file: '" +:+ p +:+ "'.")), w1)
        end
  end.
Proof.
  intros Hs Hp. cbn [handler deleteFileTool].
  unfold safePath, Js.tryCatch, Js.bind, Js.reading, Js.writing, Js.ret.
  unfold Js.prop at 1. rewrite Hs. cbn [default from_option id]. rewrite Hp.
  destruct (stat w p) as [st|e]; [|done].
  destruct (isDirectory st); [done|].
  by destruct (unlink w p).
Qed.

End RunFacts.

Module ReadFacts.
Import Fs Tools Abs TreeFacts WorldFacts NormFacts RunFacts.

Lemma stat_locate w w' p : locate w p = locate w' p -> stat w p = stat w' p.
Proof. unfold stat. by intros ->. Qed.

Lemma readFile_locate w w' p enc :
  locate w p = locate w' p -> readFile w p enc = readFile w' p enc.
Proof. unfold readFile, readBuffer. by intros ->. Qed.

(** [read_file] sees the tree through the node its path leads to. *)
Lemma read_file_locate w w' args s p :
  args !! "path" = Some (VString s) ->
  Path.resolve (cwd w) [VString (cwd w); VString s] = Returned p ->
  cwd w' = cwd w -> locate w p = locate w' p ->
  handler readFileTool args w' = (fst (handler readFileTool args w), w').
Proof.
  intros Hs Hp Hcwd Hloc.
  rewrite (read_file_run w args s p Hs Hp).
  rewrite (read_file_run w' args s p Hs) by by rewrite Hcwd.
  cbn [fst]. rewrite (stat_locate _ _ _ Hloc).
  destruct (stat w' p); [|done]. destruct (isDirectory _); [done|].
  cbv zeta. by rewrite (readFile_locate _ _ _ _ Hloc).
Qed.

Lemma root_path_not_file w a m d : locate w (path_of []) <> inr (File a m d).
Proof.
  unfold locate, namei. change (Str.eqb (path_of []) "") with false.
  cbv iota. change (Str.split Str.slash (path_of [])) with [""; ""].
  change (start w (path_of [])) with (@nil string).
  cbn [walk get]. by destruct (root w) eqn:Hr.
Qed.

Lemma locate_file w segs a m d :
  Forall (fun c => name_ok c = true) segs ->
  locate w (path_of segs) = inr (File a m d) <->
  segs <> [] /\ get (root w) segs = Some (File a m d).
Proof.
  intros H. destruct segs as [|s l].
  - split; [intros Hl; by apply root_path_not_file in Hl|].
    intros [Hne _]. by destruct Hne.
  - rewrite locate_path_of by done. split; [by intros H1 | by intros [_ H1]].
Qed.

(** A successful read names a readable file. *)
Lemma readBuffer_inv w p data :
  readBuffer w p = Returned data ->
  exists m, locate w p = inr (File true m data).
Proof.
  unfold readBuffer, read_node.
  destruct (locate w p) as [e|[[|] m d| |]]; try done.
  intros [= <-]. eauto.
Qed.

Lemma readFile_inv w p enc content :
  readFile w p enc = Returned content ->
  exists m data, locate w p = inr (File true m data).
Proof.
  unfold readFile. destruct enc; try done.
  destruct (Buffer.toString s ""); [|done].
  destruct (readBuffer w p) as [data|e] eqn:Hr; [|done].
  intros _. destruct (readBuffer_inv _ _ _ Hr) as [m Hm]. eauto.
Qed.

End ReadFacts.

(* ===================================================================== *)
(** * Writing, reading back and deleting *)
(* ===================================================================== *)



(** Whatever [write_file] or [delete_file] does with one path, a file that
    [read_file] could read at another path reads the same afterwards. *)
Theorem changes_keep_other_files
    (t : Tools.ToolDefinition) (w w' w0 : Fs.World)
    (args args' : gmap string value) (s s' p q : string)
    (out : outcome Tools.ToolResult) (r0 : Tools.ToolResult) :
  t ∈ [Tools.writeFileTool; Tools.deleteFileTool] ->
  Path.isAbsolute (Fs.cwd w) = true ->
  args !! "path" = Some (VString s) ->
  Path.resolve (Fs.cwd w) [VString (Fs.cwd w); VString s] = Returned p ->
  args' !! "path" = Some (VString s') ->
  Path.resolve (Fs.cwd w) [VString (Fs.cwd w); VString s'] = Returned q ->
  q <> p ->
  Tools.handler t args w = (out, w') ->
  Tools.handler Tools.readFileTool args' w = (Returned r0, w0) ->
  Tools.isError r0 = None ->
  Tools.handler Tools.readFileTool args' w' = (Returned r0, w').
Proof.
  intros Ht Habs Hs Hp Hs' Hq Hne Hrun Hread Hok.
  destruct (NormFacts.resolve_shape _ _ _ Habs Hp) as (segs & Hsegs & ->).
  destruct (NormFacts.resolve_shape _ _ _ Habs Hq) as (segs' & Hsegs' & ->).
  assert (Hne' : segs' <> segs) by congruence.
  (* the file read *)
  pose proof Hread as Hread'.
  rewrite (RunFacts.read_file_run w args' s' _ Hs' Hq) in Hread'.
  assert (Hfile : exists a m d,
             Fs.locate w (Abs.path_of segs') = inr (Fs.File a m d)).
  { destruct (Fs.stat w _) as [st|e]; [|by simplify_eq].
    destruct (Fs.isDirectory st); [by simplify_eq|].
    cbv zeta in Hread'.
    destruct (Fs.readFile w _ _) as [content|e] eqn:Hrf; [|by simplify_eq].
    destruct (ReadFacts.readFile_inv _ _ _ _ Hrf) as (m & d & Hl). eauto. }
  destruct Hfile as (a & m & d & Hloc).
  pose proof Hloc as Hget.
  apply ReadFacts.locate_file in Hget as [Hne0 Hget]; [|done].
  (* it is still there *)
  assert (Hafter : Fs.cwd w' = Fs.cwd w /\
                   Fs.get (Fs.root w') segs' = Some (Fs.File a m d)).
  { apply elem_of_cons in Ht as [->|Ht].
    - rewrite (RunFacts.write_file_run w args s _ Hs Hp) in Hrun.
      destruct (Fs.mkdir_recursive w _) as [w1|e] eqn:Hmk;
        [|by simplify_eq].
      destruct (WorldFacts.mkdir_recursive_inv _ _ _ Hmk) as [Hcwd1 Hfiles].
      apply Hfiles in Hget. cbv zeta in Hrun.
      assert (Hw : forall put x,
                 Fs.write_with w1 (Abs.path_of segs) (Js.prop args "content")
                   put = x ->
                 match x with
                 | Returned w2 =>
                     Fs.cwd w2 = Fs.cwd w /\
                     Fs.get (Fs.root w2) segs' = Some (Fs.File a m d)
                 | Thrown _ => True
                 end).
      { intros put [w2|e] Hx; [|done].
        destruct (Js.prop args "content") as [| | | |text|]; try done.
        destruct (WorldFacts.write_with_inv _ _ _ _ _ Hsegs Hx)
          as (Hcwd2 & _ & Hframe).
        split; [congruence|]. by apply Hframe. }
      destruct (Js.truthy _).
      + unfold Fs.appendFile in Hrun.
        destruct (Fs.write_with w1 _ _ _) as [w2|e] eqn:Hx;
          [apply Hw in Hx|]; by simplify_eq.
      + unfold Fs.writeFile in Hrun.
        destruct (Fs.write_with w1 _ _ _) as [w2|e] eqn:Hx;
          [apply Hw in Hx|]; by simplify_eq.
    - apply list_elem_of_singleton in Ht as ->.
      rewrite (RunFacts.delete_file_run w args s _ Hs Hp) in Hrun.
      destruct (Fs.stat w _) as [st|e]; [|by simplify_eq].
      destruct (Fs.isDirectory st); [by simplify_eq|].
      destruct (Fs.unlink w _) as [w1|e] eqn:Hun; [|by simplify_eq].
      destruct (WorldFacts.unlink_inv _ _ _ Hsegs Hun) as (Hcwd1 & _ & Hframe).
      simplify_eq. split; [done|]. by apply Hframe. }
  destruct Hafter as [Hcwd' Hget'].
  rewrite (ReadFacts.read_file_locate w w' args' s' _ Hs' Hq Hcwd').
  - by rewrite Hread.
  - rewrite Hloc. symmetry. by apply ReadFacts.locate_file.
Qed.

Lemma changes_keep_other_files_witness :
  let args : gmap string value := {["path" := VString "README.md"]} in
  let args' : gmap string value := {["path" := VString "package.json"]} in
  let w' := snd (Tools.handler Tools.deleteFileTool args Sample.world) in
  Tools.handler Tools.readFileTool args' w'
  = (Returned (Tools.ok (
       "File: /srv/package.json" +:+ Str.nl +:+
       "Size: 0.00 KB" +:+ Str.nl +:+
       "Encoding: utf8" +:+ Str.nl +:+ Str.nl +:+
       "--- Content ---" +:+ Str.nl +:+ "{}")), w').
Proof.
  intros args args' w'.
  apply (changes_keep_other_files Tools.deleteFileTool Sample.world w'
           Sample.world args args' "README.md" "package.json"
           "/srv/README.md" "/srv/package.json"
           (Returned (Tools.ok "Deleted file: '/srv/README.md'."))).
  - apply list_elem_of_further, list_elem_of_here.
  - reflexivity.
  - vm_compute; reflexivity.
  - vm_compute; reflexivity.
  - vm_compute; reflexivity.
  - vm_compute; reflexivity.
  - discriminate.
  - vm_compute; reflexivity.
  - vm_compute; reflexivity.
  - reflexivity.
Defined.

(** When [delete_file] reports success in a tree whose directories hold
    each name once, the path names nothing afterwards: [stat] fails with
    ENOENT and [get_file_info] reports it. *)
Theorem delete_file_then_gone
    (w w' : Fs.World) (args : gmap string value) (s : string)
    (r : Tools.ToolResult) :
  Path.isAbsolute (Fs.cwd w) = true ->
  Tree.unique_names (Fs.root w) = true ->
  args !! "path" = Some (VString s) ->
  Tools.handler Tools.deleteFileTool args w = (Returned r, w') ->
  Tools.isError r = None ->
  exists p,
    Path.resolve (Fs.cwd w) [VString (Fs.cwd w); VString s] = Returned p /\
    r = Tools.ok ("Deleted file: '" +:+ p +:+ "'.") /\
    Fs.stat w' p = Thrown (ErrnoException ENOENT "stat" p) /\
    Tools.handler Tools.getFileInfoTool args w' =
    (Returned (Tools.err (
       "Could not stat path: ENOENT: no such file or directory, stat '" +:+
       p +:+ "'")), w').
Proof.
  intros Habs Hwf Hs Hrun Hok.
  destruct (PathFacts.resolve_strings (Fs.cwd w) (Fs.cwd w) s) as [p Hp].
  exists p. split; [done|].
  destruct (NormFacts.resolve_shape _ _ _ Habs Hp) as (segs & Hsegs & ->).
  rewrite (RunFacts.delete_file_run w args s _ Hs Hp) in Hrun.
  destruct (Fs.stat w _) as [st|e]; [|by simplify_eq].
  destruct (Fs.isDirectory st); [by simplify_eq|].
  destruct (Fs.unlink w _) as [w1|e] eqn:Hun; [|by simplify_eq].
  destruct (WorldFacts.unlink_inv _ _ _ Hsegs Hun) as (Hcwd1 & Hgone & _).
  specialize (Hgone Hwf). simplify_eq. split; [done|].
  assert (Hstat : Fs.stat w' (Abs.path_of segs)
                  = Thrown (ErrnoException ENOENT "stat" (Abs.path_of segs))).
  { unfold Fs.stat. by rewrite Hgone. }
  split; [done|].
  destruct (RunFacts.get_file_info_run w' args s (Abs.path_of segs) Hs)
    as [info ->]; [by rewrite Hcwd1|].
  rewrite Hstat. reflexivity.
Qed.

Lemma delete_file_then_gone_witness :
  let args : gmap string value := {["path" := VString "src/util.ts"]} in
  let w' := snd (Tools.handler Tools.deleteFileTool args Sample.world) in
  exists p,
    Path.resolve (Fs.cwd Sample.world)
      [VString (Fs.cwd Sample.world); VString "src/util.ts"] = Returned p /\
    Tools.ok "Deleted file: '/srv/src/util.ts'."
      = Tools.ok ("Deleted file: '" +:+ p +:+ "'.") /\
    Fs.stat w' p = Thrown (ErrnoException ENOENT "stat" p) /\
    Tools.handler Tools.getFileInfoTool args w' =
    (Returned (Tools.err (
       "Could not stat path: ENOENT: no such file or directory, stat '" +:+
       p +:+ "'")), w').
Proof.
  intros args w'.
  apply (delete_file_then_gone Sample.world w' args "src/util.ts"
           (Tools.ok "Deleted file: '/srv/src/util.ts'."));
    vm_compute; reflexivity.
Defined.

(** [read_file], [list_directory], [search_files] and [get_file_info] leave
    the file tree as it is, whatever the arguments. *)
Theorem readers_leave_the_tree
    (t : Tools.ToolDefinition) (args : gmap string value) (w : Fs.World) :
  t ∈ [Tools.readFileTool; Tools.listDirectoryTool; Tools.searchFilesTool;
       Tools.getFileInfoTool] ->
  snd (Tools.handler t args w) = w.
Proof.
  intros Ht.
  repeat (apply elem_of_cons in Ht as [->|Ht]);
    [..|by apply elem_of_nil in Ht];
    cbn [Tools.handler Tools.readFileTool Tools.listDirectoryTool
         Tools.searchFilesTool Tools.getFileInfoTool];
    unfold Tools.safePath, Js.bind, Js.reading;
    destruct (Path.resolve _ _) as [p|e]; try done;
    unfold Js.tryCatch, Js.bind, Js.reading, Js.ret.
  - destruct (Fs.stat w p) as [st|e]; [|done].
    destruct (Fs.isDirectory st); [done|]. by destruct (Fs.readFile w p _).
  - destruct (Fs.stat w p) as [st|e]; [|done].
    destruct (negb _); [done|]. unfold Tools.collectEntries, Js.reading.
    by destruct (match Fs.locate w p with inr _ => _ | inl _ => _ end).
  - unfold Tools.searchResults, Js.bind, Js.pure.
    destruct (Js.receiver _ _) as [pat|e]; [|done].
    destruct (RegExp.create _ _) as [regex|e]; [|done].
    unfold Tools.walkAndMatch, Js.reading.
    destruct (match Fs.locate w p with inr _ => _ | inl _ => _ end)
      as [results|e]; [|done].
    by destruct (length results =? 0)%nat.
  - by destruct (Fs.stat w p).
Qed.

Lemma readers_leave_the_tree_witness :
  snd (Tools.handler Tools.listDirectoryTool
         {["path" := VString "src"]} Sample.world) = Sample.world.
Proof.
  apply (readers_leave_the_tree Tools.listDirectoryTool
           {["path" := VString "src"]} Sample.world).
  apply list_elem_of_further, list_elem_of_here.
Defined.

Module DirnameFacts.
Import Path Abs SplitFacts NormFacts.









End DirnameFacts.

Module MkdirFacts.
Import Fs Abs TreeFacts WorldFacts.






End MkdirFacts.



Module CreateFacts.
Import Fs Abs TreeFacts WorldFacts MkdirFacts.



End CreateFacts.



(* ===================================================================== *)
(** * The paths the tools act on *)
(* ===================================================================== *)

(** [safePath] gives an absolute normalised path, the names from the root
    joined by separators, and resolving that path again gives it back: the
    path a tool prints names the same entry when it is passed to a tool. *)
Theorem safePath_normalises (w : Fs.World) (s : string) :
  Path.isAbsolute (Fs.cwd w) = true ->
  exists segs,
    Forall (fun c => Abs.name_ok c = true) segs /\
    Tools.safePath (VString s) w = (Returned (Abs.path_of segs), w) /\
    Tools.safePath (VString (Abs.path_of segs)) w
      = (Returned (Abs.path_of segs), w).
Proof.
  intros Habs.
  destruct (PathFacts.resolve_strings (Fs.cwd w) (Fs.cwd w) s) as [p Hp].
  destruct (NormFacts.resolve_shape _ _ _ Habs Hp) as (segs & Hsegs & ->).
  exists segs. split; [done|]. unfold Tools.safePath, Js.reading.
  by rewrite Hp, NormFacts.resolve_path_of.
Qed.

Lemma safePath_normalises_witness :
  exists segs,
    Forall (fun c => Abs.name_ok c = true) segs /\
    Tools.safePath (VString "./src/../src//util.ts") Sample.world
      = (Returned (Abs.path_of segs), Sample.world) /\
    Tools.safePath (VString (Abs.path_of segs)) Sample.world
      = (Returned (Abs.path_of segs), Sample.world).
Proof.
  apply (safePath_normalises Sample.world "./src/../src//util.ts").
  reflexivity.
Defined.



(* ===================================================================== *)
(** * Arguments outside the schema *)
(* ===================================================================== *)

(** The [try] of a handler does not cover [safePath]: when the path
    argument ([directory] for search_files) is missing or is no string,
    every handler throws the TypeError of [path.resolve] instead of
    returning a result, and touches nothing. *)
Theorem handler_throws_without_a_string_path
    (t : Tools.ToolDefinition) (args : gmap string value) (w : Fs.World) :
  t ∈ Tools.ALL_TOOLS ->
  let key :=
    if Str.eqb (Tools.name t) "search_files" then "directory" else "path" in
  (forall s, args !! key <> Some (VString s)) ->
  Tools.handler t args w
    = (Thrown (Path.invalid_path 1 (Js.prop args key)), w).
Proof.
  intros Ht key Hkey.
  assert (Hres : forall v,
            (forall s, v <> VString s) ->
            Path.resolve (Fs.cwd w) [VString (Fs.cwd w); v]
            = Thrown (Path.invalid_path 1 v)).
  { intros v Hv. unfold Path.resolve.
    change (reverse [VString (Fs.cwd w); v]) with [v; VString (Fs.cwd w)].
    destruct v; try reflexivity. by destruct (Hv s). }
  assert (Hv : forall s, Js.prop args key <> VString s).
  { intros s. unfold Js.prop. specialize (Hkey s).
    destruct (args !! key) as [v|]; [|done]. cbn. congruence. }
  unfold Tools.ALL_TOOLS in Ht.
  repeat (apply elem_of_cons in Ht as [->|Ht]);
    [..|by apply elem_of_nil in Ht];
    cbn [Tools.handler Tools.readFileTool Tools.writeFileTool
         Tools.listDirectoryTool Tools.searchFilesTool Tools.getFileInfoTool
         Tools.deleteFileTool];
    unfold Tools.safePath, Js.bind, Js.reading;
    change key with "path" in Hv || change key with "directory" in Hv;
    by rewrite (Hres _ Hv).
Qed.

Lemma handler_throws_without_a_string_path_witness :
  Tools.handler Tools.searchFilesTool {["pattern" := VString "*"]}
    Sample.world
  = (Thrown (Path.invalid_path 1
               (Js.prop {["pattern" := VString "*"]} "directory")),
     Sample.world).
Proof.
  apply (handler_throws_without_a_string_path Tools.searchFilesTool
           {["pattern" := VString "*"]} Sample.world).
  - do 3 apply list_elem_of_further. apply list_elem_of_here.
  - intros s H. discriminate H.
Defined.

Module ListingFacts.
Import Fs Tools.


End ListingFacts.

(* ===================================================================== *)
(** * Listings *)
(* ===================================================================== *)



Module BlockedFacts.
Import Fs Tools Prompts Tree.

(** [buildTree] throws as soon as a directory it is to read cannot be
    read. *)
Lemma tree_node_blocked k n :
  blocked treeIgnored k n ->
  forall base dir depth maxDepth,
    depth + k <= maxDepth ->
    exists e, tree_node base dir n depth maxDepth = Thrown e.
Proof.
  induction 1 as [k n Hn | k m es entry a' m' es' Hin Hig Hb IH];
    intros base dir depth maxDepth Hle.
  - assert (Hd : (maxDepth <? depth)%nat = false) by (apply Nat.ltb_ge; lia).
    destruct n as [| [|] m es |]; cbn [tree_node]; rewrite Hd; eauto.
    by destruct (Hn m es).
  - assert (Hd : (maxDepth <? depth)%nat = false) by (apply Nat.ltb_ge; lia).
    cbn [tree_node]. rewrite Hd.
    match goal with
    | |- context [Js.obind (?f es []) _] =>
        assert (Hloop : forall es0 lines,
                  (entry, Dir a' m' es') ∈ es0 ->
                  exists e, f es0 lines = Thrown e)
    end.
    { clear Hin. intros es0. induction es0 as [|[k0 c0] es0 IHes];
        intros lines Hin0; [by apply elem_of_nil in Hin0|].
      apply elem_of_cons in Hin0 as [Heq|Hin0].
      - injection Heq as <- <-.
        assert (Hmem : Str.mem entry treeIgnored = false).
        { unfold Str.mem. by apply bool_decide_eq_false. }
        rewrite Hmem.
        destruct (IH base (Path.join [dir; entry]) (depth + 1) maxDepth)
          as [e He]; [lia|].
        rewrite He. cbn. eauto.
      - destruct (Str.mem k0 treeIgnored); [by apply IHes|].
        destruct c0 as [| a0 m0 es0' |]; try by apply IHes.
        destruct (tree_node base _ (Dir a0 m0 es0') (depth + 1) maxDepth)
          as [sub|e]; [|cbn; eauto].
        cbn [Js.obind]. by apply IHes. }
    destruct (Hloop es [] Hin) as [e He]. rewrite He. cbn. eauto.
Qed.



(** Conversely, [buildTree] throws only where something stops it. *)
Lemma tree_node_thrown_blocked base maxDepth n :
  forall dir depth e,
    tree_node base dir n depth maxDepth = Thrown e ->
    blocked treeIgnored (maxDepth - depth) n.
Proof.
  induction n as [a m data | a m es IH | m] using FsInduction.node_rect';
    intros dir depth e; cbn [tree_node];
    destruct (maxDepth <? depth)%nat eqn:Hd; try done.
  - intros _. by apply blocked_here.
  - destruct a; [|intros _; by apply blocked_here].
    apply Nat.ltb_ge in Hd.
    match goal with
    | |- Js.obind (?f es []) _ = _ -> _ =>
        assert (Hloop : forall es0 lines,
                  (forall x, x ∈ es0 -> x ∈ es) ->
                  f es0 lines = Thrown e ->
                  blocked treeIgnored (maxDepth - depth) (Dir true m es))
    end.
    { intros es0. induction es0 as [|[k0 c0] es0 IHes]; intros lines Hsub;
        [done|].
      assert (Hin : (k0, c0) ∈ es) by (apply Hsub; left).
      assert (Hsub' : forall x, x ∈ es0 -> x ∈ es).
      { intros x Hx. apply Hsub. by right. }
      destruct (Str.mem k0 treeIgnored) eqn:Hmem; [by apply IHes|].
      destruct c0 as [| a0 m0 es0' |]; try by apply IHes.
      destruct (tree_node base (Path.join [dir; k0]) (Dir a0 m0 es0')
                  (depth + 1) maxDepth) as [sub|e0] eqn:Hc.
      - cbn [Js.obind]. by apply IHes.
      - cbn [Js.obind]. intros _.
        rewrite Forall_forall in IH. pose proof (IH _ Hin _ _ _ Hc) as Hb.
        cbn [snd] in Hb.
        assert (Hlt : depth + 1 <= maxDepth).
        { destruct (decide (depth + 1 <= maxDepth)) as [|Hgt]; [done|].
          cbn [tree_node] in Hc.
          assert (Hd' : (maxDepth <? depth + 1)%nat = true)
            by (apply Nat.ltb_lt; lia).
          by rewrite Hd' in Hc. }
        replace (maxDepth - depth) with (S (maxDepth - (depth + 1))) by lia.
        eapply blocked_below; [exact Hin | | exact Hb].
        unfold Str.mem in Hmem. by apply bool_decide_eq_false in Hmem. }
    destruct (_ es []) as [lines|e0] eqn:Hrun; [done|].
    cbn [Js.obind]. intros [= <-]. by eapply Hloop.
  - intros _. by apply blocked_here.
Qed.


End BlockedFacts.

(* ===================================================================== *)
(** * Directories that cannot be read *)
(* ===================================================================== *)

(** summarize-directory prints no partial tree: when the directory does not
    exist, or a directory within three levels of it (under names that are
    not ignored) cannot be read, the whole tree is replaced by
    [(Could not read directory)]. *)
Theorem summarize_directory_loses_the_tree
    (w : Fs.World) (args : gmap string string) (dirPath : string) :
  Path.resolve (Fs.cwd w)
    [VString (Fs.cwd w); VString (default "." (args !! "path"))]
    = Returned dirPath ->
  match Fs.locate w dirPath with
  | inr n => Tree.blocked Prompts.treeIgnored 3 n
  | inl _ => True
  end ->
  Prompts.generate Prompts.summarizeDirectoryPrompt args w =
  (Returned (Prompts.userText
               (Template.summary dirPath "(Could not read directory)")), w).
Proof.
  intros Hp Hb. cbn [Prompts.generate Prompts.summarizeDirectoryPrompt].
  unfold Prompts.resolveCwd, Js.bind, Js.reading, Js.tryCatch, Js.ret.
  rewrite Hp. unfold Prompts.buildTree, Js.reading.
  change (3 <? 0)%nat with false. cbv iota.
  destruct (Fs.locate w dirPath) as [e|n]; [reflexivity|].
  destruct (BlockedFacts.tree_node_blocked 3 n Hb dirPath dirPath 0 3)
    as [e ->]; [lia|]. reflexivity.
Qed.

Lemma summarize_directory_loses_the_tree_witness :
  Prompts.generate Prompts.summarizeDirectoryPrompt ∅ Sample.world =
  (Returned (Prompts.userText
               (Template.summary "/srv" "(Could not read directory)")),
   Sample.world).
Proof.
  apply (summarize_directory_loses_the_tree Sample.world ∅ "/srv").
  - vm_compute; reflexivity.
  - change (Fs.locate Sample.world "/srv") with
      (@inr errno Fs.node Sample.project).
    eapply (Tree.blocked_below _ 2 _ _ "private" false Sample.meta755 []).
    + do 6 apply list_elem_of_further. apply list_elem_of_here.
    + intros H.
      by repeat (apply elem_of_cons in H as [H|H]; [discriminate H|]);
        apply elem_of_nil in H.
    + by apply Tree.blocked_here.
Defined.

(** [buildTree] throws exactly when something stops it: the node it starts
    from is no readable directory, or a directory within the levels it
    descends (under names that are not ignored) is not readable. *)
Theorem buildTree_fails_exactly_when_blocked
    (w : Fs.World) (base dir : string) (depth maxDepth : nat) (n : Fs.node) :
  depth <= maxDepth ->
  Fs.locate w dir = inr n ->
  (exists e, Prompts.buildTree base dir depth maxDepth w = (Thrown e, w)) <->
  Tree.blocked Prompts.treeIgnored (maxDepth - depth) n.
Proof.
  intros Hle Hloc. unfold Prompts.buildTree, Js.reading.
  assert (Hd : (maxDepth <? depth)%nat = false) by (apply Nat.ltb_ge; lia).
  rewrite Hd, Hloc. split.
  - intros [e He]. injection He as He.
    by eapply BlockedFacts.tree_node_thrown_blocked.
  - intros Hb.
    destruct (BlockedFacts.tree_node_blocked _ n Hb base dir depth maxDepth)
      as [e ->]; [lia|]. eauto.
Qed.

Lemma buildTree_fails_exactly_when_blocked_witness :
  (exists e, Prompts.buildTree "/srv" "/srv/src" 0 3 Sample.world
             = (Thrown e, Sample.world)) <->
  Tree.blocked Prompts.treeIgnored (3 - 0)
    (Sample.dir [("index.ts", Sample.file "export {}");
                 ("util.ts", Sample.file "export const x = 1")]).
Proof.
  apply (buildTree_fails_exactly_when_blocked Sample.world "/srv" "/srv/src"
           0 3).
  - lia.
  - vm_compute; reflexivity.
Defined.



Module GlobFacts.
Import RegExp Tools Glob.

Lemma special_backslash c : c ∉ special -> c <> Str.backslash.
Proof.
  intros H ->. apply H.
  assert (Hin : bool_decide (Str.backslash ∈ special) = true) by reflexivity.
  by apply bool_decide_eq_true in Hin.
Qed.

Lemma special_dot c : c ∉ special -> c <> Str.dot.
Proof.
  intros H ->. apply H.
  assert (Hin : bool_decide (Str.dot ∈ special) = true) by reflexivity.
  by apply bool_decide_eq_true in Hin.
Qed.

Lemma special_not_star c : c ∈ special -> c <> "*"%char.
Proof.
  intros H ->.
  assert (Hin : bool_decide ("*"%char ∈ special) = false) by reflexivity.
  by apply bool_decide_eq_false in Hin.
Qed.

Lemma starToAny_cons c s :
  c <> "*"%char -> starToAny (String c s) = String c (starToAny s).
Proof. intros H. cbn [starToAny]. by rewrite bool_decide_eq_false_2. Qed.

(** The expression of a pattern without [?] is read as the items of the
    pattern. *)
Lemma parse_pattern src pat pending acc :
  "?"%char ∉ Path.chars pat ->
  parse src (starToAny (escapeSpecials pat)) pending acc
  = Returned (reverse acc ++ items_of pat).
Proof.
  revert pending acc. induction pat as [|c pat IH]; intros pending acc Hq.
  - cbn. by rewrite app_nil_r.
  - assert (Hc : c <> "?"%char).
    { intros ->. apply Hq. left. }
    assert (Hq' : "?"%char ∉ Path.chars pat).
    { intros H. apply Hq. by right. }
    cbn [escapeSpecials items_of]. destruct (bool_decide (c ∈ special)) eqn:Hsp.
    + apply bool_decide_eq_true in Hsp.
      pose proof (special_not_star _ Hsp) as Hstar.
      rewrite starToAny_cons by done. rewrite starToAny_cons by done.
      cbn [parse]. rewrite bool_decide_eq_true_2 by done.
      rewrite IH by done. rewrite (bool_decide_eq_false_2 _ Hstar).
      by rewrite reverse_cons, <- app_assoc.
    + apply bool_decide_eq_false in Hsp.
      pose proof (special_backslash _ Hsp) as Hb.
      pose proof (special_dot _ Hsp) as Hd.
      destruct (bool_decide (c = "*"%char)) eqn:Hstar.
      * apply bool_decide_eq_true in Hstar. subst c.
        change (starToAny (String "*" (escapeSpecials pat)))
          with (String "." (String "*" (starToAny (escapeSpecials pat)))).
        cbn [parse].
        change (bool_decide ("."%char = Str.backslash)) with false.
        change (bool_decide ("."%char = "*"%char)) with false.
        change (bool_decide ("."%char = "?"%char)) with false.
        change (bool_decide ("."%char = Str.dot)) with true.
        change (bool_decide ("*"%char = Str.backslash)) with false.
        change (bool_decide ("*"%char = "*"%char)) with true.
        cbv iota. rewrite IH by done.
        by rewrite reverse_cons, <- app_assoc.
      * apply bool_decide_eq_false in Hstar.
        rewrite starToAny_cons by done. cbn [parse].
        rewrite (bool_decide_eq_false_2 _ Hb).
        rewrite (bool_decide_eq_false_2 _ Hstar).
        rewrite (bool_decide_eq_false_2 _ Hc).
        rewrite (bool_decide_eq_false_2 _ Hd).
        rewrite IH by done.
        by rewrite reverse_cons, <- app_assoc.
Qed.

Lemma create_pattern pat :
  "?"%char ∉ Path.chars pat ->
  create (starToAny (escapeSpecials pat)) "i"
  = Returned {| items := items_of pat; ignoreCase := true |}.
Proof.
  intros Hq. unfold create. by rewrite parse_pattern.
Qed.

End GlobFacts.

Module MatchFacts.
Import RegExp Glob.

Lemma items_of_app a b : items_of (a +:+ b) = items_of a ++ items_of b.
Proof.
  induction a as [|c a IH]; [done|].
  rewrite StrFacts.app_cons. cbn [items_of app]. by rewrite IH.
Qed.



(** A star in front: the search starts anywhere already. *)
Lemma match_here_star_search ic a r s :
  match_here ic ((a, Star) :: r) s = true -> search ic r s = true.
Proof.
  induction s as [|c s IH]; cbn [match_here search]; intros H.
  - by rewrite H.
  - apply orb_prop in H as [H|H]; [by rewrite H|].
    apply andb_prop in H as [_ H]. rewrite (IH H). apply orb_true_r.
Qed.

Lemma search_star_l ic a r s :
  search ic ((a, Star) :: r) s = search ic r s.
Proof.
  apply Bool.eq_true_iff_eq. split.
  - induction s as [|c s IH]; intros H; cbn [search] in H.
    + rewrite orb_false_r in H. apply (match_here_star_search _ _ _ _ H).
    + apply orb_prop in H as [H|H].
      * apply (match_here_star_search _ _ _ _ H).
      * cbn [search]. rewrite (IH H). apply orb_true_r.
  - induction s as [|c s IH]; intros H; cbn [search] in *.
    + rewrite orb_false_r in H. cbn [match_here]. by rewrite H.
    + apply orb_prop in H as [H|H].
      * cbn [match_here]. by rewrite H.
      * rewrite (IH H). apply orb_true_r.
Qed.

(** A star at the end: a match may stop anywhere already. *)
Lemma match_here_star_r ic its a s :
  match_here ic (its ++ [(a, Star)]) s = match_here ic its s.
Proof.
  revert s. induction its as [|[b q] its IH]; intros s.
  - by destruct s.
  - destruct q; cbn [app match_here].
    + destruct s as [|c s]; [done|]. by rewrite IH.
    + rewrite IH. destruct s as [|c s]; [done|]. by rewrite IH.
    + induction s as [|c s IHs]; [by rewrite IH|].
      rewrite IH. f_equal. f_equal. exact IHs.
Qed.

Lemma search_star_r ic its a s :
  search ic (its ++ [(a, Star)]) s = search ic its s.
Proof.
  induction s as [|c s IH]; cbn [search]; rewrite match_here_star_r; [done|].
  by rewrite IH.
Qed.

End MatchFacts.

(* ===================================================================== *)
(** * The patterns of search_files *)
(* ===================================================================== *)

(** A pattern without [?] always gives a regular expression, so
    [search_files] answers with a list of matches or with [No files
    matching] and never with an error. *)
Theorem search_files_fails_only_with_question_mark
    (w : Fs.World) (args : gmap string value) (s pat : string) :
  args !! "directory" = Some (VString s) ->
  args !! "pattern" = Some (VString pat) ->
  "?"%char ∉ Path.chars pat ->
  exists dir results,
    Path.resolve (Fs.cwd w) [VString (Fs.cwd w); VString s] = Returned dir /\
    Tools.handler Tools.searchFilesTool args w
      = (Returned (Search.report pat dir results), w) /\
    Tools.isError (Search.report pat dir results) = None.
Proof.
  intros Hs Hpat Hq.
  destruct (PathFacts.resolve_strings (Fs.cwd w) (Fs.cwd w) s) as [dir Hdir].
  rewrite (SearchFacts.handler_run w args s pat dir Hs Hdir Hpat).
  rewrite (GlobFacts.create_pattern pat Hq).
  destruct (SearchFacts.walkAndMatch_extends dir
              {| RegExp.items := Glob.items_of pat;
                 RegExp.ignoreCase := true |} []
              (Js.nullish (Js.prop args "maxResults") (VNumber 50)) w)
    as (results & -> & _).
  exists dir, results. repeat split; [done|].
  unfold Search.report. by destruct (length results =? 0)%nat.
Qed.

Lemma search_files_fails_only_with_question_mark_witness :
  exists dir results,
    Path.resolve (Fs.cwd Sample.world)
      [VString (Fs.cwd Sample.world); VString "src"] = Returned dir /\
    Tools.handler Tools.searchFilesTool
      {["directory" := VString "src"; "pattern" := VString "(*.ts"]}
      Sample.world
      = (Returned (Search.report "(*.ts" dir results), Sample.world) /\
    Tools.isError (Search.report "(*.ts" dir results) = None.
Proof.
  apply (search_files_fails_only_with_question_mark Sample.world
           {["directory" := VString "src"; "pattern" := VString "(*.ts"]}
           "src" "(*.ts").
  - vm_compute; reflexivity.
  - vm_compute; reflexivity.
  - intros H. by repeat (apply elem_of_cons in H as [H|H]; [discriminate H|]);
      apply elem_of_nil in H.
Defined.



(** A star does not anchor: with a [*] put in front of a pattern or after
    it, the expression accepts the same names, so [*.ts] finds what [.ts]
    finds, names such as [a.tsx] included. *)
Theorem star_at_the_ends_changes_nothing (pat : string) :
  "?"%char ∉ Path.chars pat ->
  exists regex front back,
    RegExp.create (Tools.starToAny (Tools.escapeSpecials pat)) "i"
      = Returned regex /\
    RegExp.create (Tools.starToAny (Tools.escapeSpecials ("*" +:+ pat))) "i"
      = Returned front /\
    RegExp.create (Tools.starToAny (Tools.escapeSpecials (pat +:+ "*"))) "i"
      = Returned back /\
    forall name,
      RegExp.test front name = RegExp.test regex name /\
      RegExp.test back name = RegExp.test regex name.
Proof.
  intros Hq.
  assert (Hfront : "?"%char ∉ Path.chars ("*" +:+ pat)).
  { intros H. apply elem_of_cons in H as [H|H]; [discriminate H | done]. }
  assert (Hback : "?"%char ∉ Path.chars (pat +:+ "*")).
  { clear Hfront. induction pat as [|c pat IH].
    - intros H. apply elem_of_cons in H as [H|H]; [discriminate H|].
      by apply elem_of_nil in H.
    - rewrite StrFacts.app_cons. intros H.
      apply elem_of_cons in H as [H|H].
      + apply Hq. rewrite H. left.
      + apply IH; [|done]. intros H'. apply Hq. by right. }
  eexists _, _, _.
  split; [by apply GlobFacts.create_pattern|].
  split; [by apply GlobFacts.create_pattern|].
  split; [by apply GlobFacts.create_pattern|].
  intros name. unfold RegExp.test. cbn [RegExp.items RegExp.ignoreCase].
  split.
  - change (Glob.items_of ("*" +:+ pat))
      with ((RegExp.AnyChar, RegExp.Star) :: Glob.items_of pat).
    apply MatchFacts.search_star_l.
  - rewrite MatchFacts.items_of_app.
    change (Glob.items_of "*") with [(RegExp.AnyChar, RegExp.Star)].
    apply MatchFacts.search_star_r.
Qed.

Lemma star_at_the_ends_changes_nothing_witness :
  exists regex front back,
    RegExp.create (Tools.starToAny (Tools.escapeSpecials ".ts")) "i"
      = Returned regex /\
    RegExp.create (Tools.starToAny (Tools.escapeSpecials ("*" +:+ ".ts"))) "i"
      = Returned front /\
    RegExp.create (Tools.starToAny (Tools.escapeSpecials (".ts" +:+ "*"))) "i"
      = Returned back /\
    forall name,
      RegExp.test front name = RegExp.test regex name /\
      RegExp.test back name = RegExp.test regex name.
Proof.
  apply (star_at_the_ends_changes_nothing ".ts").
  intros H.
  by repeat (apply elem_of_cons in H as [H|H]; [discriminate H|]);
    apply elem_of_nil in H.
Defined.

Module CompleteFacts.
Import Fs Tools Search Tree.

(** The bound, once met, stays met as the array grows. *)
Lemma length_ge_mono len len' max :
  len <= len' -> Js.length_ge len max = true -> Js.length_ge len' max = true.
Proof.
  intros Hle. destruct max as [| |b|q|s|]; simpl; try done.
  - destruct b; intros H; apply Nat.leb_le in H; apply Nat.leb_le; lia.
  - intros H. apply Qle_bool_iff in H. apply Qle_bool_iff.
    eapply Qle_trans; [exact H|]. rewrite <- Zle_Qle. lia.
Qed.

Lemma length_ge_below (results added : list string) max :
  Js.length_ge (length (results ++ added)) max = false ->
  Js.length_ge (length results) max = false.
Proof.
  intros H. destruct (Js.length_ge (length results) max) eqn:E; [|done].
  rewrite (length_ge_mono (length results) _ max) in H; [done| |done].
  rewrite length_app. lia.
Qed.

Lemma findable_cons regex m es e dir r :
  findable regex (Dir true m es) dir r ->
  findable regex (Dir true m (e :: es)) dir r.
Proof.
  intros H. inversion H; subst.
  - eapply findable_file; [by right | done].
  - eapply findable_below; [by right | done | done].
Qed.

(** While the bound is not met, the walk of a node finds every file there
    is to find. *)
Lemma walk_node_complete regex max n :
  forall dir results out,
    walk_node n dir regex results max = Returned out ->
    Js.length_ge (length out) max = false ->
    forall r, findable regex n dir r -> r ∈ out.
Proof.
  induction n as [a m data | a m es IH | m] using FsInduction.node_rect';
    intros dir results out Hwalk Hlt r Hr; [inversion Hr| |inversion Hr].
  destruct (SearchFacts.walk_node_extends regex max (Dir a m es) dir results)
    as (out' & Hout' & (added & Hadded & _)).
  rewrite Hwalk in Hout'. injection Hout' as <-. subst out.
  pose proof (length_ge_below _ _ _ Hlt) as Hlt0.
  cbn [walk_node] in Hwalk. rewrite Hlt0 in Hwalk.
  destruct a; [|inversion Hr].
  match type of Hwalk with
  | Js.otry (?f es results) _ = _ =>
      assert (Hloop : forall es' results',
                Forall (fun e => forall dir results out,
                          walk_node (snd e) dir regex results max
                            = Returned out ->
                          Js.length_ge (length out) max = false ->
                          forall r, findable regex (snd e) dir r -> r ∈ out)
                  es' ->
                exists out' added',
                  f es' results' = Returned out' /\
                  out' = results' ++ added' /\
                  (Js.length_ge (length out') max = false ->
                   forall r, findable regex (Dir true m es') dir r ->
                             r ∈ out'));
      [|destruct (Hloop es results IH) as (o & ? & Ho & _ & Hall);
        rewrite Ho in Hwalk; cbn [Js.otry] in Hwalk;
        injection Hwalk as Ho'; rewrite <- Ho' in *; by apply Hall]
  end.
  clear. intros es'. induction es' as [|[entry child] es' IHes];
    intros results' IH.
  - exists results', []. split; [reflexivity|]. split; [by rewrite app_nil_r|].
    intros _ r Hr.
    inversion Hr; subst;
      match goal with H : _ ∈ [] |- _ => by apply elem_of_nil in H end.
  - apply Forall_cons in IH as [IHc IHrest]. cbn [snd] in IHc.
    specialize (fun x => IHes x IHrest).
    destruct (Js.length_ge (length results') max) eqn:Hge.
    { exists results', []. split; [reflexivity|].
      split; [by rewrite app_nil_r | congruence]. }
    destruct child as [a' m' data' | a' m' es'' | m'].
    + destruct (RegExp.test regex entry) eqn:Htest.
      * destruct (IHes (results' ++ [Path.join [dir; entry]]))
          as (o & added' & Ho & -> & Hall).
        eexists _, _. split; [exact Ho|].
        split; [by rewrite <- app_assoc|]. intros Hlt r Hr.
        inversion Hr; subst;
          match goal with H : _ ∈ _ :: _ |- _ =>
            apply elem_of_cons in H as [H|H] end.
        -- simplify_eq. set_solver.
        -- apply Hall; [done|]. by eapply findable_file.
        -- done.
        -- apply Hall; [done|]. by eapply findable_below.
      * destruct (IHes results') as (o & added' & Ho & -> & Hall).
        eexists _, _. split; [exact Ho|]. split; [done|]. intros Hlt r Hr.
        inversion Hr; subst;
          match goal with H : _ ∈ _ :: _ |- _ =>
            apply elem_of_cons in H as [H|H] end.
        -- simplify_eq. congruence.
        -- apply Hall; [done|]. by eapply findable_file.
        -- done.
        -- apply Hall; [done|]. by eapply findable_below.
    + destruct (Str.mem entry ignoredDirs) eqn:Hmem.
      * destruct (IHes results') as (o & added' & Ho & -> & Hall).
        eexists _, _. split; [exact Ho|]. split; [done|]. intros Hlt r Hr.
        inversion Hr; subst;
          match goal with H : _ ∈ _ :: _ |- _ =>
            apply elem_of_cons in H as [H|H] end.
        -- done.
        -- apply Hall; [done|]. by eapply findable_file.
        -- simplify_eq. unfold Str.mem in Hmem.
           by apply bool_decide_eq_true in Hmem.
        -- apply Hall; [done|]. by eapply findable_below.
      * destruct (SearchFacts.walk_node_extends regex max
                    (Dir a' m' es'') (Path.join [dir; entry]) results')
          as (mid & Hmid & (a1 & -> & _)).
        rewrite Hmid. cbn [Js.obind].
        destruct (IHes (results' ++ a1)) as (o & added' & Ho & -> & Hall).
        eexists _, _. split; [exact Ho|].
        split; [by rewrite <- app_assoc|]. intros Hlt r Hr.
        inversion Hr; subst;
          match goal with H : _ ∈ _ :: _ |- _ =>
            apply elem_of_cons in H as [H|H] end.
        -- done.
        -- apply Hall; [done|]. by eapply findable_file.
        -- simplify_eq. apply elem_of_app. left.
           eapply IHc; [exact Hmid | by eapply length_ge_below | done].
        -- apply Hall; [done|]. by eapply findable_below.
    + destruct (IHes results') as (o & added' & Ho & -> & Hall).
      eexists _, _. split; [exact Ho|]. split; [done|]. intros Hlt r Hr.
      inversion Hr; subst;
        match goal with H : _ ∈ _ :: _ |- _ =>
          apply elem_of_cons in H as [H|H] end.
      * done.
      * apply Hall; [done|]. by eapply findable_file.
      * done.
      * apply Hall; [done|]. by eapply findable_below.
Qed.

End CompleteFacts.

(* ===================================================================== *)
(** * What search_files finds *)
(* ===================================================================== *)

(** While the number of results stays below [maxResults], [search_files]
    misses nothing: every file whose name the expression accepts, in the
    search root or below it through readable directories with names that
    are not ignored, is among the results. *)
Theorem search_files_finds_every_file
    (w : Fs.World) (args : gmap string value) (s pat dir : string)
    (regex : RegExp.t) (n : Fs.node) :
  args !! "directory" = Some (VString s) ->
  Path.resolve (Fs.cwd w) [VString (Fs.cwd w); VString s] = Returned dir ->
  args !! "pattern" = Some (VString pat) ->
  RegExp.create (Tools.starToAny (Tools.escapeSpecials pat)) "i"
    = Returned regex ->
  Fs.locate w dir = inr n ->
  let max := Js.nullish (Js.prop args "maxResults") (VNumber 50) in
  exists results,
    Tools.handler Tools.searchFilesTool args w
      = (Returned (Search.report pat dir results), w) /\
    (Js.length_ge (length results) max = false ->
     forall r, Tree.findable regex n dir r -> r ∈ results).
Proof.
  intros Hs Hdir Hpat Hre Hloc max.
  rewrite (SearchFacts.handler_run w args s pat dir Hs Hdir Hpat), Hre.
  fold max. unfold Tools.walkAndMatch, Js.reading. rewrite Hloc.
  destruct (SearchFacts.walk_node_extends regex max n dir [])
    as (results & Hwalk & _).
  rewrite Hwalk. exists results. split; [done|]. intros Hlt r Hr.
  by eapply CompleteFacts.walk_node_complete.
Qed.

Lemma search_files_finds_every_file_witness :
  let args : gmap string value :=
    {["directory" := VString "/srv"; "pattern" := VString ".ts"]} in
  let max := Js.nullish (Js.prop args "maxResults") (VNumber 50) in
  exists results,
    Tools.handler Tools.searchFilesTool args Sample.world
      = (Returned (Search.report ".ts" "/srv" results), Sample.world) /\
    (Js.length_ge (length results) max = false ->
     forall r,
       Tree.findable
         {| RegExp.items := Glob.items_of ".ts"; RegExp.ignoreCase := true |}
         Sample.project "/srv" r ->
       r ∈ results).
Proof.
  intros args max.
  apply (search_files_finds_every_file Sample.world args "/srv" ".ts" "/srv"
           {| RegExp.items := Glob.items_of ".ts";
              RegExp.ignoreCase := true |} Sample.project);
    vm_compute; reflexivity.
Defined.

Module CaseFacts.
Import Str Path.

Lemma lower_char_slash c :
  bool_decide (lower_char c = slash) = bool_decide (c = slash).
Proof. destruct c as [[] [] [] [] [] [] [] []]; reflexivity. Qed.

Lemma lower_char_dot c :
  bool_decide (lower_char c = dot) = bool_decide (c = dot).
Proof. destruct c as [[] [] [] [] [] [] [] []]; reflexivity. Qed.

Lemma lower_char_idem c : lower_char (lower_char c) = lower_char c.
Proof. destruct c as [[] [] [] [] [] [] [] []]; reflexivity. Qed.

Lemma toLowerCase_idem s : toLowerCase (toLowerCase s) = toLowerCase s.
Proof.
  induction s as [|c s IH]; [done|].
  cbn [toLowerCase]. by rewrite lower_char_idem, IH.
Qed.

Lemma ext_step_lower st i c :
  ext_step st (i, lower_char c) = ext_step st (i, c).
Proof.
  unfold ext_step. by rewrite lower_char_slash, lower_char_dot.
Qed.

Lemma chars_lower s : chars (toLowerCase s) = map lower_char (chars s).
Proof.
  unfold chars. induction s as [|c s IH]; [done|].
  cbn [toLowerCase String.list_ascii_of_string map]. by rewrite IH.
Qed.

Lemma imap_lower {B} (f : nat -> ascii -> B) l :
  imap f (map lower_char l) = imap (fun i c => f i (lower_char c)) l.
Proof.
  revert f. induction l as [|c l IH]; intros f; [done|].
  cbn [map imap]. f_equal. apply IH.
Qed.

Lemma foldl_ext_lower l st :
  foldl ext_step st
    (reverse (imap (fun i c => (i, lower_char c)) l))
  = foldl ext_step st (reverse (imap (fun i c => (i, c)) l)).
Proof.
  assert (H : forall (l1 l2 : list (nat * ascii)) st,
             Forall2 (fun x y => fst x = fst y /\
                                 snd x = lower_char (snd y)) l1 l2 ->
             foldl ext_step st l1 = foldl ext_step st l2).
  { intros l1 l2 st0 HF. revert st0.
    induction HF as [|[i c] [j d] l1 l2 [Hi Hc] HF IH]; intros st0; [done|].
    cbn [fst snd] in *. subst. cbn [foldl]. rewrite ext_step_lower. apply IH. }
  assert (G : forall (g : nat -> nat),
             Forall2 (fun x y : nat * ascii =>
                        fst x = fst y /\ snd x = lower_char (snd y))
               (imap (fun i c => (g i, lower_char c)) l)
               (imap (fun i c => (g i, c)) l)).
  { induction l as [|c l IH]; intros g; [constructor|].
    cbn [imap]. constructor; [done|]. apply (IH (g ∘ S)). }
  apply H. apply Forall2_reverse. apply (G (fun i => i)).
Qed.

Lemma take_lower n s : take n (toLowerCase s) = toLowerCase (take n s).
Proof.
  revert s. induction n as [|n IH]; intros s; [done|].
  destruct s as [|c s]; [done|]. cbn [toLowerCase take]. by rewrite IH.
Qed.

Lemma drop_lower n s : drop n (toLowerCase s) = toLowerCase (drop n s).
Proof.
  revert s. induction n as [|n IH]; intros s; [done|].
  destruct s as [|c s]; [done|]. cbn [toLowerCase drop]. by rewrite IH.
Qed.

(** The extension of a path in lower case is the extension in lower
    case. *)
Lemma extname_lower p :
  extname (toLowerCase p) = toLowerCase (extname p).
Proof.
  unfold extname, indexed_rev. rewrite chars_lower, imap_lower.
  rewrite foldl_ext_lower.
  destruct (startDot _) as [d|]; [|done].
  destruct (ext_end _) as [e|]; [|done].
  destruct (_ || _); [done|].
  unfold slice. by rewrite drop_lower, take_lower.
Qed.

End CaseFacts.

(* ===================================================================== *)
(** * The MIME guess *)
(* ===================================================================== *)

(** The MIME type guessed for a path does not depend on letter case: a
    path and the same path in lower case get the same guess. *)
Theorem guessMime_ignores_case (filePath : string) :
  Tools.guessMime (Str.toLowerCase filePath) = Tools.guessMime filePath.
Proof.
  unfold Tools.guessMime.
  by rewrite CaseFacts.extname_lower, CaseFacts.toLowerCase_idem.
Qed.

Module StaticFacts.
Import Fs Resources.

Lemma probe_filter w cs acc :
  probe (cwd w) cs acc w
  = (Returned (acc ++ map (Static.entry (cwd w))
                        (List.filter (Static.present w) cs)), w).
Proof.
  revert acc. induction cs as [|c cs IH]; intros acc.
  - cbn. by rewrite app_nil_r.
  - cbn [probe List.filter]. unfold Js.bind, Js.tryCatch, Js.reading, Js.ret.
    unfold Static.present at 1.
    destruct (access w (Path.join [cwd w; file c])).
    + rewrite IH. cbn [map]. by rewrite <- app_assoc.
    + by rewrite IH.
Qed.

Lemma buildStaticResources_filter w :
  buildStaticResources w =
  (Returned (map (Static.entry (cwd w))
               (List.filter (Static.present w) candidates)
             ++ [workingDirectory (cwd w)]), w).
Proof.
  unfold buildStaticResources, Js.bind, Js.reading, Js.ret.
  by rewrite probe_filter.
Qed.

Lemma dropLast_snoc (p : string) : Str.dropLast (p +:+ "/") = p.
Proof.
  unfold Str.dropLast. rewrite StrFacts.length_app. cbn [String.length].
  replace (String.length p + 1 - 1) with (String.length p) by lia.
  induction p as [|c p IH]; [done|].
  rewrite StrFacts.app_cons. cbn [String.length Str.take]. by rewrite IH.
Qed.

Lemma endsWith_snoc (p : string) : Str.endsWith (p +:+ "/") "/" = true.
Proof.
  unfold Str.endsWith. rewrite StrFacts.rev_app.
  change (Str.rev "/") with "/". apply StrFacts.startsWith_app.
Qed.

Lemma readdir_inv w p entries :
  readdir w p = Returned entries ->
  exists m es, locate w p = inr (Dir true m es).
Proof.
  unfold readdir, entries_of.
  destruct (locate w p) as [e|[| [|] m es |]]; try done. eauto.
Qed.

Lemma readdir_thrown w p e :
  readdir w p = Thrown e -> exists c, e = ErrnoException c "scandir" p.
Proof.
  unfold readdir, entries_of, fail.
  destruct (locate w p) as [c|[| [|] m es |]]; cbn; intros H;
    try discriminate H; injection H as <-; eauto.
Qed.

End StaticFacts.

(* ===================================================================== *)
(** * More on the resources *)
(* ===================================================================== *)

(** The static resources are the candidate files that can be accessed in
    the working directory, in the order of the candidate list, followed by
    the working directory itself. *)
Theorem static_resources_are_the_present_candidates (w : Fs.World) :
  Resources.buildStaticResources w =
  (Returned (map (Static.entry (Fs.cwd w))
               (List.filter (Static.present w) Resources.candidates)
             ++ [Resources.workingDirectory (Fs.cwd w)]), w).
Proof. apply StaticFacts.buildStaticResources_filter. Qed.

(** readResource leaves the file tree as it is, and what it throws is one
    of three things: the error of the unsupported scheme; for a URI that
    ends with a separator, the system error of the directory read, as it
    is; for any other URI, an error that names the URI and carries the
    message of the failure. *)
Theorem readResource_failures (uri : string) (w : Fs.World) :
  snd (Resources.readResource uri w) = w /\
  forall e,
    fst (Resources.readResource uri w) = Thrown e ->
    (Str.startsWith uri "file://" = false /\
     e = Error "Unsupported URI scheme. Only 'file://' URIs are supported.")
    \/
    (Str.endsWith (Str.drop 7 uri) "/" = true /\
     exists c p, e = ErrnoException c "scandir" p)
    \/
    (Str.endsWith (Str.drop 7 uri) "/" = false /\
     exists m,
       e = Error ("Cannot read resource '" +:+ uri +:+ "': " +:+ m)).
Proof.
  unfold Resources.readResource. change (String.length "file://") with 7.
  destruct (Str.startsWith uri "file://"); cbn [negb].
  2:{ split; [done|]. intros e [= <-]. by left. }
  destruct (Str.endsWith (Str.drop 7 uri) "/").
  - unfold Resources.buildDirectoryListing, Js.bind, Js.reading, Js.ret.
    destruct (Fs.readdir w _) as [entries|e0] eqn:Hrd; cbn [fst snd].
    + by split.
    + split; [done|]. intros e [= <-]. right. left. split; [done|].
      destruct (StaticFacts.readdir_thrown _ _ _ Hrd) as [c ->]. eauto.
  - unfold Js.tryCatch, Js.bind, Js.reading, Js.ret, Js.throw.
    destruct (Fs.stat w _) as [st|e0]; cbn [fst snd].
    2:{ split; [done|]. intros e [= <-]. right. right. eauto. }
    destruct (Fs.isDirectory st).
    + unfold Resources.buildDirectoryListing, Js.bind, Js.reading, Js.ret.
      destruct (Fs.readdir w _) as [x|e0]; cbn [fst snd]; (split; [done|]);
          intros e He; [discriminate He|]; injection He as <-;
          right; right; eauto.
    + destruct (_ || _).
      * destruct (Fs.readFile w _ _) as [x|e0]; cbn [fst snd]; (split; [done|]);
          intros e He; [discriminate He|]; injection He as <-;
          right; right; eauto.
      * destruct (Fs.readBuffer w _) as [x|e0]; cbn [fst snd]; (split; [done|]);
          intros e He; [discriminate He|]; injection He as <-;
          right; right; eauto.
Qed.

(** A directory is listed alike with and without the separator at the end
    of its URI: the two contents differ by the URI they carry only. *)
Theorem directory_uri_with_or_without_slash
    (w : Fs.World) (p : string) (entries : list Fs.Dirent) :
  Str.endsWith p "/" = false ->
  Fs.readdir w p = Returned entries ->
  Resources.readResource ("file://" +:+ p) w
    = (Returned (Resources.asText ("file://" +:+ p)
                   (Resources.listing p entries)), w) /\
  Resources.readResource ("file://" +:+ p +:+ "/") w
    = (Returned (Resources.asText ("file://" +:+ p +:+ "/")
                   (Resources.listing p entries)), w).
Proof.
  intros Hend Hrd.
  destruct (StaticFacts.readdir_inv _ _ _ Hrd) as (m & es & Hloc).
  assert (Hne : Str.eqb p "" = false).
  { destruct p; [|done]. by vm_compute in Hloc. }
  split.
  - unfold Resources.readResource. change (String.length "file://") with 7.
    assert (Hd : Str.drop 7 ("file://" +:+ p) = p)
      by apply (StrFacts.drop_app "file://").
    rewrite (StrFacts.startsWith_app "file://" p), Hd, Hend. cbn [negb].
    unfold Js.tryCatch, Js.bind, Js.reading, Js.ret, Fs.stat.
    rewrite Hloc. cbn [Fs.isDirectory Fs.stats_of Fs.st_kind Fs.node_kind].
    unfold Resources.buildDirectoryListing, Js.bind, Js.reading, Js.ret.
    by rewrite Hrd.
  - unfold Resources.readResource. change (String.length "file://") with 7.
    assert (Hd : Str.drop 7 ("file://" +:+ p +:+ "/") = p +:+ "/")
      by apply (StrFacts.drop_app "file://").
    rewrite (StrFacts.startsWith_app "file://" (p +:+ "/")), Hd.
    rewrite StaticFacts.endsWith_snoc, StaticFacts.dropLast_snoc, Hne.
    cbn [negb].
    unfold Resources.buildDirectoryListing, Js.bind, Js.reading, Js.ret.
    by rewrite Hrd.
Qed.

Lemma directory_uri_with_or_without_slash_witness :
  Resources.readResource ("file://" +:+ "/srv/src") Sample.world
    = (Returned (Resources.asText ("file://" +:+ "/srv/src")
                   (Resources.listing "/srv/src"
                      [{| Fs.name := "index.ts"; Fs.d_kind := Fs.KFile |};
                       {| Fs.name := "util.ts"; Fs.d_kind := Fs.KFile |}])),
       Sample.world) /\
  Resources.readResource ("file://" +:+ "/srv/src" +:+ "/") Sample.world
    = (Returned (Resources.asText ("file://" +:+ "/srv/src" +:+ "/")
                   (Resources.listing "/srv/src"
                      [{| Fs.name := "index.ts"; Fs.d_kind := Fs.KFile |};
                       {| Fs.name := "util.ts"; Fs.d_kind := Fs.KFile |}])),
       Sample.world).
Proof.
  apply (directory_uri_with_or_without_slash Sample.world "/srv/src");
    vm_compute; reflexivity.
Defined.

Module UriFacts.
Import Str StrFacts Abs SplitFacts Path.

(** The last piece of a path, as [split] cuts it. *)
Lemma split_go_app_sep (a b cur : string) :
  exists L, split_go slash (a +:+ String slash b) cur
            = L ++ split_go slash b "".
Proof.
  revert cur. induction a as [|x a IH]; intros cur.
  - rewrite app_nil_l, split_go_sep. by exists [rev cur].
  - rewrite app_cons. cbn [split_go]. destruct (bool_decide (x = slash)).
    + destruct (IH "") as [L ->]. by exists (rev cur :: L).
    + apply IH.
Qed.

Lemma normSegs_app b l1 l2 acc :
  exists acc', normSegs b (l1 ++ l2) acc = normSegs b l2 acc'.
Proof.
  revert acc. induction l1 as [|c l1 IH]; intros acc; [by exists acc|].
  cbn [app normSegs].
  destruct (_ || _); [apply IH|].
  destruct (Str.eqb c ".."); [|apply IH].
  destruct acc as [|last acc']; [apply IH|].
  destruct (Str.eqb last ".."); apply IH.
Qed.

Lemma no_slash_dotdot : no_slash ".." = true.
Proof. reflexivity. Qed.

Lemma normSegs_no_slash b comps acc :
  Forall (fun c => no_slash c = true) comps ->
  Forall (fun c => no_slash c = true) acc ->
  Forall (fun c => no_slash c = true) (normSegs b comps acc).
Proof.
  intros Hc. revert acc. induction Hc as [|c comps Hx Hl IH]; intros acc Hacc.
  - cbn [normSegs]. by apply Forall_reverse.
  - cbn [normSegs]. destruct (_ || _); [by apply IH|].
    destruct (Str.eqb c "..").
    + destruct acc as [|last acc'].
      * apply IH. destruct b; [|done]. by repeat constructor.
      * destruct (Str.eqb last "..").
        -- apply IH. destruct b; [|done]. by constructor.
        -- apply IH. by inversion Hacc.
    + apply IH. by constructor.
Qed.

Lemma join_snoc_nonempty (Y : list string) (f : string) :
  f <> "" -> Str.join "/" (Y ++ [f]) <> "".
Proof.
  intros Hf. induction Y as [|y Y IH]; [done|].
  destruct Y as [|z Y].
  - cbn [app Str.join]. destruct y; [|done].
    rewrite app_nil_l. done.
  - change (Str.join "/" ((y :: z :: Y) ++ [f]))
      with (y +:+ "/" +:+ Str.join "/" ((z :: Y) ++ [f])).
    destruct y; [|done]. rewrite app_nil_l. done.
Qed.

Lemma endsWith_name (a f : string) :
  name_ok f = true -> endsWith (a +:+ f) "/" = false.
Proof.
  intros Hf. destruct (name_ok_inv _ Hf) as (Hne & _ & _ & Hns).
  unfold endsWith. rewrite rev_app. change (rev "/") with "/".
  rewrite <- no_slash_rev in Hns.
  assert (Hr : rev f <> "").
  { intros Hr. apply (f_equal rev) in Hr. rewrite rev_involutive in Hr.
    subst f. discriminate Hne. }
  destruct (rev f) as [|c r]; [done|].
  rewrite app_cons. cbn [startsWith]. rewrite no_slash_cons in Hns.
  apply andb_prop in Hns as [Hc _]. apply negb_true_iff in Hc.
  rewrite bool_decide_eq_false in Hc.
  rewrite bool_decide_eq_false_2; [done|]. intros Heq. by apply Hc.
Qed.

(** Normalising a path that ends with a name keeps the name at the end. *)
Lemma normalize_ends_with_name (a f : string) :
  name_ok f = true ->
  a = "" \/ (exists a', a = a' +:+ "/") ->
  exists pre Y,
    (pre = "" \/ pre = "/") /\
    Forall (fun c => no_slash c = true) Y /\
    normalize (a +:+ f) = pre +:+ Str.join "/" (Y ++ [f]).
Proof.
  intros Hf Ha. destruct (name_ok_inv _ Hf) as (Hne & _ & _ & Hns).
  assert (Hfne : f <> "") by (intros ->; discriminate Hne).
  assert (Hsplit : exists L, split slash (a +:+ f) = L ++ [f]).
  { destruct Ha as [->|[a' ->]].
    - exists []. rewrite app_nil_l. by apply split_piece.
    - rewrite app_assoc. change ("/" +:+ f) with (String slash f).
      destruct (split_go_app_sep a' f "") as [L HL].
      exists L. unfold split. by rewrite HL, split_piece. }
  destruct Hsplit as [L HL].
  unfold normalize, normalizeString.
  assert (Hp : Str.eqb (a +:+ f) "" = false).
  { apply bool_decide_eq_false. intros H. destruct a; [by rewrite app_nil_l in H|].
    discriminate H. }
  rewrite Hp, (endsWith_name _ _ Hf), HL.
  set (b := negb (isAbsolute (a +:+ f))).
  destruct (normSegs_app b L [f] []) as [acc' Hacc].
  assert (Hnorm : normSegs b (L ++ [f]) [] = reverse acc' ++ [f]).
  { rewrite Hacc. cbn [normSegs].
    destruct (name_ok_inv _ Hf) as (-> & -> & -> & _). cbn [orb normSegs].
    by rewrite reverse_cons. }
  assert (Hall : Forall (fun c => no_slash c = true) (reverse acc' ++ [f])).
  { rewrite <- Hnorm. apply normSegs_no_slash; [|constructor].
    rewrite <- HL. apply split_no_slash. }
  apply Forall_app in Hall as [HY _].
  rewrite Hnorm.
  assert (Hn : Str.eqb (Str.join "/" (reverse acc' ++ [f])) "" = false).
  { apply bool_decide_eq_false. by apply join_snoc_nonempty. }
  rewrite Hn.
  destruct (isAbsolute (a +:+ f)).
  - exists "/", (reverse acc'). split; [by right|]. by split.
  - exists "", (reverse acc'). split; [by left|]. split; [done|].
    by rewrite app_nil_l.
Qed.

Lemma join_ends_with_name (cwd f : string) :
  name_ok f = true ->
  exists pre Y,
    (pre = "" \/ pre = "/") /\
    Forall (fun c => no_slash c = true) Y /\
    Path.join [cwd; f] = pre +:+ Str.join "/" (Y ++ [f]).
Proof.
  intros Hf. destruct (name_ok_inv _ Hf) as (Hne & _).
  assert (Hfne : f <> "") by (intros ->; discriminate Hne).
  unfold Path.join. destruct (decide (cwd = "")) as [->|Hc].
  - rewrite filter_cons_False by (intros H; by apply H).
    rewrite filter_cons_True by done. rewrite filter_nil.
    cbn [Str.join].
    destruct (normalize_ends_with_name "" f Hf) as (pre & Y & H1 & H2 & H3);
      [by left|].
    rewrite app_nil_l in H3. eauto 10.
  - rewrite filter_cons_True by done.
    rewrite filter_cons_True by done. rewrite filter_nil.
    change (Str.join "/" [cwd; f]) with (cwd +:+ "/" +:+ f).
    destruct (normalize_ends_with_name (cwd +:+ "/") f Hf)
      as (pre & Y & H1 & H2 & H3); [right; by exists cwd|].
    rewrite app_assoc in H3. eauto 10.
Qed.

(** The last piece of a joined path is the name joined last. *)
Lemma last_piece_join (cwd f : string) :
  name_ok f = true ->
  last (split slash (Path.join [cwd; f])) = Some f.
Proof.
  intros Hf. destruct (join_ends_with_name cwd f Hf)
    as (pre & Y & Hpre & HY & ->).
  assert (HYf : Forall (fun c => no_slash c = true) (Y ++ [f])).
  { apply Forall_app. split; [done|]. constructor; [|constructor].
    by destruct (name_ok_inv _ Hf) as (_ & _ & _ & ?). }
  assert (Hne : Y ++ [f] <> []) by by destruct Y.
  destruct Hpre as [->| ->].
  - rewrite app_nil_l, split_join by done. apply last_snoc.
  - unfold split. rewrite app_cons, app_nil_l.
    change (String "/" ?x) with (String slash x).
    rewrite split_go_sep.
    change (split_go slash ?x "") with (split slash x).
    rewrite split_join by done.
    change (rev "" :: Y ++ [f]) with (("" :: Y) ++ [f]). apply last_snoc.
Qed.

Lemma last_piece_slash (cwd : string) :
  last (split slash (cwd +:+ "/")) = Some "".
Proof.
  unfold split. destruct (split_go_trailing slash cwd "") as [l Hl].
  change (String slash "") with "/" in Hl. rewrite Hl. apply last_snoc.
Qed.

Lemma append_inj (p a b : string) : p +:+ a = p +:+ b -> a = b.
Proof.
  induction p as [|c p IH]; [done|].
  rewrite !app_cons. intros [= H]. by apply IH.
Qed.

End UriFacts.

Module DistinctFacts.
Import Fs Resources.

Lemma candidate_name_ok c : c ∈ candidates -> Abs.name_ok (file c) = true.
Proof.
  intros H. unfold candidates in H.
  by repeat (apply elem_of_cons in H as [->|H]; [reflexivity|]);
    apply elem_of_nil in H.
Qed.

Lemma candidate_by_file c1 c2 :
  c1 ∈ candidates -> c2 ∈ candidates -> file c1 = file c2 -> c1 = c2.
Proof.
  intros H1 H2. unfold candidates in *.
  repeat (apply elem_of_cons in H1 as [->|H1]);
    [..|by apply elem_of_nil in H1];
    repeat (apply elem_of_cons in H2 as [->|H2]);
    try (by apply elem_of_nil in H2); cbn [file]; intros H;
    first [reflexivity | discriminate H].
Qed.

Lemma NoDup_candidates : NoDup candidates.
Proof.
  apply (NoDup_fmap_1 file).
  apply (bool_decide_unpack _). vm_compute. exact I.
Qed.

Lemma filter_candidates w c :
  c ∈ List.filter (Static.present w) candidates -> c ∈ candidates.
Proof.
  intros H. apply list_elem_of_In in H. apply List.filter_In in H as [H _].
  by apply list_elem_of_In.
Qed.

End DistinctFacts.

(** The static resources have pairwise different URIs, whatever the
    working directory is: registering them one by one never meets a URI
    twice. *)
Theorem static_resource_uris_are_distinct (w : Fs.World) :
  exists l,
    Resources.buildStaticResources w = (Returned l, w) /\
    NoDup (map Resources.uri l).
Proof.
  eexists. split; [apply StaticFacts.buildStaticResources_filter|].
  rewrite map_app. apply NoDup_app. split; [|split].
  - rewrite List.map_map. apply NoDup_fmap_2_strong.
    + intros x y Hx Hy Heq.
      apply DistinctFacts.filter_candidates in Hx, Hy.
      cbn [Resources.uri Static.entry] in Heq.
      apply UriFacts.append_inj in Heq.
      apply (f_equal (fun p => last (Str.split Str.slash p))) in Heq.
      rewrite !UriFacts.last_piece_join in Heq
        by by apply DistinctFacts.candidate_name_ok.
      injection Heq as Heq. by apply DistinctFacts.candidate_by_file.
    + apply NoDup_ListNoDup, List.NoDup_filter, NoDup_ListNoDup.
      apply DistinctFacts.NoDup_candidates.
  - intros u Hu Hwd. apply list_elem_of_singleton in Hwd. subst u.
    rewrite List.map_map in Hu. apply list_elem_of_fmap in Hu as (c & Heq & Hc).
    apply DistinctFacts.filter_candidates in Hc.
    cbn [Resources.uri Static.entry Resources.workingDirectory] in Heq.
    apply UriFacts.append_inj in Heq.
    apply (f_equal (fun p => last (Str.split Str.slash p))) in Heq.
    rewrite UriFacts.last_piece_slash, UriFacts.last_piece_join in Heq
      by by apply DistinctFacts.candidate_name_ok.
    injection Heq as Heq.
    pose proof (DistinctFacts.candidate_name_ok _ Hc) as Hok.
    rewrite <- Heq in Hok. discriminate Hok.
  - apply NoDup_singleton.
Qed.

Module FindFacts.
Import Fs Prompts Tree.

Lemma descend_cons dir entry names :
  Search.descend (Path.join [dir; entry]) names
  = Search.descend dir (entry :: names).
Proof. reflexivity. Qed.

(** What [findFirst] returns is a file of that name below the directory,
    within the depth allowed and under no ignored directory. *)
Lemma find_node_sound filename maxDepth n :
  forall dir depth f,
    find_node dir filename n depth maxDepth = Returned (Some f) ->
    exists names,
      f = Search.descend dir (names ++ [filename]) /\
      holds_file n (names ++ [filename]) /\
      depth + length names <= maxDepth /\
      Forall (fun x => x ∉ findIgnored) names.
Proof.
  induction n as [a m data | a m es IH | m] using FsInduction.node_rect';
    intros dir depth f.
  - cbn [find_node]. destruct (maxDepth <? depth)%nat; intros H;
      discriminate H.
  - cbn [find_node]. destruct (maxDepth <? depth)%nat eqn:Hd; [done|].
    apply Nat.ltb_ge in Hd.
    destruct a; [|done].
    assert (Hsub : forall x, x ∈ es -> x ∈ es) by done.
    revert Hsub. generalize es at 1 3 as es0.
    intros es0. induction es0 as [|[entry child] es0 IHes]; intros Hsub;
      [done|].
    assert (Hin : (entry, child) ∈ es) by (apply Hsub; left).
    assert (Hsub' : forall x, x ∈ es0 -> x ∈ es).
    { intros x Hx. apply Hsub. by right. }
    specialize (IHes Hsub').
    destruct child as [a' m' data' | a' m' es' | m']; [| |exact IHes].
    + destruct (Str.eqb entry filename) eqn:E; [|exact IHes].
      apply TreeFacts.eqb_eq in E. subst entry.
      intros [= <-]. exists []. repeat split.
      * by eapply holds_here.
      * cbn. lia.
      * constructor.
    + destruct (Str.mem entry findIgnored) eqn:Hmem; cbn [negb];
        [exact IHes|].
      rewrite Forall_forall in IH. pose proof (IH _ Hin) as IHc.
      cbn [snd] in IHc.
      destruct (find_node (Path.join [dir; entry]) filename (Dir a' m' es')
                  (depth + 1) maxDepth) as [[f'|]|e] eqn:Hc;
        cbn [Js.obind]; [| exact IHes | done].
      destruct (Str.eqb f' ""); [exact IHes|].
      intros [= <-].
      destruct (IHc _ _ _ Hc) as (names & -> & Hh & Hlen & Hig).
      exists (entry :: names). repeat split.
      * by eapply holds_below.
      * cbn [length]. lia.
      * constructor; [|done]. unfold Str.mem in Hmem.
        by apply bool_decide_eq_false in Hmem.
  - cbn [find_node]. destruct (maxDepth <? depth)%nat; intros H;
      discriminate H.
Qed.


Lemma normalize_nonempty p : Path.normalize p <> "".
Proof.
  unfold Path.normalize. destruct (Str.eqb p ""); [done|].
  destruct (Str.eqb (Path.normalizeString p _) "") eqn:E.
  - by destruct (Path.isAbsolute p), (Str.endsWith p "/").
  - apply bool_decide_eq_false in E.
    destruct (Path.isAbsolute p); [done|].
    destruct (Str.endsWith p "/"); [|done].
    intros H. apply E. by destruct (Path.normalizeString p _).
Qed.

Lemma path_join_nonempty paths : Path.join paths <> "".
Proof.
  unfold Path.join. destruct (filter _ paths); [done|].
  apply normalize_nonempty.
Qed.

Lemma descend_nonempty dir names x : Search.descend dir (names ++ [x]) <> "".
Proof.
  unfold Search.descend. rewrite foldl_app. cbn [foldl].
  apply path_join_nonempty.
Qed.

Lemma holds_file_inv m es l :
  holds_file (Dir true m es) l ->
  (exists name a' m' d, l = [name] /\ (name, File a' m' d) ∈ es) \/
  (exists name child rest,
     l = name :: rest /\ (name, child) ∈ es /\ holds_file child rest).
Proof. inversion 1; subst; eauto 10. Qed.

(** When [findFirst] returns [null], there is no such file. *)
Lemma find_node_complete filename maxDepth n :
  forall dir depth,
    find_node dir filename n depth maxDepth = Returned None ->
    forall names,
      depth + length names <= maxDepth ->
      Forall (fun x => x ∉ findIgnored) names ->
      ~ holds_file n (names ++ [filename]).
Proof.
  induction n as [a m data | a m es IH | m] using FsInduction.node_rect';
    intros dir depth Hrun names Hlen Hig Hh; [inversion Hh| |inversion Hh].
  cbn [find_node] in Hrun.
  assert (Hd : (maxDepth <? depth)%nat = false) by (apply Nat.ltb_ge; lia).
  rewrite Hd in Hrun. destruct a; [|inversion Hh].
  assert (Hsub : forall x, x ∈ es -> x ∈ es) by done.
  assert (Hcase :
            (names = [] /\ exists a' m' d, (filename, File a' m' d) ∈ es) \/
            (exists name rest child,
               names = name :: rest /\ (name, child) ∈ es /\
               holds_file child (rest ++ [filename]))).
  { apply holds_file_inv in Hh
      as [(name & a' & m' & d & Heq & Hf)|(name & child & rest & Heq & Hc & Hrest)].
    - left. destruct names as [|x names'].
      + injection Heq as <-. eauto 10.
      + injection Heq as _ Heq. by destruct names'.
    - right. destruct names as [|x names'].
      + injection Heq as _ <-. inversion Hrest.
      + injection Heq as <- <-. eauto 10. }
  revert Hrun Hsub Hcase.
  generalize es at 1 2 4 5 as es0. intros es0.
  induction es0 as [|[entry child] es0 IHes]; intros Hrun Hsub Hcase.
  { destruct Hcase as [(_ & ? & ? & ? & Hin)|(? & ? & ? & _ & Hin & _)];
      by apply elem_of_nil in Hin. }
  assert (Hin : (entry, child) ∈ es) by (apply Hsub; left).
  assert (Hsub' : forall x, x ∈ es0 -> x ∈ es).
  { intros x Hx. apply Hsub. by right. }
  rewrite Forall_forall in IH. pose proof (IH _ Hin) as IHc. cbn [snd] in IHc.
  assert (Hstep :
            (fix loop (es : list (string * node)) : outcome (option string) :=
               match es with
               | [] => Returned None
               | (entry, child) :: rest =>
                   match child with
                   | File _ _ _ =>
                       if Str.eqb entry filename
                       then Returned (Some (Path.join [dir; entry]))
                       else loop rest
                   | Dir _ _ _ =>
                       if negb (Str.mem entry findIgnored) then
                         Js.obind
                           (find_node (Path.join [dir; entry]) filename
                              child (depth + 1) maxDepth)
                           (fun found =>
                              match found with
                              | Some f =>
                                  if Str.eqb f "" then loop rest
                                  else Returned (Some f)
                              | None => loop rest
                              end)
                       else loop rest
                   | Special _ => loop rest
                   end
               end) es0 = Returned None ->
            ((names = [] /\ exists a' m' d, (filename, File a' m' d) ∈ es0) \/
             (exists name rest child,
                names = name :: rest /\ (name, child) ∈ es0 /\
                holds_file child (rest ++ [filename]))) ->
            False).
  { intros H1 H2. by eapply IHes. }
  destruct child as [a' m' data' | a' m' es' | m'].
  - destruct (Str.eqb entry filename) eqn:E; [done|].
    apply Hstep; [done|].
    destruct Hcase as [(-> & a0 & m0 & d0 & Hf)|(name & rest & ch & -> & Hc & Hch)].
    + apply elem_of_cons in Hf as [Hf|Hf].
      * injection Hf as <- _ _ _. by rewrite TreeFacts.eqb_refl in E.
      * left. eauto.
    + apply elem_of_cons in Hc as [Hc|Hc].
      * injection Hc as -> ->. inversion Hch.
      * right. eauto 10.
  - destruct (Str.mem entry findIgnored) eqn:Hmem; cbn [negb] in Hrun.
    + apply Hstep; [done|].
      destruct Hcase as [(-> & a0 & m0 & d0 & Hf)|(name & rest & ch & -> & Hc & Hch)].
      * apply elem_of_cons in Hf as [Hf|Hf]; [done|]. left. eauto.
      * apply elem_of_cons in Hc as [Hc|Hc].
        -- injection Hc as -> ->. apply Forall_cons in Hig as [Hig _].
           unfold Str.mem in Hmem. by apply bool_decide_eq_true in Hmem.
        -- right. eauto 10.
    + destruct (find_node (Path.join [dir; entry]) filename (Dir a' m' es')
                  (depth + 1) maxDepth) as [[f'|]|e] eqn:Hc';
        cbn [Js.obind] in Hrun; [| |done].
      * destruct (Str.eqb f' "") eqn:Ef; [|done].
        apply TreeFacts.eqb_eq in Ef. subst f'.
        destruct (find_node_sound _ _ _ _ _ _ Hc') as (ns & Hns & _).
        symmetry in Hns. by apply descend_nonempty in Hns.
      * apply Hstep; [done|].
        destruct Hcase as [(-> & a0 & m0 & d0 & Hf)|(name & rest & ch & -> & Hc & Hch)].
        -- apply elem_of_cons in Hf as [Hf|Hf]; [done|]. left. eauto.
        -- apply elem_of_cons in Hc as [Hc|Hc].
           ++ injection Hc as -> ->. exfalso.
              apply Forall_cons in Hig as [_ Hig].
              eapply (IHc _ _ Hc' rest); [cbn [length] in Hlen; lia|done|done].
           ++ right. eauto 10.
  - apply Hstep; [done|].
    destruct Hcase as [(-> & a0 & m0 & d0 & Hf)|(name & rest & ch & -> & Hc & Hch)].
    + apply elem_of_cons in Hf as [Hf|Hf]; [done|]. left. eauto.
    + apply elem_of_cons in Hc as [Hc|Hc].
      * injection Hc as -> ->. inversion Hch.
      * right. eauto 10.
Qed.

End FindFacts.

(* ===================================================================== *)
(** * What find-and-explain finds *)
(* ===================================================================== *)

(** [findFirst] is right both ways when it returns: a path it returns is
    the path of a file of the wanted name, at most five directories below
    the search root and under no ignored directory; and [null] means the
    tree holds no such file there. *)
Theorem findFirst_is_exact
    (w : Fs.World) (dir filename : string) (n : Fs.node) :
  Fs.locate w dir = inr n ->
  match fst (Prompts.findFirst dir filename 0 5 w) with
  | Returned (Some f) =>
      exists names,
        f = Search.descend dir (names ++ [filename]) /\
        Tree.holds_file n (names ++ [filename]) /\
        length names <= 5 /\
        Forall (fun x => x ∉ Prompts.findIgnored) names
  | Returned None =>
      forall names,
        length names <= 5 ->
        Forall (fun x => x ∉ Prompts.findIgnored) names ->
        ~ Tree.holds_file n (names ++ [filename])
  | Thrown _ => True
  end.
Proof.
  intros Hloc. unfold Prompts.findFirst, Js.reading. cbn [fst].
  change (5 <? 0)%nat with false. cbv iota. rewrite Hloc.
  destruct (Prompts.find_node dir filename n 0 5) as [[f|]|e] eqn:Hrun;
    [| |done].
  - destruct (FindFacts.find_node_sound _ _ _ _ _ _ Hrun)
      as (names & -> & Hh & Hlen & Hig).
    exists names. repeat split; [done|lia|done].
  - intros names Hlen Hig.
    eapply FindFacts.find_node_complete; [exact Hrun|lia|done].
Qed.

Lemma findFirst_is_exact_witness :
  match fst (Prompts.findFirst "/srv" "util.ts" 0 5 Sample.world) with
  | Returned (Some f) =>
      exists names,
        f = Search.descend "/srv" (names ++ ["util.ts"]) /\
        Tree.holds_file Sample.project (names ++ ["util.ts"]) /\
        length names <= 5 /\
        Forall (fun x => x ∉ Prompts.findIgnored) names
  | Returned None =>
      forall names,
        length names <= 5 ->
        Forall (fun x => x ∉ Prompts.findIgnored) names ->
        ~ Tree.holds_file Sample.project (names ++ ["util.ts"])
  | Thrown _ => True
  end.
Proof.
  apply (findFirst_is_exact Sample.world "/srv" "util.ts" Sample.project).
  vm_compute; reflexivity.
Defined.
